(** * Digging map generator (digger3.cpp): shallow embedding and properties

    The generator grows a dungeon on a fixed grid: [dig_loop] seeds one
    doorway on the bottom edge and then drains the [doorways] worklist in
    random order, each time trying [dig_room] or [dig_corridor] up to
    [max_tries] times.

    Modelling choices.
    - C++ [int] is modelled by [Z]: every coordinate the program computes
      stays within a few cells of the grid.
    - [int **grid] is a list of rows; [grid[v.y][v.x]] outside the
      allocated rows and columns is undefined behaviour in C++ and is the
      explicit outcome [OutOfBounds] here.
    - The globals [grid], [size_x], [size_y], [doorways] and the hidden
      state of [rand()] form the record [State], passed explicitly.
    - [rand()] reads the next entry of an arbitrary infinite tape of
      naturals (the C library guarantees a non-negative result). *)

From Stdlib Require Import ZArith Lia Bool.
From Stdlib Require Import Ascii.
From Stdlib Require String.
From stdpp Require Import base list.

Open Scope Z_scope.

(** ** Geometry: [class Vector] *)

Module Vector.

Record t : Type := mk { x : Z; y : Z }.

Definition add (a b : t) : t := mk (x a + x b) (y a + y b).
Definition sub (a b : t) : t := mk (x a - x b) (y a - y b).
Definition scale (a : t) (scalar : Z) : t := mk (x a * scalar) (y a * scalar).

(** [operator==] and [operator!=] *)
Definition eqb (a b : t) : bool := (x a =? x b) && (y a =? y b).
Definition neqb (a b : t) : bool := negb (x a =? x b) || negb (y a =? y b).

Definition left (a : t) : t := mk (y a) (- x a).
Definition right (a : t) : t := mk (- y a) (x a).

(** The four headings the generator ever uses. *)
Definition cardinal (h : t) : Prop :=
  h = mk 0 (-1) \/ h = mk 1 0 \/ h = mk 0 1 \/ h = mk (-1) 0.

(** Squared Euclidean length; a unit vector has [norm2 = 1]. *)
Definition norm2 (a : t) : Z := x a * x a + y a * y a.

End Vector.

Abbreviation Vector := Vector.t.
Infix "+v" := Vector.add (at level 50, left associativity).
Infix "-v" := Vector.sub (at level 50, left associativity).
Infix "*v" := Vector.scale (at level 40, left associativity).

(** ** Tiles and the grid *)

Inductive tile : Type :=
  | TILE_UNKNOWN | TILE_FLOOR | TILE_WALL | TILE_PERMAWALL | TILE_DOOR.

(** The test of [is_wall] on a tile value. *)
Definition wall_like (t : tile) : bool :=
  match t with
  | TILE_WALL | TILE_UNKNOWN | TILE_PERMAWALL => true
  | TILE_FLOOR | TILE_DOOR => false
  end.

Record Doorway : Type :=
  mkDoorway { location : Vector; heading : Vector; has_door : bool }.

Record State : Type := mkState {
  grid : list (list tile);
  size_x : Z;
  size_y : Z;
  doorways : list Doorway;
  rand_src : nat -> nat;
  rand_calls : nat
}.

Definition with_grid (st : State) (g : list (list tile)) : State :=
  mkState g (size_x st) (size_y st) (doorways st) (rand_src st) (rand_calls st).

Definition with_doorways (st : State) (ds : list Doorway) : State :=
  mkState (grid st) (size_x st) (size_y st) ds (rand_src st) (rand_calls st).

(** ** Outcomes: a value, or an access outside the allocated grid *)

Inductive result (A : Type) : Type :=
  | Ok (a : A)
  | OutOfBounds.
Arguments Ok {A} a.
Arguments OutOfBounds {A}.

Definition bind {A B : Type} (m : result A) (k : A -> result B) : result B :=
  match m with
  | Ok a => k a
  | OutOfBounds => OutOfBounds
  end.

Notation "'let!' x ':=' m 'in' k" := (bind m (fun x => k))
  (at level 10, x name, m at level 200, k at level 200).
Notation "'let!' ' p ':=' m 'in' k" := (bind m (fun p => k))
  (at level 10, p pattern, m at level 200, k at level 200).

(** [grid[v.y][v.x]] as an rvalue. *)
Definition cell (g : list (list tile)) (v : Vector) : option tile :=
  if (0 <=? Vector.x v) && (0 <=? Vector.y v)
  then match g !! Z.to_nat (Vector.y v) with
       | Some row => row !! Z.to_nat (Vector.x v)
       | None => None
       end
  else None.

(** [grid[v.y][v.x] = t]. *)
Definition store (g : list (list tile)) (v : Vector) (t : tile)
  : list (list tile) :=
  match g !! Z.to_nat (Vector.y v) with
  | Some row => <[Z.to_nat (Vector.y v) := <[Z.to_nat (Vector.x v) := t]> row]> g
  | None => g
  end.

Definition read_tile (st : State) (v : Vector) : result tile :=
  match cell (grid st) v with
  | Some t => Ok t
  | None => OutOfBounds
  end.

Definition write_tile (st : State) (v : Vector) (t : tile) : result State :=
  match cell (grid st) v with
  | Some _ => Ok (with_grid st (store (grid st) v t))
  | None => OutOfBounds
  end.

Definition is_in_bounds (st : State) (v : Vector) : bool :=
  (1 <=? Vector.x v) && (1 <=? Vector.y v)
  && (Vector.x v <? size_x st - 1) && (Vector.y v <? size_y st - 1).

Definition is_in_bounds_or_border (st : State) (v : Vector) : bool :=
  (0 <=? Vector.x v) && (0 <=? Vector.y v)
  && (Vector.x v <? size_x st) && (Vector.y v <? size_y st).

Definition is_wall (st : State) (v : Vector) : result bool :=
  let! t := read_tile st v in Ok (wall_like t).

Definition is_permawall (st : State) (v : Vector) : result bool :=
  let! t := read_tile st v in
  Ok match t with TILE_PERMAWALL => true | _ => false end.

Definition dig_tile (st : State) (v : Vector) := write_tile st v TILE_FLOOR.
Definition door_tile (st : State) (v : Vector) := write_tile st v TILE_DOOR.
Definition fill_tile (st : State) (v : Vector) := write_tile st v TILE_WALL.
Definition permawall_tile (st : State) (v : Vector) :=
  write_tile st v TILE_PERMAWALL.

(** ** Random numbers *)

Definition rand (st : State) : Z * State :=
  (Z.of_nat (rand_src st (rand_calls st)),
   mkState (grid st) (size_x st) (size_y st) (doorways st)
           (rand_src st) (S (rand_calls st))).

(** [rand() % (Max-Min+1) + Min]; C's [%] truncates like [Z.rem]. *)
Definition rand_range (Min Max : Z) (st : State) : Z * State :=
  let (r, st') := rand st in (Z.rem r (Max - Min + 1) + Min, st').

Definition push_doorway (st : State) (d : Doorway) : State :=
  with_doorways st (doorways st ++ [d]).

(** ** [dig_room] *)

(** Inner [for(xi...)] loop of the footprint check, [n] iterations left.
    [None] is the early [return 0]; otherwise the position after the row. *)
Fixpoint room_check_row (st : State) (entrance heading : Vector)
    (n : nat) (pos : Vector) : result (option Vector) :=
  match n with
  | O => Ok (Some pos)
  | S n' =>
      if negb (is_in_bounds_or_border st pos) then Ok None
      else
        let! w := is_wall st pos in
        if negb w && Vector.neqb pos entrance then Ok None
        else room_check_row st entrance heading n' (pos +v Vector.right heading)
  end.

(** Outer [for(yi...)] loop of the check over rows of [w] cells. *)
Fixpoint room_check (st : State) (entrance heading : Vector)
    (w : Z) (n : nat) (pos : Vector) : result bool :=
  match n with
  | O => Ok true
  | S n' =>
      let! r := room_check_row st entrance heading (Z.to_nat w) pos in
      match r with
      | None => Ok false
      | Some pos' =>
          room_check st entrance heading w n'
            (pos' -v Vector.right heading *v w +v heading)
      end
  end.

(** The two writing loops ("fill the whole area with rock" and "dig out
    the inside") have the same shape and differ in the mutator [put]. *)
Fixpoint paint_row (put : State -> Vector -> result State) (heading : Vector)
    (n : nat) (pos : Vector) (st : State) : result (Vector * State) :=
  match n with
  | O => Ok (pos, st)
  | S n' =>
      let! st1 := put st pos in
      paint_row put heading n' (pos +v Vector.right heading) st1
  end.

Fixpoint paint_rect (put : State -> Vector -> result State) (heading : Vector)
    (w : Z) (n : nat) (pos : Vector) (st : State) : result State :=
  match n with
  | O => Ok st
  | S n' =>
      let! '(pos', st1) := paint_row put heading (Z.to_nat w) pos st in
      paint_rect put heading w n'
        (pos' -v Vector.right heading *v w +v heading) st1
  end.

(** The end of [dig_room]: one doorway on the left, opposite and right
    wall, each at a freshly drawn offset. *)
Definition room_connections (heading : Vector) (sx sy : Z) (corner : Vector)
    (st : State) : State :=
  let '(r, st) := rand_range 1 sy st in
  let st := push_doorway st
              (mkDoorway (corner +v heading *v r) (Vector.left heading) true) in
  let '(r, st) := rand_range 1 sx st in
  let st := push_doorway st
              (mkDoorway (corner +v heading *v (sy + 1) +v Vector.right heading *v r)
                         heading true) in
  let '(r, st) := rand_range 1 sy st in
  push_doorway st
    (mkDoorway (corner +v Vector.right heading *v (sx + 1) +v heading *v r)
               (Vector.right heading) true).

(** [dig_room] after its three size draws: check, commit, new doorways. *)
Definition dig_room_sized (entrance heading : Vector) (sx sy : Z)
    (corner : Vector) (st : State) : result (bool * State) :=
  let! ok := room_check st entrance heading (sx + 2) (Z.to_nat (sy + 2)) corner in
  if negb ok then Ok (false, st)
  else
    let! st := paint_rect fill_tile heading (sx + 2) (Z.to_nat (sy + 2)) corner st in
    let! st := permawall_tile st corner in
    let! st := permawall_tile st (corner +v Vector.right heading *v (sx + 1)) in
    let! st := permawall_tile st (corner +v heading *v (sy + 1)) in
    let! st := permawall_tile st
                 (corner +v Vector.right heading *v (sx + 1) +v heading *v (sy + 1)) in
    let! st := paint_rect dig_tile heading sx (Z.to_nat sy)
                 (corner +v heading +v Vector.right heading) st in
    let! st := door_tile st entrance in
    Ok (true, room_connections heading sx sy corner st).

(** The draws [size.x], [size.y], [entrance_offset], in source order. *)
Definition room_draws (st : State) : Z * Z * Z * State :=
  let '(sx, st) := rand_range 3 6 st in
  let '(sy, st) := rand_range 3 6 st in
  let '(entrance_offset, st) := rand_range 1 sx st in
  (sx, sy, entrance_offset, st).

Definition dig_room (entrance heading : Vector) (st : State)
  : result (bool * State) :=
  let '(sx, sy, entrance_offset, st) := room_draws st in
  let corner := entrance +v Vector.left heading *v entrance_offset in
  dig_room_sized entrance heading sx sy corner st.

(** ** [dig_corridor] *)

(** The checking loop with [n] iterations left and counter [ii].
    [None] is [return 0]; [Some (length, found_intersect)] the values of
    the two variables when the loop is left. *)
Fixpoint corridor_check (st : State) (heading : Vector) (length : Z)
    (n : nat) (ii : Z) (pos left_pos right_pos : Vector)
  : result (option (Z * bool)) :=
  match n with
  | O => Ok (Some (length, false))
  | S n' =>
      let pos := pos +v heading in
      let left_pos := left_pos +v heading in
      let right_pos := right_pos +v heading in
      if negb (is_in_bounds st pos) then Ok None
      else
        let! w := is_wall st pos in
        if negb w then Ok (Some (ii, true))
        else
          let! wl := is_wall st left_pos in
          let! bad :=
            (if negb wl then Ok true
             else
               let! wr := is_wall st right_pos in
               if negb wr then Ok true else is_permawall st pos) in
          if bad then Ok None
          else corridor_check st heading length n' (ii + 1) pos left_pos right_pos
  end.

(** The digging loop; returns [pos] as the loop leaves it. *)
Fixpoint corridor_dig (heading : Vector) (n : nat)
    (pos left_pos right_pos : Vector) (st : State) : result (Vector * State) :=
  match n with
  | O => Ok (pos, st)
  | S n' =>
      let pos := pos +v heading in
      let left_pos := left_pos +v heading in
      let right_pos := right_pos +v heading in
      let! st := dig_tile st pos in
      let! st := fill_tile st left_pos in
      let! st := fill_tile st right_pos in
      if negb (is_in_bounds st (pos +v heading)) then Ok (pos, st)
      else
        let! w := is_wall st (pos +v heading) in
        if negb w then Ok (pos, st)
        else corridor_dig heading n' pos left_pos right_pos st
  end.

Definition corridor_scan (entrance heading : Vector) (length : Z) (st : State)
  : result (option (Z * bool)) :=
  corridor_check st heading length (Z.to_nat length) 0 entrance
    (entrance +v Vector.left heading) (entrance +v Vector.right heading).

(** [dig_corridor] after the draw of [length]. *)
Definition dig_corridor_sized (entrance heading : Vector) (length : Z)
    (st : State) : result (bool * State) :=
  let! r := corridor_scan entrance heading length st in
  match r with
  | None => Ok (false, st)
  | Some (length, found_intersect) =>
      if length <=? 1 then Ok (false, st)
      else if negb found_intersect then Ok (false, st)
      else
        let! '(pos, st) :=
          corridor_dig heading (Z.to_nat length) entrance
            (entrance +v Vector.left heading) (entrance +v Vector.right heading) st in
        let! unconnected :=
          (if negb (is_in_bounds st (pos +v heading)) then Ok true
           else is_wall st (pos +v heading)) in
        if unconnected then
          let! st := fill_tile st pos in
          Ok (true, push_doorway st (mkDoorway pos heading false))
        else
          let! st := door_tile st pos in
          Ok (true, st)
  end.

Definition dig_corridor (entrance heading : Vector) (st : State)
  : result (bool * State) :=
  let '(length, st) := rand_range 2 6 st in
  dig_corridor_sized entrance heading length st.

(** ** [dig_random] and [dig_loop] *)

Definition max_tries : nat := 5.

Fixpoint dig_random_tries (n : nat) (pos heading : Vector) (st : State)
  : result (bool * State) :=
  match n with
  | O => Ok (false, st)
  | S n' =>
      let '(r, st) := rand_range 0 1 st in
      let! '(success, st) :=
        (if r =? 1 then dig_corridor pos heading st
         else dig_room pos heading st) in
      if success then Ok (true, st)
      else dig_random_tries n' pos heading st
  end.

Definition dig_random (pos heading : Vector) (st : State)
  : result (bool * State) :=
  dig_random_tries max_tries pos heading st.

(** The entrance on the bottom edge: [Vector(size_x/2, size_y-1)]. *)
Definition map_entrance (st : State) : Vector :=
  Vector.mk (Z.quot (size_x st) 2) (size_y st - 1).

(** The statements of [dig_loop] before its [while]. *)
Definition dig_seed (st : State) : result State :=
  let entrance := map_entrance st in
  let st := push_doorway st (mkDoorway entrance (Vector.mk 0 (-1)) true) in
  let! st := door_tile st entrance in
  let! st := fill_tile st (entrance +v Vector.mk 1 0) in
  fill_tile st (entrance -v Vector.mk 1 0).

(** What the loop does to the doorway cell once something was dug there. *)
Definition connect_doorway (door : Doorway) (st : State) : result State :=
  if has_door door then door_tile st (location door)
  else
    let! w := is_wall st (location door) in
    if w then dig_tile st (location door) else Ok st.

(** One iteration of the [while(doorways.size() > 0)] body. *)
Definition dig_step (st : State) : result State :=
  let '(which, st) :=
    rand_range 0 (Z.of_nat (length (doorways st)) - 1) st in
  if which <? 0 then OutOfBounds
  else
    match doorways st !! Z.to_nat which with
    | None => OutOfBounds
    | Some door =>
        let st := with_doorways st (delete (Z.to_nat which) (doorways st)) in
        let! '(success, st) := dig_random (location door) (heading door) st in
        if success then connect_doorway door st else Ok st
    end.

(** How a run of the [while] loop stands after at most [fuel] iterations. *)
Inductive run : Type :=
  | Done (st : State)      (* the worklist is empty: the loop has exited *)
  | Crashed                (* an access outside the grid *)
  | Running (st : State).  (* [fuel] iterations done, worklist not empty *)

Fixpoint dig_drain (fuel : nat) (st : State) : run :=
  match doorways st with
  | [] => Done st
  | _ :: _ =>
      match fuel with
      | O => Running st
      | S fuel' =>
          match dig_step st with
          | Ok st' => dig_drain fuel' st'
          | OutOfBounds => Crashed
          end
      end
  end.

Definition dig_loop (fuel : nat) (st : State) : run :=
  match dig_seed st with
  | Ok st' => dig_drain fuel st'
  | OutOfBounds => Crashed
  end.

(** [init_map]: [size_y] rows of [size_x] unknown tiles. The definition
    covers the sizes [0 <= size_x] and [0 <= size_y]; for a negative size
    the source's [new[]] throws before any tile exists, which is not
    modelled here, so statements about a run are made for non-negative
    sizes. *)
Definition init_map (sx sy : Z) (src : nat -> nat) : State :=
  mkState (replicate (Z.to_nat sy) (replicate (Z.to_nat sx) TILE_UNKNOWN))
          sx sy [] src 0.

(** [print_map]: one character per tile. *)
Definition tile_char (t : tile) : Ascii.ascii :=
  match t with
  | TILE_UNKNOWN => " "
  | TILE_FLOOR => "."
  | TILE_WALL => "#"
  | TILE_PERMAWALL => "#"
  | TILE_DOOR => "+"
  end%char.

Definition print_map (st : State) : list (list Ascii.ascii) :=
  map (map tile_char) (grid st).

(** [main] after argument parsing. *)
Definition generate (fuel : nat) (sx sy : Z) (src : nat -> nat) : run :=
  dig_loop fuel (init_map sx sy src).

(** ** Further functions of digger3.cpp *)

(** [friend Vector operator*(int scalar, Vector vec)]. *)
Definition scalar_times (scalar : Z) (vec : Vector) : Vector :=
  Vector.mk (Vector.x vec * scalar) (Vector.y vec * scalar).

(** [is_known]: [grid[v.y][v.x] != TILE_UNKNOWN]. *)
Definition is_known (st : State) (v : Vector) : result bool :=
  let! t := read_tile st v in
  Ok match t with TILE_UNKNOWN => false | _ => true end.

(** [is_floor]: [grid[v.y][v.x] == TILE_FLOOR]. *)
Definition is_floor (st : State) (v : Vector) : result bool :=
  let! t := read_tile st v in
  Ok match t with TILE_FLOOR => true | _ => false end.

(** ['\n']. *)
Definition newline : Ascii.ascii := Ascii.ascii_of_nat 10.

(** The inner loop of [print_map]: [putchar] for [n] cells of row [yi],
    from column [xi] on. *)
Fixpoint print_row (st : State) (yi : Z) (n : nat) (xi : Z)
  : result (list Ascii.ascii) :=
  match n with
  | O => Ok []
  | S n' =>
      let! t := read_tile st (Vector.mk xi yi) in
      let! rest := print_row st yi n' (xi + 1) in
      Ok (tile_char t :: rest)
  end.

(** The outer loop: [n] rows from row [yi] on, each followed by
    [putchar('\n')]. *)
Fixpoint print_rows (st : State) (n : nat) (yi : Z)
  : result (list Ascii.ascii) :=
  match n with
  | O => Ok []
  | S n' =>
      let! row := print_row st yi (Z.to_nat (size_x st)) 0 in
      let! rest := print_rows st n' (yi + 1) in
      Ok (row ++ newline :: rest)
  end.

(** Everything [print_map] writes to the standard output, in order. *)
Definition print_map_output (st : State) : result (list Ascii.ascii) :=
  print_rows st (Z.to_nat (size_y st)) 0.

(** * Auxiliary definitions

    Notions used to state and prove the properties: the shape of the
    grid, the cells the loops visit, summaries of one placement, the
    invariant of the worklist loop, and sample inputs. *)

(** The allocated cells are exactly those [is_in_bounds_or_border] accepts;
    [init_map] establishes this and no mutator changes it. *)
Definition wf (st : State) : Prop :=
  forall v, is_in_bounds_or_border st v = true <-> is_Some (cell (grid st) v).

(** [is_wall] as a total test: cells outside the grid are not walls. *)
Definition wallish (g : list (list tile)) (p : Vector) : bool :=
  match cell g p with
  | Some t => wall_like t
  | None => false
  end.

(** The state after one call of [rand()]. *)
Definition tick (st : State) : State :=
  mkState (grid st) (size_x st) (size_y st) (doorways st)
          (rand_src st) (S (rand_calls st)).

(** The value [rand_range] returns in state [st]. *)
Definition draw (Min Max : Z) (st : State) : Z := fst (rand_range Min Max st).

(** Writing tile [t] to a list of cells, first to last. *)
Fixpoint write_all (t : tile) (cells : list Vector) (st : State)
  : result State :=
  match cells with
  | [] => Ok st
  | p :: rest => let! st1 := write_tile st p t in write_all t rest st1
  end.

(** The cells visited by the row and rectangle loops, in order. *)
Fixpoint row_cells (heading : Vector) (n : nat) (pos : Vector) : list Vector :=
  match n with
  | O => []
  | S n' => pos :: row_cells heading n' (pos +v Vector.right heading)
  end.

(** [n] rows of [w] cells, each row one step further along [heading]. *)
Fixpoint rect_cells (heading : Vector) (w : Z) (n : nat) (pos : Vector)
  : list Vector :=
  match n with
  | O => []
  | S n' => row_cells heading (Z.to_nat w) pos ++ rect_cells heading w n' (pos +v heading)
  end.

(** What the check demands of one footprint cell. *)
Definition cell_ok (st : State) (entrance p : Vector) : bool :=
  is_in_bounds_or_border st p
  && (wallish (grid st) p || Vector.eqb p entrance).

(** The footprint cell in column [i] (along [right heading]) and row [j]
    (along [heading]) counted from the corner. *)
Definition room_at (corner h : Vector) (i j : Z) : Vector :=
  corner +v Vector.right h *v i +v h *v j.

(** The tile a committed room leaves in footprint cell [(i, j)]. *)
Definition room_tile (sx sy eo i j : Z) : tile :=
  if (i =? eo) && (j =? 0) then TILE_DOOR
  else if (1 <=? i) && (i <=? sx) && (1 <=? j) && (j <=? sy) then TILE_FLOOR
  else if ((i =? 0) || (i =? sx + 1)) && ((j =? 0) || (j =? sy + 1))
       then TILE_PERMAWALL
  else TILE_WALL.

(** The outer rectangle of a room: interior plus its ring of wall. *)
Definition footprint (h : Vector) (sx sy : Z) (corner : Vector) : list Vector :=
  rect_cells h (sx + 2) (Z.to_nat (sy + 2)) corner.

(** One step of the walk was accepted: the centre cell is inside, wall-like
    and not a permawall, and both flank cells are wall-like. *)
Definition step_passed (st : State) (c l r : Vector) : Prop :=
  is_in_bounds st c = true /\ is_wall st c = Ok true /\
  is_wall st l = Ok true /\ is_wall st r = Ok true /\
  is_permawall st c = Ok false.

(** Every cell of the grid, row by row. *)
Definition all_cells (st : State) : list Vector :=
  flat_map
    (fun y => map (fun x => Vector.mk (Z.of_nat x) (Z.of_nat y))
                  (seq 0 (Z.to_nat (size_x st))))
    (seq 0 (Z.to_nat (size_y st))).

(** The number of cells still diggable. *)
Definition walls (st : State) : nat :=
  length (List.filter (wallish (grid st)) (all_cells st)).

(** The termination measure of the worklist loop. *)
Definition measure (st : State) : nat :=
  (3 * walls st + length (doorways st))%nat.

(** A doorway on the worklist: a cardinal heading, a cell of the grid, and
    the cell behind it strictly inside (it was dug as room interior), or
    the doorway is the map entrance. *)
Definition door_ok (st : State) (d : Doorway) : Prop :=
  Vector.cardinal (heading d) /\
  is_in_bounds_or_border st (location d) = true /\
  (is_in_bounds st (location d -v heading d) = true \/
   location d = map_entrance st).

(** The four orthogonal neighbours of a cell. *)
Definition orth (q p : Vector) : Prop :=
  q = p +v Vector.mk 1 0 \/ q = p -v Vector.mk 1 0 \/
  q = p +v Vector.mk 0 1 \/ q = p -v Vector.mk 0 1.

(** The mark a room leaves at its corner [p]: diagonally behind the
    corner lies floor (the room's interior), and the two cells between
    them (the room's walls next to the corner) are not floor. *)
Definition diag_floor (g : list (list tile)) (p : Vector) : Prop :=
  exists dx dy, (dx = 1 \/ dx = -1) /\ (dy = 1 \/ dy = -1) /\
    cell g (p +v Vector.mk dx dy) = Some TILE_FLOOR /\
    cell g (p +v Vector.mk dx 0) <> Some TILE_FLOOR /\
    cell g (p +v Vector.mk 0 dy) <> Some TILE_FLOOR.

(** Every permawall is the corner of a room. *)
Definition corners_ok (g : list (list tile)) : Prop :=
  forall p, cell g p = Some TILE_PERMAWALL -> diag_floor g p.

(** A doorway cell is not floor, and the cell behind it is floor (the
    interior of the room it leads out of), unless it is a door already. *)
Definition entry_ok (g : list (list tile)) (e h : Vector) : Prop :=
  cell g e <> Some TILE_FLOOR /\
  (cell g (e -v h) = Some TILE_FLOOR \/ cell g e = Some TILE_DOOR).

(** What a placement at [e] preserves of floors and permawalls, from grid
    [g] to grid [g'], with the doorways [new] it appended. *)
Definition kept (e : Vector) (g g' : list (list tile)) (new : list Doorway)
  : Prop :=
  (forall p, cell g p = Some TILE_FLOOR -> cell g' p = Some TILE_FLOOR) /\
  (forall p, cell g' p = Some TILE_FLOOR ->
     cell g p = Some TILE_FLOOR \/
     forall q, orth q p -> wallish g q = true \/ q = e) /\
  (forall p, cell g' p = Some TILE_PERMAWALL ->
     cell g p = Some TILE_PERMAWALL \/ diag_floor g' p) /\
  Forall (fun d => has_door d = true /\
                   cell g' (location d) <> Some TILE_FLOOR /\
                   cell g' (location d -v heading d) = Some TILE_FLOOR) new /\
  (cell g' e = Some TILE_DOOR \/ cell g' e = cell g e) /\
  (forall p, cell g p = Some TILE_PERMAWALL ->
     cell g' p = Some TILE_PERMAWALL \/ cell g' p = Some TILE_WALL) /\
  cell g e <> Some TILE_PERMAWALL.

(** Nothing but the random source moved: a failed attempt. *)
Definition idle (st st' : State) : Prop :=
  grid st' = grid st /\ size_x st' = size_x st /\ size_y st' = size_y st /\
  doorways st' = doorways st /\ rand_src st' = rand_src st.

(** A committed room or corridor at [entrance], heading [h]. *)
Definition placed (entrance h : Vector) (st st' : State) : Prop :=
  size_x st' = size_x st /\ size_y st' = size_y st /\
  rand_src st' = rand_src st /\
  wf st' /\
  (forall p, cell (grid st) p = Some TILE_DOOR ->
             cell (grid st') p = Some TILE_DOOR) /\
  (forall p, wallish (grid st') p = true -> wallish (grid st) p = true) /\
  (forall p, wallish (grid st) p = true -> wallish (grid st') p = false ->
             is_in_bounds st p = true \/ p = entrance) /\
  is_in_bounds st (entrance +v h) = true /\
  exists new,
    doorways st' = doorways st ++ new /\
    Forall (door_ok st) new /\
    (3 * walls st' + length new <= 3 * walls st)%nat /\
    (entry_ok (grid st) entrance h -> corners_ok (grid st) ->
     kept entrance (grid st) (grid st') new).

(** Every cell of the outer ring other than the map entrance is still
    wall-like (unknown, wall or permawall). *)
Definition border_ok (st : State) : Prop :=
  forall p,
    is_in_bounds_or_border st p = true -> is_in_bounds st p = false ->
    p <> map_entrance st -> wallish (grid st) p = true.

(** The invariant: the grid has its shape, the worklist holds proper
    doorways, the border is intact and the map entrance is a door. *)
Definition Inv (st : State) : Prop :=
  wf st /\ Forall (door_ok st) (doorways st) /\ border_ok st /\
  cell (grid st) (map_entrance st) = Some TILE_DOOR.

(** The failure condition of the footprint scan in the words of the
    specification: some cell of the outer rectangle lies outside
    [is_in_bounds_or_border], or is not wall-like and is not the entrance. *)
Definition footprint_infeasible (st : State) (entrance h : Vector)
    (sx sy : Z) (corner : Vector) : Prop :=
  exists i j, 0 <= i < sx + 2 /\ 0 <= j < sy + 2 /\
    let p := room_at corner h i j in
    is_in_bounds_or_border st p = false \/
    (wallish (grid st) p = false /\ p <> entrance).

(** A corridor towards an open cell, past a permawall on its left flank. *)
Definition corridor_demo : State :=
  let st := init_map 5 8 (fun _ => 1%nat) in
  with_grid st
    (store (store (grid st) (Vector.mk 2 2) TILE_FLOOR)
           (Vector.mk 1 4) TILE_PERMAWALL).

(** A sample random source. *)
Definition demo_tape (i : nat) : nat := ((i * 17 + 3) mod 1009)%nat.

(** The state of the 20 x 20 run on [demo_tape] after [k] iterations. *)
Definition demo_after (k : nat) : State :=
  match generate k 20 20 demo_tape with
  | Done st | Running st => st
  | Crashed => init_map 20 20 demo_tape
  end.

(** Another random source. *)
Definition corner_tape (i : nat) : nat :=
  Z.to_nat (((Z.of_nat i * 45 + 4368) * (Z.of_nat i + 7)) mod 997).

(** A cell of the outer ring, in the words of the specification. *)
Definition on_border (st : State) (p : Vector) : Prop :=
  0 <= Vector.x p < size_x st /\ 0 <= Vector.y p < size_y st /\
  (Vector.x p = 0 \/ Vector.x p = size_x st - 1 \/
   Vector.y p = 0 \/ Vector.y p = size_y st - 1).

(** The second part of the loop invariant: every doorway on the worklist
    is a proper entry with a door, and every permawall is a room corner. *)
Definition Inv2 (st : State) : Prop :=
  Forall (fun d => has_door d = true /\
                   entry_ok (grid st) (location d) (heading d)) (doorways st) /\
  corners_ok (grid st).

(** ** Definitions for the further properties *)

(** [pos += d], [n] times over, as the scanning loops do. *)
Fixpoint steps (n : nat) (pos d : Vector) : Vector :=
  match n with
  | O => pos
  | S n' => steps n' (pos +v d) d
  end.

(** What a committed room has done to the grid, from [g] to [g'], and
    the doorways [new] it has appended. *)
Definition room_stamped (e h : Vector) (g g' : list (list tile))
    (new : list Doorway) : Prop :=
  exists sx sy eo r1 r2 r3,
    3 <= sx <= 6 /\ 3 <= sy <= 6 /\ 1 <= eo <= sx /\
    1 <= r1 <= sy /\ 1 <= r2 <= sx /\ 1 <= r3 <= sy /\
    (forall i j, 0 <= i < sx + 2 -> 0 <= j < sy + 2 ->
       cell g' (room_at (e +v Vector.left h *v eo) h i j)
       = Some (room_tile sx sy eo i j)) /\
    (forall p, ~ In p (footprint h sx sy (e +v Vector.left h *v eo)) ->
       cell g' p = cell g p) /\
    (forall i j, 0 <= i < sx + 2 -> 0 <= j < sy + 2 -> ~ (i = eo /\ j = 0) ->
       wallish g (room_at (e +v Vector.left h *v eo) h i j) = true) /\
    new =
    [mkDoorway (e +v Vector.left h *v eo +v h *v r1) (Vector.left h) true;
     mkDoorway (e +v Vector.left h *v eo +v h *v (sy + 1) +v Vector.right h *v r2)
               h true;
     mkDoorway (e +v Vector.left h *v eo +v Vector.right h *v (sx + 1) +v h *v r3)
               (Vector.right h) true].

(** What a committed corridor of [l] cells has done to the grid. *)
Definition corridor_cells (e h : Vector) (g g' : list (list tile)) (l : Z)
  : Prop :=
  (forall k, 1 <= k <= l ->
     wallish g (e +v h *v k) = true /\
     cell g (e +v h *v k) <> Some TILE_PERMAWALL /\
     wallish g (e +v Vector.left h +v h *v k) = true /\
     wallish g (e +v Vector.right h +v h *v k) = true) /\
  (cell g (e +v h *v (l + 1)) = Some TILE_FLOOR \/
   cell g (e +v h *v (l + 1)) = Some TILE_DOOR) /\
  (forall k, 1 <= k < l -> cell g' (e +v h *v k) = Some TILE_FLOOR) /\
  cell g' (e +v h *v l) = Some TILE_DOOR /\
  (forall k, 1 <= k <= l ->
     cell g' (e +v Vector.left h +v h *v k) = Some TILE_WALL /\
     cell g' (e +v Vector.right h +v h *v k) = Some TILE_WALL) /\
  (forall p,
     cell g' p = cell g p \/
     exists k, 1 <= k <= l /\
       (p = e +v h *v k \/ p = e +v Vector.left h +v h *v k \/
        p = e +v Vector.right h +v h *v k)).

Definition corridor_stamped (e h : Vector) (g g' : list (list tile)) : Prop :=
  exists l, 2 <= l <= 5 /\ corridor_cells e h g g' l.

(** One committed feature: a room or a corridor. *)
Definition stamped (e h : Vector) (g g' : list (list tile))
    (new : list Doorway) : Prop :=
  room_stamped e h g g' new \/ (corridor_stamped e h g g' /\ new = []).

(** A cell of the grid that holds anything but [TILE_UNKNOWN]. *)
Definition known (g : list (list tile)) (p : Vector) : Prop :=
  exists t, cell g p = Some t /\ t <> TILE_UNKNOWN.

(** [q] is [p] or one of its eight neighbours. *)
Definition around (q p : Vector) : Prop :=
  exists dx dy, -1 <= dx <= 1 /\ -1 <= dy <= 1 /\ q = p +v Vector.mk dx dy.

(** No floor next to an unknown cell, diagonals included. *)
Definition sealed (g : list (list tile)) : Prop :=
  forall p q, cell g p = Some TILE_FLOOR -> around q p -> known g q.

(** A door between two open cells: floor on one side and floor or a
    door on the opposite side. *)
Definition door_connects (g : list (list tile)) (p : Vector) : Prop :=
  exists h, Vector.cardinal h /\
    cell g (p -v h) = Some TILE_FLOOR /\
    (cell g (p +v h) = Some TILE_FLOOR \/ cell g (p +v h) = Some TILE_DOOR).

(** From grid [g] to a later grid [g']: what was dug stays dug. *)
Definition later (g g' : list (list tile)) : Prop :=
  (forall p, cell g p = Some TILE_FLOOR -> cell g' p = Some TILE_FLOOR) /\
  (forall p, cell g p = Some TILE_DOOR -> cell g' p = Some TILE_DOOR) /\
  (forall p, known g p -> known g' p).

(** The third part of the loop invariant. *)
Definition Inv3 (st : State) : Prop :=
  Forall (fun d => known (grid st) (location d) /\
                   known (grid st) (location d +v Vector.left (heading d)) /\
                   known (grid st) (location d +v Vector.right (heading d)) /\
                   (cell (grid st) (location d -v heading d) = Some TILE_FLOOR \/
                    location d = map_entrance st))
         (doorways st) /\
  sealed (grid st) /\
  (forall p, cell (grid st) p = Some TILE_DOOR ->
     p = map_entrance st \/ door_connects (grid st) p).

(** The grid has [size_y] rows of [size_x] cells. *)
Definition shaped (st : State) : Prop :=
  length (grid st) = Z.to_nat (size_y st) /\
  Forall (fun row => length row = Z.to_nat (size_x st)) (grid st).

(** Same sizes, and rows of the same lengths. *)
Definition same_shape (st st' : State) : Prop :=
  size_x st' = size_x st /\ size_y st' = size_y st /\
  map length (grid st') = map length (grid st).

(** An open cell: floor or door. *)
Definition open_cell (g : list (list tile)) (p : Vector) : Prop :=
  cell g p = Some TILE_FLOOR \/ cell g p = Some TILE_DOOR.

(** [reach g a p]: a path of open cells leads from [a] to [p], each
    step to one of the four orthogonal neighbours. *)
Inductive reach (g : list (list tile)) (a : Vector) : Vector -> Prop :=
  | reach_here : open_cell g a -> reach g a a
  | reach_step p q :
      reach g a p -> orth q p -> open_cell g q -> reach g a q.

(** The fourth part of the loop invariant: every open cell can be
    reached from the map entrance. *)
Definition Inv4 (st : State) : Prop :=
  forall p, open_cell (grid st) p -> reach (grid st) (map_entrance st) p.

(** A sequence of mutator calls, first to last. *)
Fixpoint write_seq (ws : list (Vector * tile)) (st : State) : result State :=
  match ws with
  | [] => Ok st
  | (p, t) :: rest => let! st1 := write_tile st p t in write_seq rest st1
  end.

(** The mutator calls of [m] iterations of the digging loop of
    [dig_corridor], in order: [dig_tile(pos)], [fill_tile(left_pos)],
    [fill_tile(right_pos)], after the three positions moved one step. *)
Fixpoint dig_writes (h : Vector) (m : nat) (pos lp rp : Vector)
  : list (Vector * tile) :=
  match m with
  | O => []
  | S m' =>
      (pos +v h, TILE_FLOOR) :: (lp +v h, TILE_WALL) :: (rp +v h, TILE_WALL)
      :: dig_writes h m' (pos +v h) (lp +v h) (rp +v h)
  end.

(** All mutator calls of a committed corridor of [m] cells: the digging
    loop, then [door_tile] on the last cell. *)
Definition corridor_writes (e h : Vector) (m : nat) : list (Vector * tile) :=
  dig_writes h m e (e +v Vector.left h) (e +v Vector.right h)
  ++ [(e +v h *v Z.of_nat m, TILE_DOOR)].

(** [p] is a centre or flank cell at least one step ahead of [e] along
    [h]. *)
Definition ahead (e h p : Vector) : Prop :=
  exists k, 1 <= k /\
    (p = e +v h *v k \/ p = e +v Vector.left h +v h *v k \/
     p = e +v Vector.right h +v h *v k).

(** * Basic facts *)

(** ** Vectors *)

Lemma vec_eq (a b : Vector) :
  a = b <-> Vector.x a = Vector.x b /\ Vector.y a = Vector.y b.
Proof.
  destruct a, b; cbn. split.
  - intros [= -> ->]. auto.
  - intros [-> ->]. reflexivity.
Qed.

Lemma vec_eqb_spec (a b : Vector) : Vector.eqb a b = true <-> a = b.
Proof. rewrite vec_eq. unfold Vector.eqb. lia. Qed.

Lemma vec_neqb_eqb (a b : Vector) : Vector.neqb a b = negb (Vector.eqb a b).
Proof. unfold Vector.neqb, Vector.eqb. destruct (_ =? _), (_ =? _); reflexivity. Qed.

Lemma vec_eq_dec (a b : Vector) : {a = b} + {a <> b}.
Proof. decide equality; apply Z.eq_dec. Defined.

Ltac vec :=
  repeat match goal with
  | v : Vector |- _ => destruct v
  end;
  unfold Vector.add, Vector.sub, Vector.scale, Vector.left, Vector.right in *;
  cbn [Vector.x Vector.y] in *;
  repeat match goal with
  | H : Vector.mk _ _ = Vector.mk _ _ |- _ => injection H as ? ?
  | |- Vector.mk _ _ = Vector.mk _ _ => f_equal
  | |- Vector.mk _ _ <> Vector.mk _ _ => intros [= ? ?]
  end;
  try lia.

Lemma cell_Some_nonneg g v t :
  cell g v = Some t -> 0 <= Vector.x v /\ 0 <= Vector.y v.
Proof. unfold cell. destruct (_ && _) eqn:E; [lia | discriminate]. Qed.

Lemma cell_store g v t p :
  is_Some (cell g v) ->
  cell (store g v t) p = if Vector.eqb v p then Some t else cell g p.
Proof.
  intros [t0 Hv]. pose proof (cell_Some_nonneg _ _ _ Hv) as [Hx Hy].
  unfold cell in Hv. unfold cell, store.
  replace ((0 <=? Vector.x v) && (0 <=? Vector.y v)) with true in Hv by lia.
  destruct (g !! Z.to_nat (Vector.y v)) as [row|] eqn:Hrow; [|discriminate].
  destruct (Vector.eqb v p) eqn:E.
  - apply vec_eqb_spec in E. subst p.
    replace ((0 <=? Vector.x v) && (0 <=? Vector.y v)) with true by lia.
    rewrite list_lookup_insert_eq by (eapply lookup_lt_Some; eauto).
    rewrite list_lookup_insert_eq by (eapply lookup_lt_Some; eauto).
    reflexivity.
  - destruct ((0 <=? Vector.x p) && (0 <=? Vector.y p)) eqn:Hp; [|reflexivity].
    destruct (decide (Z.to_nat (Vector.y v) = Z.to_nat (Vector.y p))) as [Ey|Ey].
    + rewrite <- Ey, Hrow.
      rewrite list_lookup_insert_eq by (eapply lookup_lt_Some; eauto).
      apply list_lookup_insert_ne. intros Ex.
      assert (v = p) as Hvp by (apply vec_eq; lia).
      apply vec_eqb_spec in Hvp. congruence.
    + rewrite list_lookup_insert_ne by assumption. reflexivity.
Qed.

(** ** Grid shape *)

Lemma in_bounds_border st v :
  is_in_bounds st v = true -> is_in_bounds_or_border st v = true.
Proof. unfold is_in_bounds, is_in_bounds_or_border. lia. Qed.

Lemma wf_init_map sx sy src : wf (init_map sx sy src).
Proof.
  intros v. unfold is_in_bounds_or_border, cell, init_map. cbn.
  destruct ((0 <=? Vector.x v) && (0 <=? Vector.y v)) eqn:E;
    [|split; [lia | intros [? [=]]]].
  destruct (replicate (Z.to_nat sy) _ !! _) as [row|] eqn:Hrow.
  - apply lookup_replicate in Hrow as [-> Hy].
    destruct (replicate (Z.to_nat sx) _ !! _) as [t|] eqn:Hx.
    + apply lookup_replicate in Hx as [_ Hx]. split; [eauto | lia].
    + apply lookup_replicate_None in Hx. split; [lia | intros [? [=]]].
  - apply lookup_replicate_None in Hrow. split; [lia | intros [? [=]]].
Qed.

Lemma wf_store st v t :
  wf st -> is_Some (cell (grid st) v) ->
  wf (with_grid st (store (grid st) v t)).
Proof.
  intros Hwf Hv p. cbn. rewrite cell_store by assumption.
  change (is_in_bounds_or_border (with_grid st (store (grid st) v t)) p)
    with (is_in_bounds_or_border st p).
  destruct (Vector.eqb v p) eqn:E.
  - apply vec_eqb_spec in E. subst p. split; [eauto|]. intros _. apply Hwf, Hv.
  - apply Hwf.
Qed.

Lemma write_tile_inv st v t st' :
  write_tile st v t = Ok st' ->
  is_Some (cell (grid st) v) /\ st' = with_grid st (store (grid st) v t).
Proof.
  unfold write_tile. destruct (cell (grid st) v) eqn:E; [|discriminate].
  intros [= <-]. eauto.
Qed.

Lemma write_tile_ok st v t :
  is_Some (cell (grid st) v) ->
  write_tile st v t = Ok (with_grid st (store (grid st) v t)).
Proof. intros [t0 H]. unfold write_tile. rewrite H. reflexivity. Qed.

Lemma is_wall_wallish st v :
  is_Some (cell (grid st) v) -> is_wall st v = Ok (wallish (grid st) v).
Proof.
  intros [t H]. unfold is_wall, read_tile, wallish. rewrite H. reflexivity.
Qed.

(** ** Random draws *)

Lemma rand_range_eq Min Max st :
  rand_range Min Max st = (draw Min Max st, tick st).
Proof. reflexivity. Qed.

Lemma draw_bounds Min Max st :
  Min <= Max -> Min <= draw Min Max st <= Max.
Proof.
  intros H. unfold draw, rand_range, rand. cbn.
  pose proof (Z.rem_bound_pos (Z.of_nat (rand_src st (rand_calls st)))
                (Max - Min + 1)). lia.
Qed.

Lemma wf_tick st : wf st -> wf (tick st).
Proof. intros H v. apply (H v). Qed.

Lemma wf_with_doorways st ds : wf st -> wf (with_doorways st ds).
Proof. intros H v. apply (H v). Qed.

(** ** Writing a list of cells *)

Lemma write_all_app t a b st :
  write_all t (a ++ b) st = let! st1 := write_all t a st in write_all t b st1.
Proof.
  revert st. induction a as [|p a IH]; intros st; cbn; [reflexivity|].
  destruct (write_tile st p t); cbn; [apply IH | reflexivity].
Qed.

Lemma write_all_spec t cells : forall st,
  wf st ->
  (forall p, In p cells -> is_in_bounds_or_border st p = true) ->
  exists g',
    write_all t cells st = Ok (with_grid st g') /\
    wf (with_grid st g') /\
    (forall p, In p cells -> cell g' p = Some t) /\
    (forall p, ~ In p cells -> cell g' p = cell (grid st) p).
Proof.
  induction cells as [|v cells IH]; intros st Hwf Hin.
  - exists (grid st). split; [destruct st; reflexivity|].
    split; [exact Hwf|]. split; [intros p [] | reflexivity].
  - assert (is_Some (cell (grid st) v)) as Hv by (apply Hwf, Hin; left; reflexivity).
    destruct (IH (with_grid st (store (grid st) v t))) as (g' & Hrun & Hwf' & Hset & Hframe).
    { apply wf_store; assumption. }
    { intros p Hp. apply (Hin p). right. assumption. }
    exists g'. cbn [write_all]. rewrite write_tile_ok by assumption. cbn [bind].
    split; [exact Hrun|]. split; [exact Hwf'|]. split.
    + intros p Hp. destruct (in_dec vec_eq_dec p cells) as [Hr|Hr]; [auto|].
      destruct Hp as [->|Hp]; [|contradiction].
      rewrite (Hframe _ Hr). cbn. rewrite cell_store by assumption.
      replace (Vector.eqb p p) with true; [reflexivity|].
      symmetry. apply vec_eqb_spec. reflexivity.
    + intros p Hp. rewrite Hframe by (intros ?; apply Hp; right; assumption).
      cbn. rewrite cell_store by assumption.
      destruct (Vector.eqb v p) eqn:E; [|reflexivity].
      apply vec_eqb_spec in E. exfalso. apply Hp. left. assumption.
Qed.

Lemma in_row_cells h n : forall pos p,
  In p (row_cells h n pos) <->
  exists i, 0 <= i < Z.of_nat n /\ p = pos +v Vector.right h *v i.
Proof.
  induction n as [|n IH]; intros pos p; cbn [row_cells In].
  - split; [intros [] | intros (i & ? & _); lia].
  - rewrite IH. split.
    + intros [<-|(i & Hi & ->)].
      * exists 0. split; [lia | vec].
      * exists (i + 1). split; [lia | vec].
    + intros (i & Hi & ->). destruct (decide (i = 0)) as [->|Hne].
      * left. vec.
      * right. exists (i - 1). split; [lia | vec].
Qed.

Lemma in_rect_cells h w n : forall pos p,
  In p (rect_cells h w n pos) <->
  exists i j, 0 <= i < w /\ 0 <= j < Z.of_nat n /\
              p = pos +v Vector.right h *v i +v h *v j.
Proof.
  induction n as [|n IH]; intros pos p; cbn [rect_cells].
  - split; [intros [] | intros (i & j & ? & ? & _); lia].
  - rewrite in_app_iff, in_row_cells, IH. split.
    + intros [(i & Hi & ->)|(i & j & Hi & Hj & ->)].
      * exists i, 0. split; [lia|]. split; [lia | vec].
      * exists i, (j + 1). split; [lia|]. split; [lia | vec].
    + intros (i & j & Hi & Hj & ->). destruct (decide (j = 0)) as [->|Hne].
      * left. exists i. split; [lia | vec].
      * right. exists i, (j - 1). split; [lia|]. split; [lia | vec].
Qed.

Lemma paint_row_eq t h n : forall pos st,
  paint_row (fun st v => write_tile st v t) h n pos st =
  let! st' := write_all t (row_cells h n pos) st in
  Ok (pos +v Vector.right h *v Z.of_nat n, st').
Proof.
  induction n as [|n IH]; intros pos st.
  - cbn. do 2 f_equal. vec.
  - cbn [paint_row row_cells write_all].
    destruct (write_tile st pos t) as [st1|]; cbn [bind]; [|reflexivity].
    rewrite IH. destruct (write_all _ _ _); cbn [bind]; [|reflexivity].
    do 2 f_equal. rewrite Nat2Z.inj_succ. vec.
Qed.

Lemma paint_rect_eq t h w n : forall pos st,
  0 <= w ->
  paint_rect (fun st v => write_tile st v t) h w n pos st =
  write_all t (rect_cells h w n pos) st.
Proof.
  induction n as [|n IH]; intros pos st Hw; [reflexivity|].
  cbn [paint_rect rect_cells]. rewrite write_all_app, paint_row_eq.
  destruct (write_all t (row_cells h (Z.to_nat w) pos) st) as [st1|];
    cbn [bind]; [|reflexivity].
  rewrite IH by assumption. rewrite Z2Nat.id by assumption.
  replace (pos +v Vector.right h *v w -v Vector.right h *v w +v h)
    with (pos +v h) by vec.
  reflexivity.
Qed.

Lemma write_tile_spec st v t :
  wf st -> is_in_bounds_or_border st v = true ->
  exists g',
    write_tile st v t = Ok (with_grid st g') /\
    wf (with_grid st g') /\
    (forall p, cell g' p = if Vector.eqb v p then Some t else cell (grid st) p).
Proof.
  intros Hwf Hv. apply Hwf in Hv. exists (store (grid st) v t).
  split; [apply write_tile_ok; assumption|].
  split; [apply wf_store; assumption|].
  intros p. apply cell_store. assumption.
Qed.

(** Mutators touch nothing but the grid. *)
Lemma write_all_inv t cells : forall st st',
  write_all t cells st = Ok st' -> exists g', st' = with_grid st g'.
Proof.
  induction cells as [|v cells IH]; intros st st' H; cbn in H.
  - injection H as <-. exists (grid st). destruct st; reflexivity.
  - destruct (write_tile st v t) as [st1|] eqn:E; [|discriminate]. cbn in H.
    apply write_tile_inv in E as [_ ->]. apply IH in H as [g' ->].
    exists g'. reflexivity.
Qed.

(** ** The footprint check of [dig_room] *)

Lemma room_check_row_spec st e h n : forall pos,
  wf st ->
  room_check_row st e h n pos =
  Ok (if forallb (cell_ok st e) (row_cells h n pos)
      then Some (pos +v Vector.right h *v Z.of_nat n) else None).
Proof.
  induction n as [|n IH]; intros pos Hwf.
  - cbn. do 2 f_equal. vec.
  - cbn [room_check_row row_cells forallb]. unfold cell_ok at 1.
    destruct (is_in_bounds_or_border st pos) eqn:Hb; cbn [negb andb]; [|reflexivity].
    rewrite is_wall_wallish by (apply Hwf; assumption). cbn [bind].
    rewrite vec_neqb_eqb.
    destruct (wallish (grid st) pos), (Vector.eqb pos e); cbn [negb andb orb];
      try reflexivity;
      (rewrite IH by assumption; destruct (forallb _ _); [|reflexivity];
       do 2 f_equal; rewrite Nat2Z.inj_succ; vec).
Qed.

Lemma room_check_spec st e h w n : forall pos,
  wf st -> 0 <= w ->
  room_check st e h w n pos = Ok (forallb (cell_ok st e) (rect_cells h w n pos)).
Proof.
  induction n as [|n IH]; intros pos Hwf Hw; [reflexivity|].
  cbn [room_check rect_cells]. rewrite room_check_row_spec by assumption.
  rewrite forallb_app. cbn [bind].
  destruct (forallb (cell_ok st e) (row_cells h (Z.to_nat w) pos)); [|reflexivity].
  rewrite Z2Nat.id by assumption.
  replace (pos +v Vector.right h *v w -v Vector.right h *v w +v h)
    with (pos +v h) by vec.
  cbn [andb]. apply IH; assumption.
Qed.

(** ** Geometry of a cardinal heading *)

Lemma cardinal_left h : Vector.cardinal h -> Vector.cardinal (Vector.left h).
Proof. unfold Vector.cardinal. intros [-> | [-> | [-> | ->]]]; cbn; auto. Qed.

Lemma cardinal_right h : Vector.cardinal h -> Vector.cardinal (Vector.right h).
Proof. unfold Vector.cardinal. intros [-> | [-> | [-> | ->]]]; cbn; auto. Qed.

Ltac cardinal_cases H :=
  destruct H as [-> | [-> | [-> | ->]]].

(** Coordinates along [right h] and [h] determine the cell. *)
Lemma cardinal_coords_inj h i j i' j' :
  Vector.cardinal h ->
  Vector.right h *v i +v h *v j = Vector.right h *v i' +v h *v j' ->
  i = i' /\ j = j'.
Proof. intros Hc H. cardinal_cases Hc; vec. Qed.

(** A cell whose four neighbours are allocated lies strictly inside. *)
Lemma inner_of_neighbours st h p :
  Vector.cardinal h ->
  is_in_bounds_or_border st (p +v h) = true ->
  is_in_bounds_or_border st (p -v h) = true ->
  is_in_bounds_or_border st (p +v Vector.right h) = true ->
  is_in_bounds_or_border st (p -v Vector.right h) = true ->
  is_in_bounds st p = true.
Proof.
  intros Hc. unfold is_in_bounds_or_border, is_in_bounds.
  cardinal_cases Hc; destruct p; cbn; lia.
Qed.

(** Stepping ahead of an inner cell stays on the grid. *)
Lemma border_of_inner st h p :
  Vector.cardinal h ->
  is_in_bounds st p = true ->
  is_in_bounds_or_border st (p +v h) = true.
Proof.
  intros Hc. unfold is_in_bounds_or_border, is_in_bounds.
  cardinal_cases Hc; destruct p; cbn; lia.
Qed.

(** A cell between two inner cells is inner. *)
Lemma inner_between st h p :
  Vector.cardinal h ->
  is_in_bounds st (p +v h) = true ->
  is_in_bounds st (p -v h) = true ->
  is_in_bounds st p = true.
Proof.
  intros Hc. unfold is_in_bounds.
  cardinal_cases Hc; destruct p; cbn; lia.
Qed.

(** ** What a successful [dig_room] writes *)

Lemma in_footprint h sx sy corner p :
  0 <= sy + 2 ->
  In p (footprint h sx sy corner) <->
  exists i j, 0 <= i < sx + 2 /\ 0 <= j < sy + 2 /\ p = room_at corner h i j.
Proof.
  intros H. unfold footprint. rewrite in_rect_cells, Z2Nat.id by assumption.
  reflexivity.
Qed.

Lemma in_interior h sx sy corner p :
  0 <= sy ->
  In p (rect_cells h sx (Z.to_nat sy) (corner +v h +v Vector.right h)) <->
  exists i j, 1 <= i <= sx /\ 1 <= j <= sy /\ p = room_at corner h i j.
Proof.
  intros H. rewrite in_rect_cells, Z2Nat.id by assumption. unfold room_at. split.
  - intros (i & j & Hi & Hj & ->). exists (i + 1), (j + 1).
    split; [lia|]. split; [lia | vec].
  - intros (i & j & Hi & Hj & ->). exists (i - 1), (j - 1).
    split; [lia|]. split; [lia | vec].
Qed.

Lemma room_at_inj corner h i j i' j' :
  Vector.cardinal h ->
  room_at corner h i j = room_at corner h i' j' -> i = i' /\ j = j'.
Proof.
  intros Hc H. apply (cardinal_coords_inj h); [assumption|].
  unfold room_at in H. vec.
Qed.

Lemma room_at_eqb corner h i j i' j' :
  Vector.cardinal h ->
  Vector.eqb (room_at corner h i' j') (room_at corner h i j)
  = (i =? i') && (j =? j').
Proof.
  intros Hc. destruct (Vector.eqb _ _) eqn:E.
  - apply vec_eqb_spec, room_at_inj in E; [lia | assumption].
  - destruct ((i =? i') && (j =? j')) eqn:E'; [|reflexivity].
    assert (i = i' /\ j = j') as [-> ->] by lia.
    assert (Vector.eqb (room_at corner h i' j') (room_at corner h i' j') = true)
      by (apply vec_eqb_spec; reflexivity).
    congruence.
Qed.

Lemma dig_room_sized_commit st e h sx sy eo :
  wf st -> Vector.cardinal h -> 1 <= sx -> 1 <= sy -> 1 <= eo <= sx ->
  let corner := e +v Vector.left h *v eo in
  forallb (cell_ok st e) (footprint h sx sy corner) = true ->
  exists g',
    dig_room_sized e h sx sy corner st
      = Ok (true, room_connections h sx sy corner (with_grid st g')) /\
    wf (with_grid st g') /\
    (forall i j, 0 <= i < sx + 2 -> 0 <= j < sy + 2 ->
       cell g' (room_at corner h i j) = Some (room_tile sx sy eo i j)) /\
    (forall p, ~ In p (footprint h sx sy corner) -> cell g' p = cell (grid st) p).
Proof.
  intros Hwf Hc Hsx Hsy Heo corner Hfeas.
  assert (He : e = room_at corner h eo 0) by (unfold room_at, corner; vec).
  assert (HF : forall i j, 0 <= i < sx + 2 -> 0 <= j < sy + 2 ->
                is_in_bounds_or_border st (room_at corner h i j) = true).
  { intros i j Hi Hj. rewrite forallb_forall in Hfeas.
    specialize (Hfeas (room_at corner h i j)). unfold cell_ok in Hfeas.
    apply andb_true_iff in Hfeas as [H _]; [assumption|].
    apply in_footprint; [lia|]. eauto. }
  assert (HFin : forall p, In p (footprint h sx sy corner) ->
                  is_in_bounds_or_border st p = true).
  { intros p Hp. apply in_footprint in Hp as (i & j & Hi & Hj & ->); [|lia].
    apply HF; assumption. }
  unfold dig_room_sized.
  rewrite room_check_spec by (assumption || lia).
  fold (footprint h sx sy corner). rewrite Hfeas. cbn [bind negb].
  change fill_tile with (fun st v => write_tile st v TILE_WALL).
  rewrite paint_rect_eq by lia. fold (footprint h sx sy corner).
  destruct (write_all_spec TILE_WALL _ st Hwf HFin) as (g1 & -> & Hwf1 & Hs1 & Hf1).
  cbn [bind]. unfold permawall_tile.
  destruct (write_tile_spec (with_grid st g1) corner TILE_PERMAWALL Hwf1)
    as (g2 & -> & Hwf2 & Hg2).
  { replace corner with (room_at corner h 0 0) by (unfold room_at; vec).
    apply (HF 0 0); lia. }
  cbn [bind].
  destruct (write_tile_spec _ (corner +v Vector.right h *v (sx + 1))
              TILE_PERMAWALL Hwf2) as (g3 & -> & Hwf3 & Hg3).
  { replace (corner +v _) with (room_at corner h (sx + 1) 0) by (unfold room_at; vec).
    apply (HF (sx + 1) 0); lia. }
  cbn [bind].
  destruct (write_tile_spec _ (corner +v h *v (sy + 1))
              TILE_PERMAWALL Hwf3) as (g4 & -> & Hwf4 & Hg4).
  { replace (corner +v _) with (room_at corner h 0 (sy + 1)) by (unfold room_at; vec).
    apply (HF 0 (sy + 1)); lia. }
  cbn [bind].
  destruct (write_tile_spec _ (corner +v Vector.right h *v (sx + 1) +v h *v (sy + 1))
              TILE_PERMAWALL Hwf4) as (g5 & -> & Hwf5 & Hg5).
  { apply (HF (sx + 1) (sy + 1)); lia. }
  cbn [bind].
  change dig_tile with (fun st v => write_tile st v TILE_FLOOR).
  rewrite paint_rect_eq by lia.
  destruct (write_all_spec TILE_FLOOR
              (rect_cells h sx (Z.to_nat sy) (corner +v h +v Vector.right h))
              _ Hwf5) as (g6 & -> & Hwf6 & Hs6 & Hf6).
  { intros p Hp. apply in_interior in Hp as (i & j & Hi & Hj & ->); [|lia].
    apply (HF i j); lia. }
  cbn [bind]. unfold door_tile.
  destruct (write_tile_spec _ e TILE_DOOR Hwf6) as (g7 & -> & Hwf7 & Hg7).
  { rewrite He. apply (HF eo 0); lia. }
  cbn [bind]. exists g7. split; [reflexivity|]. split; [exact Hwf7|].
  cbn [grid with_grid] in *. split.
  - intros i j Hi Hj. rewrite Hg7, He, room_at_eqb by assumption.
    unfold room_tile.
    destruct ((i =? eo) && (j =? 0)) eqn:E1; [reflexivity|].
    destruct ((1 <=? i) && (i <=? sx) && (1 <=? j) && (j <=? sy)) eqn:E2.
    { apply Hs6, in_interior; [lia|]. exists i, j.
      split; [lia|]. split; [lia | reflexivity]. }
    rewrite Hf6.
    2:{ intros Hin. apply in_interior in Hin as (i' & j' & Hi' & Hj' & Heq); [|lia].
        apply room_at_inj in Heq as [-> ->]; [lia | assumption]. }
    rewrite Hg5.
    replace (corner +v Vector.right h *v (sx + 1) +v h *v (sy + 1))
      with (room_at corner h (sx + 1) (sy + 1)) by reflexivity.
    rewrite room_at_eqb by assumption.
    rewrite Hg4.
    replace (corner +v h *v (sy + 1))
      with (room_at corner h 0 (sy + 1)) by (unfold room_at; vec).
    rewrite room_at_eqb by assumption.
    rewrite Hg3.
    replace (corner +v Vector.right h *v (sx + 1))
      with (room_at corner h (sx + 1) 0) by (unfold room_at; vec).
    rewrite room_at_eqb by assumption.
    rewrite Hg2.
    replace (Vector.eqb corner (room_at corner h i j))
      with (Vector.eqb (room_at corner h 0 0) (room_at corner h i j))
      by (f_equal; unfold room_at; vec).
    rewrite room_at_eqb by assumption.
    rewrite Hs1 by (apply in_footprint; [lia|]; eauto).
    destruct (i =? sx + 1) eqn:Ei1, (j =? sy + 1) eqn:Ej1,
             (i =? 0) eqn:Ei0, (j =? 0) eqn:Ej0; cbn; try reflexivity; lia.
  - intros p Hp.
    assert (Hne : forall i j, 0 <= i < sx + 2 -> 0 <= j < sy + 2 ->
                    Vector.eqb (room_at corner h i j) p = false).
    { intros i j Hi Hj. destruct (Vector.eqb _ p) eqn:E; [|reflexivity].
      apply vec_eqb_spec in E. exfalso. apply Hp, in_footprint; [lia|]. eauto. }
    rewrite Hg7, He, (Hne eo 0) by lia.
    rewrite Hf6.
    2:{ intros Hin. apply Hp. apply in_interior in Hin as (i & j & Hi & Hj & ->); [|lia].
        apply in_footprint; [lia|]. exists i, j. split; [lia|]. split; [lia|reflexivity]. }
    rewrite Hg5.
    replace (corner +v Vector.right h *v (sx + 1) +v h *v (sy + 1))
      with (room_at corner h (sx + 1) (sy + 1)) by reflexivity.
    rewrite Hne by lia. rewrite Hg4.
    replace (corner +v h *v (sy + 1))
      with (room_at corner h 0 (sy + 1)) by (unfold room_at; vec).
    rewrite Hne by lia. rewrite Hg3.
    replace (corner +v Vector.right h *v (sx + 1))
      with (room_at corner h (sx + 1) 0) by (unfold room_at; vec).
    rewrite Hne by lia. rewrite Hg2.
    replace (Vector.eqb corner p) with (Vector.eqb (room_at corner h 0 0) p)
      by (f_equal; unfold room_at; vec).
    rewrite Hne by lia. apply Hf1. assumption.
Qed.

(** ** The checking loop of [dig_corridor] *)

Lemma corridor_check_inv st h len n : forall ii pos lp rp l f,
  corridor_check st h len n ii pos lp rp = Ok (Some (l, f)) ->
  exists m, 0 <= m <= Z.of_nat n /\
    (forall k, 1 <= k <= m ->
       step_passed st (pos +v h *v k) (lp +v h *v k) (rp +v h *v k)) /\
    ((f = false /\ l = len /\ m = Z.of_nat n) \/
     (f = true /\ l = ii + m /\ m < Z.of_nat n /\
      is_in_bounds st (pos +v h *v (m + 1)) = true /\
      is_wall st (pos +v h *v (m + 1)) = Ok false)).
Proof.
  induction n as [|n IH]; intros ii pos lp rp l f H.
  - cbn in H. injection H as <- <-. exists 0. split; [lia|].
    split; [intros; lia | left; auto].
  - cbn [corridor_check] in H.
    destruct (is_in_bounds st (pos +v h)) eqn:Hb; cbn [negb] in H; [|discriminate].
    destruct (is_wall st (pos +v h)) as [w|] eqn:Hw; cbn [bind] in H; [|discriminate].
    destruct w; cbn [negb] in H.
    + destruct (is_wall st (lp +v h)) as [wl|] eqn:Hl; cbn [bind] in H; [|discriminate].
      destruct wl; cbn [negb] in H; [|discriminate].
      destruct (is_wall st (rp +v h)) as [wr|] eqn:Hr; cbn [bind] in H; [|discriminate].
      destruct wr; cbn [negb bind] in H; [|discriminate].
      destruct (is_permawall st (pos +v h)) as [pw|] eqn:Hp; cbn [bind] in H;
        [|discriminate].
      destruct pw; [discriminate|].
      apply IH in H as (m & Hm & Hsteps & Hend).
      exists (m + 1). split; [lia|]. split.
      * intros k Hk. destruct (decide (k = 1)) as [->|Hne].
        -- replace (pos +v h *v 1) with (pos +v h) by vec.
           replace (lp +v h *v 1) with (lp +v h) by vec.
           replace (rp +v h *v 1) with (rp +v h) by vec.
           repeat split; assumption.
        -- specialize (Hsteps (k - 1) ltac:(lia)).
           replace (pos +v h *v k) with (pos +v h +v h *v (k - 1)) by vec.
           replace (lp +v h *v k) with (lp +v h +v h *v (k - 1)) by vec.
           replace (rp +v h *v k) with (rp +v h +v h *v (k - 1)) by vec.
           exact Hsteps.
      * destruct Hend as [(-> & -> & ->)|(-> & -> & Hlt & Hb' & Hw')].
        -- left. repeat split; lia.
        -- right. split; [reflexivity|]. split; [lia|]. split; [lia|].
           replace (pos +v h *v (m + 1 + 1)) with (pos +v h +v h *v (m + 1)) by vec.
           auto.
    + injection H as <- <-. exists 0. split; [lia|]. split; [intros; lia|].
      right. split; [reflexivity|]. split; [lia|]. split; [lia|].
      replace (pos +v h *v (0 + 1)) with (pos +v h) by vec. auto.
Qed.

(** On a well-shaped grid and a cardinal heading the check never reads
    outside the grid. *)
Lemma corridor_check_total st h len n : forall ii pos,
  wf st -> Vector.cardinal h ->
  exists r,
    corridor_check st h len n ii pos
      (pos +v Vector.left h) (pos +v Vector.right h) = Ok r.
Proof.
  induction n as [|n IH]; intros ii pos Hwf Hc; [cbn; eauto|].
  cbn [corridor_check].
  destruct (is_in_bounds st (pos +v h)) eqn:Hb; cbn [negb]; [|eauto].
  rewrite is_wall_wallish by (apply Hwf, in_bounds_border; assumption).
  cbn [bind]. destruct (wallish _ (pos +v h)); cbn [negb]; [|eauto].
  assert (Hl : is_Some (cell (grid st) (pos +v Vector.left h +v h))).
  { apply Hwf. replace (pos +v Vector.left h +v h)
      with (pos +v h +v Vector.left h) by vec.
    apply border_of_inner; [apply cardinal_left|]; assumption. }
  assert (Hr : is_Some (cell (grid st) (pos +v Vector.right h +v h))).
  { apply Hwf. replace (pos +v Vector.right h +v h)
      with (pos +v h +v Vector.right h) by vec.
    apply border_of_inner; [apply cardinal_right|]; assumption. }
  rewrite (is_wall_wallish _ _ Hl). cbn [bind].
  assert (Hp : exists b, is_permawall st (pos +v h) = Ok b).
  { unfold is_permawall, read_tile.
    destruct (cell (grid st) (pos +v h)) eqn:E; cbn; [eauto|].
    apply in_bounds_border, Hwf in Hb. destruct Hb. congruence. }
  destruct Hp as [pw Hp].
  destruct (wallish _ (pos +v Vector.left h +v h)); cbn [negb bind].
  - rewrite (is_wall_wallish _ _ Hr). cbn [bind].
    destruct (wallish _ (pos +v Vector.right h +v h)); cbn [negb bind].
    + rewrite Hp. cbn [bind]. destruct pw; [eauto|].
      replace (pos +v Vector.left h +v h) with (pos +v h +v Vector.left h) by vec.
      replace (pos +v Vector.right h +v h) with (pos +v h +v Vector.right h) by vec.
      apply IH; assumption.
    + eauto.
  - eauto.
Qed.

(** ** The digging loop of [dig_corridor] *)

(** Every cell the loop changes is a centre cell, now floor, or a flank
    cell, now wall; the position it stops at is one of the centre cells. *)
Lemma corridor_dig_effect h n : forall pos lp rp st pos' st',
  corridor_dig h n pos lp rp st = Ok (pos', st') ->
  exists g', st' = with_grid st g' /\
    (exists m, 0 <= m <= Z.of_nat n /\ (0 < Z.of_nat n -> 1 <= m) /\
               pos' = pos +v h *v m) /\
    forall p,
      cell g' p = cell (grid st) p \/
      (cell g' p = Some TILE_FLOOR /\
       exists k, 1 <= k <= Z.of_nat n /\ p = pos +v h *v k) \/
      (cell g' p = Some TILE_WALL /\
       exists k, 1 <= k <= Z.of_nat n /\ (p = lp +v h *v k \/ p = rp +v h *v k)).
Proof.
  induction n as [|n IH]; intros pos lp rp st pos' st' H.
  - cbn in H. injection H as <- <-. exists (grid st).
    split; [destruct st; reflexivity|]. split; [|auto].
    exists 0. split; [lia|]. split; [lia | vec].
  - cbn [corridor_dig] in H. unfold dig_tile, fill_tile in H.
    destruct (write_tile st (pos +v h) TILE_FLOOR) as [st1|] eqn:E1;
      cbn [bind] in H; [|discriminate].
    apply write_tile_inv in E1 as [S1 ->].
    destruct (write_tile _ (lp +v h) TILE_WALL) as [st2|] eqn:E2;
      cbn [bind] in H; [|discriminate].
    apply write_tile_inv in E2 as [S2 ->].
    destruct (write_tile _ (rp +v h) TILE_WALL) as [st3|] eqn:E3;
      cbn [bind] in H; [|discriminate].
    apply write_tile_inv in E3 as [S3 ->].
    cbn [grid with_grid] in *.
    set (g3 := store (store (store (grid st) (pos +v h) TILE_FLOOR)
                        (lp +v h) TILE_WALL) (rp +v h) TILE_WALL) in *.
    assert (Hg3 : forall p,
      cell g3 p = cell (grid st) p \/
      (cell g3 p = Some TILE_FLOOR /\ p = pos +v h *v 1) \/
      (cell g3 p = Some TILE_WALL /\ (p = lp +v h *v 1 \/ p = rp +v h *v 1))).
    { intros p. unfold g3. rewrite !cell_store by assumption.
      destruct (Vector.eqb (rp +v h) p) eqn:Er.
      { apply vec_eqb_spec in Er. right. right. split; [reflexivity|]. right.
        rewrite <- Er. vec. }
      destruct (Vector.eqb (lp +v h) p) eqn:El.
      { apply vec_eqb_spec in El. right. right. split; [reflexivity|]. left.
        rewrite <- El. vec. }
      destruct (Vector.eqb (pos +v h) p) eqn:Ec.
      { apply vec_eqb_spec in Ec. right. left. split; [reflexivity|].
        rewrite <- Ec. vec. }
      left. reflexivity. }
    assert (Hstop : pos' = pos +v h /\ st' = with_grid st g3 ->
      exists g', st' = with_grid st g' /\
        (exists m, 0 <= m <= Z.of_nat (S n) /\ (0 < Z.of_nat (S n) -> 1 <= m) /\
                   pos' = pos +v h *v m) /\
        forall p,
          cell g' p = cell (grid st) p \/
          (cell g' p = Some TILE_FLOOR /\
           exists k, 1 <= k <= Z.of_nat (S n) /\ p = pos +v h *v k) \/
          (cell g' p = Some TILE_WALL /\
           exists k, 1 <= k <= Z.of_nat (S n) /\
                     (p = lp +v h *v k \/ p = rp +v h *v k))).
    { intros [-> ->]. exists g3. split; [reflexivity|]. split.
      - exists 1. split; [lia|]. split; [lia | vec].
      - intros p. destruct (Hg3 p) as [Hp|[[Hp ->]|[Hp Hq]]]; [auto| |].
        + right. left. split; [assumption|]. exists 1. split; [lia | reflexivity].
        + right. right. split; [assumption|]. exists 1. split; [lia | assumption]. }
    destruct (is_in_bounds _ (pos +v h +v h)); cbn [negb] in H;
      [|injection H as <- <-; apply Hstop; auto].
    destruct (is_wall _ (pos +v h +v h)) as [w|]; cbn [bind] in H; [|discriminate].
    destruct w; cbn [negb] in H; [|injection H as <- <-; apply Hstop; auto].
    clear Hstop. apply IH in H as (g' & -> & (m & Hm & Hm1 & ->) & Hg').
    exists g'. split; [reflexivity|]. split.
    + exists (m + 1). split; [lia|]. split; [lia | vec].
    + intros p. cbn [grid with_grid] in Hg'.
      destruct (Hg' p) as [Hp|[[Hp (k & Hk & ->)]|[Hp (k & Hk & Hq)]]].
      * rewrite Hp. destruct (Hg3 p) as [Hq|[[Hq ->]|[Hq Hr]]]; [auto| |].
        -- right. left. split; [assumption|]. exists 1. split; [lia | reflexivity].
        -- right. right. split; [assumption|]. exists 1. split; [lia | assumption].
      * right. left. split; [assumption|]. exists (k + 1). split; [lia | vec].
      * right. right. split; [assumption|]. exists (k + 1). split; [lia|].
        destruct Hq as [->| ->]; [left | right]; vec.
Qed.

(** Ahead of the first centre cell no centre cell coincides with the first
    centre cell or its flanks. *)
Lemma ahead_distinct h pos k :
  Vector.cardinal h -> 2 <= k ->
  Vector.eqb (pos +v h) (pos +v h *v k) = false /\
  Vector.eqb (pos +v Vector.left h +v h) (pos +v h *v k) = false /\
  Vector.eqb (pos +v Vector.right h +v h) (pos +v h *v k) = false.
Proof.
  intros Hc Hk. unfold Vector.eqb.
  cardinal_cases Hc; destruct pos; cbn; lia.
Qed.

(** A centre cell is neither of its own flank cells, and distinct centre
    cells are distinct. *)
Lemma flank_distinct h pos :
  Vector.cardinal h ->
  Vector.eqb (pos +v Vector.left h +v h) (pos +v h) = false /\
  Vector.eqb (pos +v Vector.right h +v h) (pos +v h) = false.
Proof.
  intros Hc. unfold Vector.eqb. cardinal_cases Hc; destruct pos; cbn; lia.
Qed.

Lemma centre_distinct h pos k m :
  Vector.cardinal h -> k <> m ->
  Vector.eqb (pos +v h *v m) (pos +v h *v k) = false.
Proof.
  intros Hc Hne. unfold Vector.eqb. cardinal_cases Hc; destruct pos; cbn; lia.
Qed.

(** When the check accepted [n >= 1] steps and found an open cell right
    after them, the loop digs all [n] cells, leaves them floor, and stops
    in front of the open cell. *)
Lemma corridor_dig_run h n : forall pos st,
  wf st -> Vector.cardinal h -> (1 <= n)%nat ->
  (forall k, 1 <= k <= Z.of_nat n ->
     is_in_bounds st (pos +v h *v k) = true /\
     wallish (grid st) (pos +v h *v k) = true) ->
  is_in_bounds st (pos +v h *v (Z.of_nat n + 1)) = true ->
  wallish (grid st) (pos +v h *v (Z.of_nat n + 1)) = false ->
  exists g',
    corridor_dig h n pos (pos +v Vector.left h) (pos +v Vector.right h) st
      = Ok (pos +v h *v Z.of_nat n, with_grid st g') /\
    wf (with_grid st g') /\
    wallish g' (pos +v h *v (Z.of_nat n + 1)) = false /\
    (forall k, 1 <= k <= Z.of_nat n ->
       cell g' (pos +v h *v k) = Some TILE_FLOOR).
Proof.
  induction n as [|n IH]; intros pos st Hwf Hc Hn Hsteps Hb Hopen; [lia|].
  assert (Hb1 : is_in_bounds st (pos +v h) = true).
  { replace (pos +v h) with (pos +v h *v 1) by vec. apply Hsteps. lia. }
  cbn [corridor_dig]. unfold dig_tile, fill_tile.
  destruct (write_tile_spec st (pos +v h) TILE_FLOOR Hwf)
    as (g1 & -> & Hwf1 & Hg1); [apply in_bounds_border; assumption|].
  cbn [bind].
  destruct (write_tile_spec _ (pos +v Vector.left h +v h) TILE_WALL Hwf1)
    as (g2 & -> & Hwf2 & Hg2).
  { replace (pos +v Vector.left h +v h) with (pos +v h +v Vector.left h) by vec.
    apply (border_of_inner st); [apply cardinal_left|]; assumption. }
  cbn [bind].
  destruct (write_tile_spec _ (pos +v Vector.right h +v h) TILE_WALL Hwf2)
    as (g3 & -> & Hwf3 & Hg3).
  { replace (pos +v Vector.right h +v h) with (pos +v h +v Vector.right h) by vec.
    apply (border_of_inner st); [apply cardinal_right|]; assumption. }
  cbn [bind]. cbn [grid with_grid] in *.
  assert (Hkeep : forall k, 2 <= k ->
            cell g3 (pos +v h *v k) = cell (grid st) (pos +v h *v k)).
  { intros k Hk. destruct (ahead_distinct h pos k Hc Hk) as (E1 & E2 & E3).
    rewrite Hg3, E3, Hg2, E2, Hg1, E1. reflexivity. }
  assert (Hfirst : cell g3 (pos +v h) = Some TILE_FLOOR).
  { destruct (flank_distinct h pos Hc) as [E2 E3].
    rewrite Hg3, E3, Hg2, E2, Hg1.
    replace (Vector.eqb (pos +v h) (pos +v h)) with true
      by (symmetry; apply vec_eqb_spec; reflexivity).
    reflexivity. }
  change (is_in_bounds (with_grid (with_grid (with_grid st g1) g2) g3))
    with (is_in_bounds st).
  replace (pos +v h +v h) with (pos +v h *v 2) by vec.
  destruct n as [|n].
  - change (Z.of_nat 1 + 1) with 2 in *. rewrite Hb. cbn [negb].
    rewrite is_wall_wallish
      by (apply Hwf3; apply (in_bounds_border st); assumption).
    cbn [bind grid with_grid]. unfold wallish in *. rewrite Hkeep by lia.
    unfold wallish in Hopen. rewrite Hopen. cbn [negb].
    exists g3. split; [do 2 f_equal; vec|]. split; [exact Hwf3|]. split.
    + rewrite Hkeep by lia. assumption.
    + intros k Hk. assert (k = 1) as -> by lia.
      replace (pos +v h *v 1) with (pos +v h) by vec. exact Hfirst.
  - destruct (Hsteps 2 ltac:(lia)) as [Hb2 Hw2]. rewrite Hb2. cbn [negb].
    rewrite is_wall_wallish
      by (apply Hwf3; apply (in_bounds_border st); assumption).
    cbn [bind grid with_grid]. unfold wallish in *. rewrite Hkeep by lia.
    rewrite Hw2. cbn [negb].
    replace (pos +v Vector.left h +v h) with (pos +v h +v Vector.left h) by vec.
    replace (pos +v Vector.right h +v h) with (pos +v h +v Vector.right h) by vec.
    destruct (IH (pos +v h) (with_grid (with_grid (with_grid st g1) g2) g3))
      as (g' & Hrun & Hwf' & Hopen' & Hfloor'); try assumption; try lia.
    + intros k Hk. cbn [grid with_grid].
      replace (pos +v h +v h *v k) with (pos +v h *v (k + 1)) by vec.
      rewrite Hkeep by lia. apply Hsteps. lia.
    + replace (pos +v h +v h *v (Z.of_nat (S n) + 1))
        with (pos +v h *v (Z.of_nat (S (S n)) + 1)) by (rewrite !Nat2Z.inj_succ; vec).
      exact Hb.
    + cbn [grid with_grid].
      replace (pos +v h +v h *v (Z.of_nat (S n) + 1))
        with (pos +v h *v (Z.of_nat (S (S n)) + 1)) by (rewrite !Nat2Z.inj_succ; vec).
      rewrite Hkeep by lia. assumption.
    + pose proof Hrun as Heff.
      apply corridor_dig_effect in Heff as (g0 & Hg0 & _ & Heff).
      assert (g0 = g') as -> by (injection Hg0; auto). clear Hg0.
      cbn [grid with_grid] in Heff.
      exists g'. rewrite Hrun. split.
      * do 2 f_equal. rewrite (Nat2Z.inj_succ (S n)). vec.
      * split; [exact Hwf'|]. split.
        -- replace (pos +v h *v (Z.of_nat (S (S n)) + 1))
             with (pos +v h +v h *v (Z.of_nat (S n) + 1))
             by (rewrite !Nat2Z.inj_succ; vec).
           exact Hopen'.
        -- intros k Hk. destruct (decide (k = 1)) as [->|Hne].
           ++ replace (pos +v h *v 1) with (pos +v h) by vec.
              destruct (Heff (pos +v h)) as [Hq|[[Hq _]|[_ (k' & Hk' & Hq)]]].
              ** rewrite Hq. exact Hfirst.
              ** exact Hq.
              ** exfalso. clear - Hc Hk' Hq. cardinal_cases Hc; destruct Hq; vec.
           ++ replace (pos +v h *v k) with (pos +v h +v h *v (k - 1)) by vec.
              apply Hfloor'. rewrite (Nat2Z.inj_succ (S n)) in Hk. lia.
Qed.

(** * Floors and room corners under one placement *)

(** ** Neighbours along a cardinal heading *)

Lemma orth_cardinal h p q :
  Vector.cardinal h ->
  orth q p ->
  q = p +v h \/ q = p -v h \/ q = p +v Vector.right h \/ q = p -v Vector.right h.
Proof.
  intros Hc [-> | [-> | [-> | ->]]]; cardinal_cases Hc; cbn;
    unfold Vector.add, Vector.sub; cbn; tauto.
Qed.

(** Every diagonal step is one step sideways and one step along or
    against the heading, and these are its two orthogonal halves. *)
Lemma diag_cardinal h dx dy :
  Vector.cardinal h -> (dx = 1 \/ dx = -1) -> (dy = 1 \/ dy = -1) ->
  exists a s, (a = 1 \/ a = -1) /\ (s = 1 \/ s = -1) /\
    Vector.mk dx dy = Vector.right h *v a +v h *v s /\
    ((Vector.mk dx 0 = Vector.right h *v a /\ Vector.mk 0 dy = h *v s) \/
     (Vector.mk dx 0 = h *v s /\ Vector.mk 0 dy = Vector.right h *v a)).
Proof.
  intros Hc Hx Hy. cardinal_cases Hc; cbn.
  - exists dx, (- dy). split; [lia|]. split; [lia|].
    unfold Vector.scale, Vector.add; cbn. split; [f_equal; lia|].
    left. split; f_equal; lia.
  - exists dy, dx. split; [lia|]. split; [lia|].
    unfold Vector.scale, Vector.add; cbn. split; [f_equal; lia|].
    right. split; f_equal; lia.
  - exists (- dx), dy. split; [lia|]. split; [lia|].
    unfold Vector.scale, Vector.add; cbn. split; [f_equal; lia|].
    left. split; f_equal; lia.
  - exists (- dy), (- dx). split; [lia|]. split; [lia|].
    unfold Vector.scale, Vector.add; cbn. split; [f_equal; lia|].
    right. split; f_equal; lia.
Qed.

Lemma cardinal_diag h a s :
  Vector.cardinal h -> (a = 1 \/ a = -1) -> (s = 1 \/ s = -1) ->
  exists dx dy, (dx = 1 \/ dx = -1) /\ (dy = 1 \/ dy = -1) /\
    Vector.mk dx dy = Vector.right h *v a +v h *v s /\
    ((Vector.mk dx 0 = Vector.right h *v a /\ Vector.mk 0 dy = h *v s) \/
     (Vector.mk dx 0 = h *v s /\ Vector.mk 0 dy = Vector.right h *v a)).
Proof.
  intros Hc Ha Hs. cardinal_cases Hc; cbn.
  - exists a, (- s). split; [lia|]. split; [lia|].
    unfold Vector.scale, Vector.add; cbn. split; [f_equal; lia|].
    left. split; f_equal; lia.
  - exists s, a. split; [lia|]. split; [lia|].
    unfold Vector.scale, Vector.add; cbn. split; [f_equal; lia|].
    right. split; f_equal; lia.
  - exists (- a), s. split; [lia|]. split; [lia|].
    unfold Vector.scale, Vector.add; cbn. split; [f_equal; lia|].
    left. split; f_equal; lia.
  - exists (- s), (- a). split; [lia|]. split; [lia|].
    unfold Vector.scale, Vector.add; cbn. split; [f_equal; lia|].
    right. split; f_equal; lia.
Qed.

(** ** A committed room *)

Lemma room_tile_cases sx sy eo i j :
  (i = eo /\ j = 0 /\ room_tile sx sy eo i j = TILE_DOOR) \/
  (1 <= i <= sx /\ 1 <= j <= sy /\ room_tile sx sy eo i j = TILE_FLOOR) \/
  (~ (1 <= i <= sx /\ 1 <= j <= sy) /\ ~ (i = eo /\ j = 0) /\
   ((i = 0 \/ i = sx + 1) /\ (j = 0 \/ j = sy + 1) /\
    room_tile sx sy eo i j = TILE_PERMAWALL \/
    room_tile sx sy eo i j = TILE_WALL)).
Proof.
  unfold room_tile.
  destruct ((i =? eo) && (j =? 0)) eqn:E1.
  { left. apply andb_true_iff in E1. repeat split; lia. }
  destruct ((1 <=? i) && (i <=? sx) && (1 <=? j) && (j <=? sy)) eqn:E2.
  { right; left. rewrite !andb_true_iff in E2. repeat split; lia. }
  right. right.
  rewrite andb_false_iff in E1. rewrite !andb_false_iff in E2.
  split; [lia|]. split; [lia|].
  destruct (((i =? 0) || (i =? sx + 1)) && ((j =? 0) || (j =? sy + 1))) eqn:E3.
  - left. rewrite andb_true_iff, !orb_true_iff in E3.
    split; [lia|]. split; [lia|reflexivity].
  - right; reflexivity.
Qed.

Lemma wallish_tile g p t :
  wallish g p = true -> cell g p = Some t -> wall_like t = true.
Proof. unfold wallish. intros H E. rewrite E in H. exact H. Qed.

Lemma room_kept g g' e h sx sy eo r1 r2 r3 :
  Vector.cardinal h -> 1 <= sx -> 1 <= sy -> 1 <= eo <= sx ->
  1 <= r1 <= sy -> 1 <= r2 <= sx -> 1 <= r3 <= sy ->
  (forall i j, 0 <= i < sx + 2 -> 0 <= j < sy + 2 ->
     cell g' (room_at (e +v Vector.left h *v eo) h i j)
     = Some (room_tile sx sy eo i j)) ->
  (forall p, ~ In p (footprint h sx sy (e +v Vector.left h *v eo)) ->
     cell g' p = cell g p) ->
  (forall i j, 0 <= i < sx + 2 -> 0 <= j < sy + 2 -> ~ (i = eo /\ j = 0) ->
     wallish g (room_at (e +v Vector.left h *v eo) h i j) = true) ->
  entry_ok g e h -> corners_ok g ->
  kept e g g'
    [mkDoorway (e +v Vector.left h *v eo +v h *v r1) (Vector.left h) true;
     mkDoorway (e +v Vector.left h *v eo +v h *v (sy + 1) +v Vector.right h *v r2)
               h true;
     mkDoorway (e +v Vector.left h *v eo +v Vector.right h *v (sx + 1) +v h *v r3)
               (Vector.right h) true].
Proof.
  intros Hc Hsx Hsy Heo Hr1 Hr2 Hr3 Hin Hout Hok [Hefloor Hbehind] Hcorners.
  set (corner := e +v Vector.left h *v eo) in *.
  assert (He : e = room_at corner h eo 0) by (unfold room_at, corner; vec).
  assert (Hstep : forall i j a s,
            room_at corner h i j +v (Vector.right h *v a +v h *v s)
            = room_at corner h (i + a) (j + s))
    by (intros; unfold room_at; vec).
  assert (Hfloor_in : forall i j, 0 <= i < sx + 2 -> 0 <= j < sy + 2 ->
            cell g (room_at corner h i j) <> Some TILE_FLOOR).
  { intros i j Hi Hj Hfl. destruct (decide (i = eo /\ j = 0)) as [[-> ->]|Hne].
    - rewrite <- He in Hfl. contradiction.
    - pose proof (wallish_tile _ _ _ (Hok i j Hi Hj Hne) Hfl). discriminate. }
  assert (Hnotfloor' : forall i j, 0 <= i < sx + 2 -> 0 <= j < sy + 2 ->
            ~ (1 <= i <= sx /\ 1 <= j <= sy) ->
            cell g' (room_at corner h i j) <> Some TILE_FLOOR).
  { intros i j Hi Hj Hni. rewrite Hin by assumption.
    destruct (room_tile_cases sx sy eo i j)
      as [(_ & _ & ->)|[(? & ? & _)|(_ & _ & [(_ & _ & ->)| ->])]];
      (discriminate || tauto). }
  assert (Hfloor' : forall i j, 1 <= i <= sx -> 1 <= j <= sy ->
            cell g' (room_at corner h i j) = Some TILE_FLOOR).
  { intros i j Hi Hj. rewrite Hin by lia.
    destruct (room_tile_cases sx sy eo i j)
      as [(_ & ? & _)|[(_ & _ & ->)|(? & _)]]; [lia | reflexivity | tauto]. }
  assert (K7 : cell g e <> Some TILE_PERMAWALL).
  { intros Hpw.
    destruct (Hcorners e Hpw) as (dx & dy & Hdx & Hdy & HF & HA & HB).
    destruct (diag_cardinal h dx dy Hc Hdx Hdy) as (a & s & Ha & Hs & Hd & Hhalves).
    destruct Hs as [-> | ->].
    - rewrite Hd, He, Hstep in HF. apply (Hfloor_in (eo + a) (0 + 1)); [lia | lia |].
      exact HF.
    - assert (Hback : cell g (e -v h) <> Some TILE_FLOOR).
      { replace (e -v h) with (e +v h *v (-1)) by vec.
        destruct Hhalves as [[_ E]|[E _]]; rewrite <- E; assumption. }
      destruct Hbehind as [Hb|Hb]; [contradiction | congruence]. }
  repeat split.
  - intros p Hp.
    destruct (in_dec vec_eq_dec p (footprint h sx sy corner)) as [Hf|Hf].
    + apply in_footprint in Hf as (i & j & Hi & Hj & ->); [|lia].
      exfalso. apply (Hfloor_in i j); assumption.
    + rewrite Hout by assumption. exact Hp.
  - intros p Hp.
    destruct (in_dec vec_eq_dec p (footprint h sx sy corner)) as [Hf|Hf].
    + apply in_footprint in Hf as (i & j & Hi & Hj & ->); [|lia].
      right. intros q Hq.
      assert (Hint : 1 <= i <= sx /\ 1 <= j <= sy).
      { destruct (decide (1 <= i <= sx /\ 1 <= j <= sy)) as [?|Hni]; [assumption|].
        exfalso. apply (Hnotfloor' i j); assumption. }
      assert (Hq' : exists i' j', 0 <= i' < sx + 2 /\ 0 <= j' < sy + 2 /\
                      q = room_at corner h i' j').
      { apply (orth_cardinal h) in Hq as [-> | [-> | [-> | ->]]]; [| | | |assumption].
        - exists i, (j + 1). split; [lia|]. split; [lia|]. unfold room_at; vec.
        - exists i, (j - 1). split; [lia|]. split; [lia|]. unfold room_at; vec.
        - exists (i + 1), j. split; [lia|]. split; [lia|]. unfold room_at; vec.
        - exists (i - 1), j. split; [lia|]. split; [lia|]. unfold room_at; vec. }
      destruct Hq' as (i' & j' & Hi' & Hj' & ->).
      destruct (decide (i' = eo /\ j' = 0)) as [[-> ->]|Hne].
      * right. symmetry. exact He.
      * left. apply Hok; assumption.
    + left. rewrite <- Hout by assumption. exact Hp.
  - intros p Hp.
    destruct (in_dec vec_eq_dec p (footprint h sx sy corner)) as [Hf|Hf].
    + apply in_footprint in Hf as (i & j & Hi & Hj & ->); [|lia].
      right. rewrite Hin in Hp by assumption.
      destruct (room_tile_cases sx sy eo i j)
        as [(_ & _ & E)|[(_ & _ & E)|(_ & _ & [(Hci & Hcj & _)|E])]];
        try (rewrite E in Hp; discriminate).
      set (a := if decide (i = 0) then 1 else -1).
      set (s := if decide (j = 0) then 1 else -1).
      assert (Ha : a = 1 \/ a = -1) by (unfold a; destruct (decide (i = 0)); auto).
      assert (Hs : s = 1 \/ s = -1) by (unfold s; destruct (decide (j = 0)); auto).
      assert (Hia : 1 <= i + a <= sx) by (unfold a; destruct (decide (i = 0)); lia).
      assert (Hjs : 1 <= j + s <= sy) by (unfold s; destruct (decide (j = 0)); lia).
      destruct (cardinal_diag h a s Hc Ha Hs) as (dx & dy & Hdx & Hdy & Hd & Hhalves).
      exists dx, dy. split; [assumption|]. split; [assumption|].
      assert (HA : cell g' (room_at corner h i j +v Vector.right h *v a)
                   <> Some TILE_FLOOR).
      { replace (room_at corner h i j +v Vector.right h *v a)
          with (room_at corner h (i + a) j) by (unfold room_at; vec).
        apply Hnotfloor'; lia. }
      assert (HB : cell g' (room_at corner h i j +v h *v s) <> Some TILE_FLOOR).
      { replace (room_at corner h i j +v h *v s)
          with (room_at corner h i (j + s)) by (unfold room_at; vec).
        apply Hnotfloor'; lia. }
      split; [rewrite Hd, Hstep; apply Hfloor'; assumption|].
      destruct Hhalves as [[E1 E2]|[E1 E2]]; rewrite E1, E2; auto.
    + left. rewrite <- Hout by assumption. exact Hp.
  - constructor; [|constructor; [|constructor; [|constructor]]];
      cbn [has_door location heading]; (split; [reflexivity|split]).
    + replace (corner +v h *v r1) with (room_at corner h 0 r1)
        by (unfold room_at; vec).
      apply Hnotfloor'; lia.
    + replace (corner +v h *v r1 -v Vector.left h) with (room_at corner h 1 r1)
        by (unfold room_at; vec).
      apply Hfloor'; lia.
    + replace (corner +v h *v (sy + 1) +v Vector.right h *v r2)
        with (room_at corner h r2 (sy + 1)) by (unfold room_at; vec).
      apply Hnotfloor'; lia.
    + replace (corner +v h *v (sy + 1) +v Vector.right h *v r2 -v h)
        with (room_at corner h r2 sy) by (unfold room_at; vec).
      apply Hfloor'; lia.
    + apply (Hnotfloor' (sx + 1) r3); lia.
    + replace (corner +v Vector.right h *v (sx + 1) +v h *v r3 -v Vector.right h)
        with (room_at corner h sx r3) by (unfold room_at; vec).
      apply Hfloor'; lia.
  - left. rewrite He, Hin by lia. unfold room_tile. rewrite !Z.eqb_refl. reflexivity.
  - intros p Hp.
    destruct (in_dec vec_eq_dec p (footprint h sx sy corner)) as [Hf|Hf].
    + apply in_footprint in Hf as (i & j & Hi & Hj & ->); [|lia].
      rewrite Hin by assumption.
      destruct (room_tile_cases sx sy eo i j)
        as [(-> & -> & _)|[(Hii & Hij & _)|(_ & _ & [(_ & _ & ->)| ->])]];
        [| |auto|auto].
      * exfalso. rewrite <- He in Hp. contradiction.
      * exfalso.
        destruct (Hcorners _ Hp) as (dx & dy & Hdx & Hdy & HF & _).
        destruct (diag_cardinal h dx dy Hc Hdx Hdy) as (a & s & Ha & Hs & Hd & _).
        rewrite Hd, Hstep in HF.
        apply (Hfloor_in (i + a) (j + s)); [lia | lia | exact HF].
    + left. rewrite Hout by assumption. exact Hp.
  - exact K7.
Qed.

(** ** A committed corridor *)

Lemma corridor_kept g g' g'' e h m :
  Vector.cardinal h -> 1 <= m ->
  (forall k, 1 <= k <= m ->
     wallish g (e +v h *v k) = true /\
     cell g (e +v h *v k) <> Some TILE_PERMAWALL /\
     wallish g (e +v Vector.left h +v h *v k) = true /\
     wallish g (e +v Vector.right h +v h *v k) = true) ->
  (forall p,
     cell g' p = cell g p \/
     (cell g' p = Some TILE_FLOOR /\ exists k, 1 <= k <= m /\ p = e +v h *v k) \/
     (cell g' p = Some TILE_WALL /\
      exists k, 1 <= k <= m /\
        (p = e +v Vector.left h +v h *v k \/ p = e +v Vector.right h +v h *v k))) ->
  (forall p, cell g'' p
             = if Vector.eqb (e +v h *v m) p then Some TILE_DOOR else cell g' p) ->
  entry_ok g e h -> corners_ok g ->
  kept e g g'' [].
Proof.
  intros Hc Hm Hsteps Heff Hg'' [Hefloor Hbehind] Hcorners.
  assert (Hcentre : forall k, 1 <= k <= m ->
            cell g (e +v h *v k) <> Some TILE_FLOOR).
  { intros k Hk Hfl. destruct (Hsteps k Hk) as (Hw & _).
    pose proof (wallish_tile _ _ _ Hw Hfl). discriminate. }
  assert (Hflank : forall k a, 1 <= k <= m -> a = 1 \/ a = -1 ->
            wallish g (e +v Vector.right h *v a +v h *v k) = true).
  { intros k a Hk [-> | ->]; destruct (Hsteps k Hk) as (_ & _ & Hl & Hr).
    - replace (e +v Vector.right h *v 1 +v h *v k)
        with (e +v Vector.right h +v h *v k) by vec. exact Hr.
    - replace (e +v Vector.right h *v (-1) +v h *v k)
        with (e +v Vector.left h +v h *v k) by vec. exact Hl. }
  assert (Hnote : forall k, 1 <= k -> e <> e +v h *v k).
  { intros k Hk E. cardinal_cases Hc; vec. }
  assert (Hnotf : forall k a, a = 1 \/ a = -1 ->
            e <> e +v Vector.right h *v a +v h *v k).
  { intros k a Ha E. cardinal_cases Hc; vec. }
  assert (K7 : cell g e <> Some TILE_PERMAWALL).
  { intros Hpw.
    destruct (Hcorners e Hpw) as (dx & dy & Hdx & Hdy & HF & HA & HB).
    destruct (diag_cardinal h dx dy Hc Hdx Hdy) as (a & s & Ha & Hs & Hd & Hhalves).
    destruct Hs as [-> | ->].
    - rewrite Hd in HF.
      replace (e +v (Vector.right h *v a +v h *v 1))
        with (e +v Vector.right h *v a +v h *v 1) in HF by vec.
      pose proof (wallish_tile _ _ _ (Hflank 1 a ltac:(lia) Ha) HF). discriminate.
    - assert (Hback : cell g (e -v h) <> Some TILE_FLOOR).
      { replace (e -v h) with (e +v h *v (-1)) by vec.
        destruct Hhalves as [[_ E]|[E _]]; rewrite <- E; assumption. }
      destruct Hbehind as [Hb|Hb]; [contradiction | congruence]. }
  repeat split.
  - intros p Hp. rewrite Hg''.
    destruct (Vector.eqb (e +v h *v m) p) eqn:E.
    { apply vec_eqb_spec in E. subst p. exfalso. apply (Hcentre m); [lia|exact Hp]. }
    destruct (Heff p) as [Hq|[[Hq _]|[_ (k & Hk & Hq)]]]; [congruence | exact Hq |].
    exfalso. destruct (Hsteps k Hk) as (_ & _ & Hl & Hr).
    destruct Hq as [-> | ->];
      [pose proof (wallish_tile _ _ _ Hl Hp) | pose proof (wallish_tile _ _ _ Hr Hp)];
      discriminate.
  - intros p Hp. rewrite Hg'' in Hp.
    destruct (Vector.eqb (e +v h *v m) p) eqn:E; [discriminate|].
    destruct (Heff p) as [Hq|[[_ (k & Hk & ->)]|[Hq _]]];
      [left; congruence | | congruence].
    right. intros q Hq.
    assert (Hkm : k <> m).
    { intros ->. assert (Vector.eqb (e +v h *v m) (e +v h *v m) = true)
        by (apply vec_eqb_spec; reflexivity). congruence. }
    apply (orth_cardinal h) in Hq as [-> | [-> | [-> | ->]]]; [| | | |assumption].
    + left. replace (e +v h *v k +v h) with (e +v h *v (k + 1)) by vec.
      apply Hsteps. lia.
    + destruct (decide (k = 1)) as [-> | Hk1].
      * right. vec.
      * left. replace (e +v h *v k -v h) with (e +v h *v (k - 1)) by vec.
        apply Hsteps. lia.
    + left. replace (e +v h *v k +v Vector.right h)
        with (e +v Vector.right h *v 1 +v h *v k) by vec.
      apply Hflank; [assumption | auto].
    + left. replace (e +v h *v k -v Vector.right h)
        with (e +v Vector.right h *v (-1) +v h *v k) by vec.
      apply Hflank; [assumption | auto].
  - intros p Hp. rewrite Hg'' in Hp.
    destruct (Vector.eqb (e +v h *v m) p) eqn:E; [discriminate|].
    destruct (Heff p) as [Hq|[[Hq _]|[Hq _]]]; [left | |]; congruence.
  - constructor.
  - right. rewrite Hg''.
    destruct (Vector.eqb (e +v h *v m) e) eqn:E.
    { apply vec_eqb_spec in E. exfalso. apply (Hnote m); [lia | congruence]. }
    destruct (Heff e) as [Hq|[[_ (k & Hk & Hq)]|[_ (k & Hk & Hq)]]];
      [exact Hq | |].
    + exfalso. apply (Hnote k); [lia | exact Hq].
    + exfalso. destruct Hq as [Hq|Hq].
      * apply (Hnotf k (-1)); [auto|]. rewrite Hq at 1. vec.
      * apply (Hnotf k 1); [auto|]. rewrite Hq at 1. vec.
  - intros p Hp. rewrite Hg''.
    destruct (Vector.eqb (e +v h *v m) p) eqn:E.
    { apply vec_eqb_spec in E. subst p. exfalso.
      destruct (Hsteps m ltac:(lia)) as (_ & Hn & _). contradiction. }
    destruct (Heff p) as [Hq|[[_ (k & Hk & ->)]|[Hq _]]].
    + left. congruence.
    + exfalso. destruct (Hsteps k Hk) as (_ & Hn & _). contradiction.
    + right. exact Hq.
  - exact K7.
Qed.

(** * The effect of one placement *)

(** ** Counting wall-like cells *)

Lemma in_all_cells st p :
  is_in_bounds_or_border st p = true -> In p (all_cells st).
Proof.
  unfold is_in_bounds_or_border, all_cells. intros H.
  apply in_flat_map. exists (Z.to_nat (Vector.y p)). split.
  - apply in_seq. lia.
  - apply in_map_iff. exists (Z.to_nat (Vector.x p)). split.
    + destruct p; cbn in *. f_equal; lia.
    + apply in_seq. lia.
Qed.

Lemma count_mono (f g : Vector -> bool) (l : list Vector) :
  (forall p, In p l -> g p = true -> f p = true) ->
  (length (List.filter g l) <= length (List.filter f l))%nat.
Proof.
  induction l as [|a l IH]; intros H; cbn; [lia|].
  assert (length (List.filter g l) <= length (List.filter f l))%nat
    by (apply IH; intros p Hp; apply H; right; assumption).
  destruct (g a) eqn:Eg.
  - rewrite (H a (or_introl eq_refl) Eg). cbn. lia.
  - destruct (f a); cbn; lia.
Qed.

Lemma count_strict (f g : Vector -> bool) (l : list Vector) p0 :
  (forall p, In p l -> g p = true -> f p = true) ->
  In p0 l -> f p0 = true -> g p0 = false ->
  (length (List.filter g l) < length (List.filter f l))%nat.
Proof.
  induction l as [|a l IH]; intros H Hin Hf Hg; [destruct Hin|].
  assert (Hl : forall p, In p l -> g p = true -> f p = true)
    by (intros p Hp; apply H; right; assumption).
  cbn. destruct Hin as [->|Hin].
  - rewrite Hf, Hg. pose proof (count_mono f g l Hl). cbn. lia.
  - specialize (IH Hl Hin Hf Hg). destruct (g a) eqn:Eg.
    + rewrite (H a (or_introl eq_refl) Eg). cbn. lia.
    + destruct (f a); cbn; lia.
Qed.

(** ** Summaries *)

Lemma idle_refl st : idle st st.
Proof. repeat split. Qed.

Lemma idle_tick st : idle st (tick st).
Proof. repeat split. Qed.

Lemma idle_trans a b c : idle a b -> idle b c -> idle a c.
Proof. unfold idle. intros (? & ? & ? & ? & ?) (? & ? & ? & ? & ?). repeat split; congruence. Qed.

Lemma wf_idle st st' : idle st st' -> wf st -> wf st'.
Proof.
  destruct st, st'. unfold idle. cbn. intros (-> & -> & -> & _) H. exact H.
Qed.

Lemma placed_idle st st1 st2 e h :
  idle st st1 -> placed e h st1 st2 -> placed e h st st2.
Proof.
  destruct st, st1. unfold idle. cbn. intros (-> & -> & -> & -> & ->) H. exact H.
Qed.

Lemma room_connections_spec h sx sy corner st :
  1 <= sx -> 1 <= sy ->
  exists r1 r2 r3,
    1 <= r1 <= sy /\ 1 <= r2 <= sx /\ 1 <= r3 <= sy /\
    room_connections h sx sy corner st =
    with_doorways (tick (tick (tick st)))
      (doorways st ++
       [mkDoorway (corner +v h *v r1) (Vector.left h) true;
        mkDoorway (corner +v h *v (sy + 1) +v Vector.right h *v r2) h true;
        mkDoorway (corner +v Vector.right h *v (sx + 1) +v h *v r3)
                  (Vector.right h) true]).
Proof.
  intros Hsx Hsy.
  exists (draw 1 sy st), (draw 1 sx (tick st)), (draw 1 sy (tick (tick st))).
  split; [apply draw_bounds; assumption|].
  split; [apply draw_bounds; assumption|].
  split; [apply draw_bounds; assumption|].
  unfold room_connections, with_doorways, push_doorway. cbn.
  rewrite <- !app_assoc. reflexivity.
Qed.

(** ** A room that fits is a placement *)

Lemma room_tile_wall_like sx sy eo i j :
  wall_like (room_tile sx sy eo i j) = false ->
  (i = eo /\ j = 0) \/ (1 <= i <= sx /\ 1 <= j <= sy).
Proof.
  unfold room_tile.
  destruct ((i =? eo) && (j =? 0)) eqn:E1; [lia|].
  destruct ((1 <=? i) && (i <=? sx) && (1 <=? j) && (j <=? sy)) eqn:E2; [lia|].
  destruct (((i =? 0) || (i =? sx + 1)) && _); cbn; intros; discriminate.
Qed.

Lemma dig_room_sized_placed st e h sx sy eo :
  wf st -> Vector.cardinal h -> 1 <= sx -> 1 <= sy -> 1 <= eo <= sx ->
  forallb (cell_ok st e) (footprint h sx sy (e +v Vector.left h *v eo)) = true ->
  exists st',
    dig_room_sized e h sx sy (e +v Vector.left h *v eo) st = Ok (true, st') /\
    placed e h st st'.
Proof.
  intros Hwf Hc Hsx Hsy Heo Hfeas.
  destruct (dig_room_sized_commit st e h sx sy eo Hwf Hc Hsx Hsy Heo Hfeas)
    as (g' & Hrun & Hwf' & Hin & Hout).
  set (corner := e +v Vector.left h *v eo) in *.
  destruct (room_connections_spec h sx sy corner (with_grid st g') Hsx Hsy)
    as (r1 & r2 & r3 & Hr1 & Hr2 & Hr3 & Hconn).
  rewrite Hconn in Hrun. eexists. split; [exact Hrun|]. clear Hrun Hconn.
  assert (He : e = room_at corner h eo 0) by (unfold room_at, corner; vec).
  assert (Hcell : forall i j, 0 <= i < sx + 2 -> 0 <= j < sy + 2 ->
            cell_ok st e (room_at corner h i j) = true).
  { intros i j Hi Hj. rewrite forallb_forall in Hfeas. apply Hfeas.
    apply in_footprint; [lia|]. eauto. }
  assert (HF : forall i j, 0 <= i < sx + 2 -> 0 <= j < sy + 2 ->
            is_in_bounds_or_border st (room_at corner h i j) = true).
  { intros i j Hi Hj. specialize (Hcell i j Hi Hj). unfold cell_ok in Hcell.
    apply andb_true_iff in Hcell as [H _]. assumption. }
  assert (Hok : forall i j, 0 <= i < sx + 2 -> 0 <= j < sy + 2 ->
            ~ (i = eo /\ j = 0) -> wallish (grid st) (room_at corner h i j) = true).
  { intros i j Hi Hj Hne. specialize (Hcell i j Hi Hj). unfold cell_ok in Hcell.
    apply andb_true_iff in Hcell as [_ H]. apply orb_true_iff in H as [H|H];
      [assumption|].
    rewrite He, room_at_eqb in H by assumption. lia. }
  assert (Hinner : forall i j, 1 <= i <= sx -> 1 <= j <= sy ->
            is_in_bounds st (room_at corner h i j) = true).
  { intros i j Hi Hj. apply (inner_of_neighbours st h); [assumption|..].
    - replace (room_at corner h i j +v h) with (room_at corner h i (j + 1))
        by (unfold room_at; vec). apply HF; lia.
    - replace (room_at corner h i j -v h) with (room_at corner h i (j - 1))
        by (unfold room_at; vec). apply HF; lia.
    - replace (room_at corner h i j +v Vector.right h)
        with (room_at corner h (i + 1) j) by (unfold room_at; vec). apply HF; lia.
    - replace (room_at corner h i j -v Vector.right h)
        with (room_at corner h (i - 1) j) by (unfold room_at; vec). apply HF; lia. }
  assert (Hnew : forall i j, 0 <= i < sx + 2 -> 0 <= j < sy + 2 ->
            wallish g' (room_at corner h i j)
            = wall_like (room_tile sx sy eo i j)).
  { intros i j Hi Hj. unfold wallish. rewrite Hin by assumption. reflexivity. }
  unfold placed. cbn [size_x size_y rand_src grid doorways with_grid
                      with_doorways tick].
  split; [reflexivity|]. split; [reflexivity|]. split; [reflexivity|].
  split; [exact Hwf'|]. split; [|split; [|split; [|split]]].
  - intros p Hp.
    destruct (in_dec vec_eq_dec p (footprint h sx sy corner)) as [Hf|Hf].
    + apply in_footprint in Hf as (i & j & Hi & Hj & ->); [|lia].
      destruct (decide (i = eo /\ j = 0)) as [[-> ->]|Hne].
      * rewrite Hin by lia. unfold room_tile. rewrite !Z.eqb_refl. reflexivity.
      * pose proof (Hok i j Hi Hj Hne) as Hw. unfold wallish in Hw.
        rewrite Hp in Hw. discriminate.
    + rewrite Hout by assumption. exact Hp.
  - intros p Hp.
    destruct (in_dec vec_eq_dec p (footprint h sx sy corner)) as [Hf|Hf].
    + apply in_footprint in Hf as (i & j & Hi & Hj & ->); [|lia].
      apply Hok; try assumption. intros [-> ->].
      rewrite Hnew in Hp by assumption. unfold room_tile in Hp.
      rewrite !Z.eqb_refl in Hp. discriminate.
    + unfold wallish in *. rewrite Hout in Hp; assumption.
  - intros p Hp Hp'.
    destruct (in_dec vec_eq_dec p (footprint h sx sy corner)) as [Hf|Hf].
    + apply in_footprint in Hf as (i & j & Hi & Hj & ->); [|lia].
      rewrite Hnew in Hp' by assumption.
      apply room_tile_wall_like in Hp' as [[-> ->]|[Hi' Hj']].
      * right. symmetry. assumption.
      * left. apply Hinner; assumption.
    + unfold wallish in *. rewrite Hout in Hp' by assumption. congruence.
  - replace (e +v h) with (room_at corner h eo 1)
      by (unfold room_at, corner; vec).
    apply Hinner; lia.
  - eexists. split; [reflexivity|]. split; [|split].
    + constructor; [|constructor; [|constructor; [|constructor]]];
        (split; [|split]); cbn [heading location].
      * apply cardinal_left. assumption.
      * replace (corner +v h *v r1) with (room_at corner h 0 r1)
          by (unfold room_at; vec). apply HF; lia.
      * left. replace (corner +v h *v r1 -v Vector.left h)
          with (room_at corner h 1 r1) by (unfold room_at; vec).
        apply Hinner; lia.
      * assumption.
      * replace (corner +v h *v (sy + 1) +v Vector.right h *v r2)
          with (room_at corner h r2 (sy + 1)) by (unfold room_at; vec).
        apply HF; lia.
      * left. replace (corner +v h *v (sy + 1) +v Vector.right h *v r2 -v h)
          with (room_at corner h r2 sy) by (unfold room_at; vec).
        apply Hinner; lia.
      * apply cardinal_right. assumption.
      * apply (HF (sx + 1) r3); lia.
      * left.
        replace (corner +v Vector.right h *v (sx + 1) +v h *v r3 -v Vector.right h)
          with (room_at corner h sx r3) by (unfold room_at; vec).
        apply Hinner; lia.
    + cbn [length].
      match goal with
      | |- (3 * walls ?s + _ <= _)%nat =>
          change (walls s) with (walls (with_grid st g'))
      end.
      assert (walls (with_grid st g') < walls st)%nat; [|lia].
      unfold walls. cbn [grid with_grid].
      change (all_cells (with_grid st g')) with (all_cells st).
      apply (count_strict _ _ _ (room_at corner h 1 1)).
      * intros p _ Hp.
        destruct (in_dec vec_eq_dec p (footprint h sx sy corner)) as [Hf|Hf].
        -- apply in_footprint in Hf as (i & j & Hi & Hj & ->); [|lia].
           apply Hok; try assumption. intros [-> ->].
           rewrite Hnew in Hp by assumption. unfold room_tile in Hp.
           rewrite !Z.eqb_refl in Hp. discriminate.
        -- unfold wallish in *. rewrite Hout in Hp; assumption.
      * apply in_all_cells, HF; lia.
      * apply Hok; lia.
      * rewrite Hnew by lia. unfold room_tile.
        replace ((1 =? eo) && (1 =? 0)) with false by lia.
        replace ((1 <=? 1) && (1 <=? sx) && (1 <=? 1) && (1 <=? sy)) with true by lia.
        reflexivity.
    + intros Hentry Hcorners.
      apply (room_kept (grid st) g' e h sx sy eo r1 r2 r3); assumption.
Qed.

(** The draws of a room are in range. *)
Lemma room_draws_spec st :
  exists sx sy eo,
    room_draws st = (sx, sy, eo, tick (tick (tick st))) /\
    3 <= sx <= 6 /\ 3 <= sy <= 6 /\ 1 <= eo <= sx.
Proof.
  exists (draw 3 6 st), (draw 3 6 (tick st)), (draw 1 (draw 3 6 st) (tick (tick st))).
  split; [reflexivity|].
  pose proof (draw_bounds 3 6 st ltac:(lia)).
  pose proof (draw_bounds 3 6 (tick st) ltac:(lia)).
  pose proof (draw_bounds 1 (draw 3 6 st) (tick (tick st)) ltac:(lia)).
  auto.
Qed.

Lemma dig_room_spec st e h :
  wf st -> Vector.cardinal h ->
  exists b st',
    dig_room e h st = Ok (b, st') /\
    ((b = false /\ idle st st') \/ (b = true /\ placed e h st st')).
Proof.
  intros Hwf Hc. unfold dig_room.
  destruct (room_draws_spec st) as (sx & sy & eo & -> & Hsx & Hsy & Heo).
  set (st3 := tick (tick (tick st))).
  assert (Hwf3 : wf st3) by (repeat apply wf_tick; assumption).
  destruct (forallb (cell_ok st3 e) (footprint h sx sy (e +v Vector.left h *v eo)))
    eqn:Hfeas.
  - destruct (dig_room_sized_placed st3 e h sx sy eo) as (st' & Hrun & Hpl);
      try assumption; try lia.
    exists true, st'. split; [exact Hrun|]. right. split; [reflexivity|].
    apply (placed_idle st st3); [|assumption]. repeat split.
  - exists false, st3. split.
    + unfold dig_room_sized. rewrite room_check_spec by (assumption || lia).
      fold (footprint h sx sy (e +v Vector.left h *v eo)). rewrite Hfeas.
      reflexivity.
    + left. split; [reflexivity|]. repeat split.
Qed.

(** ** A corridor that connects is a placement *)

Lemma is_wall_Ok st v b : is_wall st v = Ok b -> wallish (grid st) v = b.
Proof.
  unfold is_wall, read_tile, wallish.
  destruct (cell (grid st) v); cbn; [intros [= <-]; reflexivity | discriminate].
Qed.

Lemma dig_corridor_sized_spec st e h len :
  wf st -> Vector.cardinal h ->
  exists b st',
    dig_corridor_sized e h len st = Ok (b, st') /\
    ((b = false /\ st' = st) \/
     (b = true /\ placed e h st st' /\ doorways st' = doorways st /\
      exists l,
        corridor_scan e h len st = Ok (Some (l, true)) /\ 2 <= l /\
        (forall k, 1 <= k < l ->
           cell (grid st') (e +v h *v k) = Some TILE_FLOOR) /\
        cell (grid st') (e +v h *v l) = Some TILE_DOOR)).
Proof.
  intros Hwf Hc. unfold dig_corridor_sized.
  assert (Hscan : exists r, corridor_scan e h len st = Ok r)
    by (apply corridor_check_total; assumption).
  destruct Hscan as [r Hr]. rewrite Hr. unfold corridor_scan in Hr.
  cbn [bind].
  destruct r as [[l f]|]; [|exists false, st; auto].
  destruct (l <=? 1) eqn:Hl; [exists false, st; auto|].
  destruct f; cbn [negb]; [|exists false, st; auto].
  apply corridor_check_inv in Hr as (m & Hm & Hsteps & Hend).
  destruct Hend as [(? & _)|(_ & Hlm & Hlt & Hb & Hopen)]; [discriminate|].
  assert (l = m) as -> by lia. clear Hlm.
  assert (Hlong : 2 <= m) by lia.
  assert (Hnat : Z.of_nat (Z.to_nat m) = m) by lia.
  apply is_wall_Ok in Hopen.
  destruct (corridor_dig_run h (Z.to_nat m) e st Hwf Hc)
    as (g' & Hrun & Hwf' & Hopen' & Hfloor).
  { lia. }
  { intros k Hk. destruct (Hsteps k ltac:(lia)) as (Hbk & Hwk & _).
    split; [assumption | apply is_wall_Ok; assumption]. }
  { rewrite Hnat. assumption. }
  { rewrite Hnat. assumption. }
  rewrite Hnat in Hrun, Hopen', Hfloor. rewrite Hrun. cbn [bind].
  apply corridor_dig_effect in Hrun as (g0 & Hg0 & _ & Heff).
  assert (g0 = g') as -> by (injection Hg0; auto). clear Hg0.
  rewrite Hnat in Heff.
  change (is_in_bounds (with_grid st g')) with (is_in_bounds st).
  replace (e +v h *v m +v h) with (e +v h *v (m + 1)) by vec.
  rewrite Hb. cbn [negb].
  rewrite is_wall_wallish
    by (apply Hwf'; apply (in_bounds_border st); assumption).
  cbn [grid with_grid]. rewrite Hopen'. cbn [bind]. unfold door_tile.
  assert (Hbm : is_in_bounds st (e +v h *v m) = true) by (apply Hsteps; lia).
  destruct (write_tile_spec (with_grid st g') (e +v h *v m) TILE_DOOR Hwf')
    as (g'' & -> & Hwf'' & Hg''); [apply (in_bounds_border st); assumption|].
  cbn [bind grid with_grid] in *.
  exists true. eexists. split; [reflexivity|]. right. split; [reflexivity|].
  split; [|split; [reflexivity|]].
  assert (Hmono : forall p, wallish g'' p = true -> wallish (grid st) p = true).
  { intros p. unfold wallish at 1. rewrite Hg''.
    destruct (Vector.eqb (e +v h *v m) p); [discriminate|].
    destruct (Heff p) as [Hp|[[Hp _]|[Hp (k & Hk & Hq)]]];
      rewrite Hp; [auto | discriminate |].
    intros _. destruct (Hsteps k ltac:(lia)) as (_ & _ & Hwl & Hwr & _).
    apply is_wall_Ok in Hwl, Hwr. destruct Hq as [-> | ->]; assumption. }
  unfold placed. cbn [size_x size_y rand_src grid doorways with_grid].
  split; [reflexivity|]. split; [reflexivity|]. split; [reflexivity|].
  split; [exact Hwf''|]. split; [|split; [exact Hmono|split; [|split]]].
  - intros p Hp.
    assert (Hnodoor : forall k, 1 <= k <= m -> p <> e +v h *v k).
    { intros k Hk ->. destruct (Hsteps k Hk) as (_ & Hw & _).
      apply is_wall_Ok in Hw. unfold wallish in Hw. rewrite Hp in Hw.
      discriminate. }
    rewrite Hg''. destruct (Vector.eqb (e +v h *v m) p) eqn:E.
    { apply vec_eqb_spec in E. exfalso. apply (Hnodoor m); [lia | congruence]. }
    destruct (Heff p) as [Hq|[[_ (k & Hk & Hq)]|[_ (k & Hk & Hq)]]].
    + rewrite Hq. exact Hp.
    + exfalso. apply (Hnodoor k); assumption.
    + exfalso. destruct (Hsteps k ltac:(lia)) as (_ & _ & Hwl & Hwr & _).
      apply is_wall_Ok in Hwl, Hwr. unfold wallish in Hwl, Hwr.
      destruct Hq as [-> | ->]; [rewrite Hp in Hwl | rewrite Hp in Hwr];
        discriminate.
  - intros p Hp. unfold wallish at 1. rewrite Hg''.
    destruct (Vector.eqb (e +v h *v m) p) eqn:E.
    { apply vec_eqb_spec in E. subst p. auto. }
    destruct (Heff p) as [Hq|[[Hq (k & Hk & ->)]|[Hq _]]]; rewrite Hq.
    + unfold wallish in Hp. congruence.
    + intros _. left. apply Hsteps. lia.
    + discriminate.
  - replace (e +v h) with (e +v h *v 1) by vec. apply Hsteps. lia.
  - exists []. split; [symmetry; apply app_nil_r|]. split; [constructor|].
    split.
    + cbn [length].
      assert (walls (with_grid (with_grid st g') g'') <= walls st)%nat; [|lia].
      unfold walls. cbn [grid with_grid].
      change (all_cells (with_grid (with_grid st g') g'')) with (all_cells st).
      apply count_mono. intros p _. apply Hmono.
    + intros Hentry Hcorners.
      apply (corridor_kept (grid st) g' g'' e h m);
        [assumption | lia | | exact Heff | exact Hg'' | assumption | assumption].
      intros k Hk. destruct (Hsteps k Hk) as (_ & Hwc & Hwl & Hwr & Hpw).
      apply is_wall_Ok in Hwc, Hwl, Hwr.
      split; [exact Hwc|]. split; [|split; assumption].
      unfold is_permawall, read_tile in Hpw.
      destruct (cell (grid st) (e +v h *v k)) as [[]|]; cbn in Hpw; congruence.
  - exists m. split; [reflexivity|]. split; [exact Hlong|].
    cbn [grid with_grid]. split.
    + intros k Hk. rewrite Hg'', centre_distinct by (assumption || lia).
      apply Hfloor. lia.
    + rewrite Hg''.
      replace (Vector.eqb (e +v h *v m) (e +v h *v m)) with true
        by (symmetry; apply vec_eqb_spec; reflexivity).
      reflexivity.
Qed.

Lemma dig_corridor_spec st e h :
  wf st -> Vector.cardinal h ->
  exists b st',
    dig_corridor e h st = Ok (b, st') /\
    ((b = false /\ idle st st') \/
     (b = true /\ placed e h st st' /\ doorways st' = doorways st /\
      exists l,
        corridor_scan e h (draw 2 6 st) (tick st) = Ok (Some (l, true)) /\
        2 <= l /\
        (forall k, 1 <= k < l ->
           cell (grid st') (e +v h *v k) = Some TILE_FLOOR) /\
        cell (grid st') (e +v h *v l) = Some TILE_DOOR)).
Proof.
  intros Hwf Hc. unfold dig_corridor. rewrite rand_range_eq.
  destruct (dig_corridor_sized_spec (tick st) e h (draw 2 6 st))
    as (b & st' & Hrun & Hres); [apply wf_tick; assumption | assumption |].
  exists b, st'. split; [exact Hrun|].
  destruct Hres as [[-> ->]|(-> & Hpl & Hd & Hcells)].
  - left. split; [reflexivity | apply idle_tick].
  - right. split; [reflexivity|]. split; [|split; [exact Hd | exact Hcells]].
    apply (placed_idle st (tick st)); [apply idle_tick | assumption].
Qed.

(** ** [dig_random] *)

Lemma dig_random_tries_spec n : forall st e h,
  wf st -> Vector.cardinal h ->
  exists b st',
    dig_random_tries n e h st = Ok (b, st') /\
    ((b = false /\ idle st st') \/ (b = true /\ placed e h st st')).
Proof.
  induction n as [|n IH]; intros st e h Hwf Hc.
  - exists false, st. split; [reflexivity|]. left. split; [reflexivity | apply idle_refl].
  - cbn [dig_random_tries]. rewrite rand_range_eq.
    assert (Hwf1 : wf (tick st)) by (apply wf_tick; assumption).
    assert (Hattempt : exists b st',
      (if draw 0 1 st =? 1 then dig_corridor e h (tick st)
       else dig_room e h (tick st)) = Ok (b, st') /\
      ((b = false /\ idle (tick st) st') \/ (b = true /\ placed e h (tick st) st'))).
    { destruct (draw 0 1 st =? 1).
      - destruct (dig_corridor_spec (tick st) e h Hwf1 Hc) as (b & st' & Hrun & Hres).
        exists b, st'. split; [exact Hrun|]. tauto.
      - apply dig_room_spec; assumption. }
    destruct Hattempt as (b & st' & -> & Hres). cbn [bind].
    destruct Hres as [[-> Hidle]|[-> Hpl]].
    + destruct (IH st' e h) as (b & st'' & Hrun & Hres);
        [apply (wf_idle (tick st)); assumption | assumption |].
      exists b, st''. split; [exact Hrun|].
      assert (idle st st') by (apply (idle_trans _ (tick st)); [apply idle_tick | assumption]).
      destruct Hres as [[-> Hidle']|[-> Hpl]].
      * left. split; [reflexivity|]. apply (idle_trans _ st'); assumption.
      * right. split; [reflexivity|]. apply (placed_idle st st'); assumption.
    + exists true, st'. split; [reflexivity|]. right. split; [reflexivity|].
      apply (placed_idle st (tick st)); [apply idle_tick | assumption].
Qed.

(** * The invariant of the worklist loop *)

Lemma in_bounds_ext st st' p :
  size_x st' = size_x st -> size_y st' = size_y st ->
  is_in_bounds st' p = is_in_bounds st p.
Proof. unfold is_in_bounds. intros -> ->. reflexivity. Qed.

Lemma in_bounds_or_border_ext st st' p :
  size_x st' = size_x st -> size_y st' = size_y st ->
  is_in_bounds_or_border st' p = is_in_bounds_or_border st p.
Proof. unfold is_in_bounds_or_border. intros -> ->. reflexivity. Qed.

Lemma door_ok_ext st st' d :
  size_x st' = size_x st -> size_y st' = size_y st ->
  door_ok st d -> door_ok st' d.
Proof.
  intros Hx Hy. unfold door_ok, map_entrance.
  rewrite (in_bounds_ext st st'), (in_bounds_or_border_ext st st'), Hx, Hy
    by assumption.
  exact id.
Qed.

Lemma all_cells_ext st st' :
  size_x st' = size_x st -> size_y st' = size_y st ->
  all_cells st' = all_cells st.
Proof. unfold all_cells. intros -> ->. reflexivity. Qed.

Lemma walls_mono st st' :
  size_x st' = size_x st -> size_y st' = size_y st ->
  (forall p, wallish (grid st') p = true -> wallish (grid st) p = true) ->
  (walls st' <= walls st)%nat.
Proof.
  intros Hx Hy H. unfold walls. rewrite (all_cells_ext st st') by assumption.
  apply count_mono. intros p _. apply H.
Qed.



Lemma connect_doorway_spec door st :
  wf st -> is_in_bounds_or_border st (location door) = true ->
  exists g',
    connect_doorway door st = Ok (with_grid st g') /\
    wf (with_grid st g') /\
    (forall p, p <> location door -> cell g' p = cell (grid st) p) /\
    (forall p, wallish g' p = true -> wallish (grid st) p = true) /\
    (forall p, cell (grid st) p = Some TILE_DOOR -> cell g' p = Some TILE_DOOR).
Proof.
  intros Hwf Hloc.
  assert (Hput : forall t, wall_like t = false ->
    t = TILE_DOOR \/ wallish (grid st) (location door) = true ->
    exists g',
      write_tile st (location door) t = Ok (with_grid st g') /\
      wf (with_grid st g') /\
      (forall p, p <> location door -> cell g' p = cell (grid st) p) /\
      (forall p, wallish g' p = true -> wallish (grid st) p = true) /\
      (forall p, cell (grid st) p = Some TILE_DOOR -> cell g' p = Some TILE_DOOR)).
  { intros t Ht Hcase.
    destruct (write_tile_spec st (location door) t Hwf Hloc) as (g' & Hrun & Hwf' & Hg').
    exists g'. split; [exact Hrun|]. split; [exact Hwf'|]. split; [|split].
    - intros p Hp. rewrite Hg'. destruct (Vector.eqb _ p) eqn:E; [|reflexivity].
      apply vec_eqb_spec in E. congruence.
    - intros p. unfold wallish. rewrite Hg'.
      destruct (Vector.eqb _ p); [congruence | auto].
    - intros p Hp. rewrite Hg'. destruct (Vector.eqb _ p) eqn:E; [|exact Hp].
      apply vec_eqb_spec in E. subst p. destruct Hcase as [-> | Hw]; [reflexivity|].
      unfold wallish in Hw. rewrite Hp in Hw. discriminate. }
  unfold connect_doorway. destruct (has_door door).
  - apply Hput; [reflexivity | left; reflexivity].
  - rewrite is_wall_wallish by (apply Hwf; assumption). cbn [bind].
    destruct (wallish (grid st) (location door)) eqn:Hw.
    + apply Hput; [reflexivity | right; reflexivity].
    + exists (grid st). split; [destruct st; reflexivity|].
      split; [exact Hwf|]. auto.
Qed.

(** One iteration keeps the invariant and lowers the measure. *)
Lemma dig_step_spec st :
  Inv st -> doorways st <> [] ->
  exists st', dig_step st = Ok st' /\ Inv st' /\ (measure st' < measure st)%nat.
Proof.
  intros (Hwf & Hdoors & Hborder & Hent) Hne. unfold dig_step.
  rewrite rand_range_eq.
  assert (Hlen : (0 < length (doorways st))%nat)
    by (destruct (doorways st); [congruence | cbn; lia]).
  pose proof (draw_bounds 0 (Z.of_nat (length (doorways st)) - 1) st ltac:(lia))
    as Hwhich.
  set (which := draw 0 (Z.of_nat (length (doorways st)) - 1) st) in *.
  clearbody which.
  replace (which <? 0) with false by lia.
  change (doorways (tick st)) with (doorways st).
  destruct (doorways st !! Z.to_nat which) as [door|] eqn:Hdoor;
    [|apply lookup_ge_None in Hdoor; lia].
  assert (Hok : door_ok st door)
    by (rewrite Forall_lookup in Hdoors; eapply Hdoors; eauto).
  destruct Hok as (Hcard & Hloc & Hbehind).
  set (st1 := with_doorways (tick st) (delete (Z.to_nat which) (doorways st))).
  assert (Hwf1 : wf st1) by (apply wf_with_doorways, wf_tick, Hwf).
  assert (Hlen1 : length (doorways st1) = (length (doorways st) - 1)%nat)
    by (apply length_delete; eauto).
  assert (Hdoors1 : Forall (door_ok st) (doorways st1))
    by (apply Forall_delete; assumption).
  destruct (dig_random_tries_spec max_tries st1 (location door) (heading door)
              Hwf1 Hcard) as (b & st2 & Hrun & Hres).
  unfold dig_random. rewrite Hrun. cbn [bind].
  destruct Hres as [[-> Hidle] | [-> Hpl]].
  - exists st2. split; [reflexivity|].
    destruct Hidle as (Hg & Hsx & Hsy & Hds & Hsrc).
    change (grid st1) with (grid st) in Hg.
    change (size_x st1) with (size_x st) in Hsx.
    change (size_y st1) with (size_y st) in Hsy.
    split; [split; [|split; [|split]]|].
    + apply (wf_idle st1); [repeat split; assumption | assumption].
    + rewrite Hds. eapply Forall_impl; [exact Hdoors1|].
      intros d. apply door_ok_ext; assumption.
    + intros p. unfold map_entrance.
      rewrite (in_bounds_ext st st2), (in_bounds_or_border_ext st st2), Hg, Hsx, Hsy
        by assumption.
      apply Hborder.
    + unfold map_entrance. rewrite Hg, Hsx, Hsy. exact Hent.
    + unfold measure, walls. rewrite (all_cells_ext st st2), Hg, Hds by assumption.
      lia.
  - destruct Hpl as (Hsx & Hsy & Hsrc & Hwf2 & Hkeep & Hmono & Hcarve & Hahead
                     & new & Hds & Hnew & Hmeas & _).
    change (grid st1) with (grid st) in Hkeep, Hmono, Hcarve.
    change (size_x st1) with (size_x st) in Hsx.
    change (size_y st1) with (size_y st) in Hsy.
    change (is_in_bounds st1) with (is_in_bounds st) in Hcarve, Hahead.
    change (walls st1) with (walls st) in Hmeas.
    destruct (connect_doorway_spec door st2 Hwf2)
      as (g3 & Hfin & Hwf3 & Hg3 & Hmono3 & Hkeep3).
    { rewrite (in_bounds_or_border_ext st st2) by assumption. assumption. }
    rewrite Hfin. exists (with_grid st2 g3). split; [reflexivity|].
    split; [split; [|split; [|split]]|].
    + exact Hwf3.
    + change (doorways (with_grid st2 g3)) with (doorways st2). rewrite Hds.
      apply Forall_app. split.
      * eapply Forall_impl; [exact Hdoors1|].
        intros d. apply door_ok_ext; assumption.
      * eapply Forall_impl; [exact Hnew|].
        intros d. apply (door_ok_ext st1); assumption.
    + intros p. unfold map_entrance.
      change (is_in_bounds_or_border (with_grid st2 g3))
        with (is_in_bounds_or_border st2).
      change (is_in_bounds (with_grid st2 g3)) with (is_in_bounds st2).
      change (size_x (with_grid st2 g3)) with (size_x st2).
      change (size_y (with_grid st2 g3)) with (size_y st2).
      change (grid (with_grid st2 g3)) with g3.
      rewrite (in_bounds_ext st st2), (in_bounds_or_border_ext st st2), Hsx, Hsy
        by assumption.
      intros Hp Hnb Hpe.
      destruct (vec_eq_dec p (location door)) as [->|Hpd].
      * exfalso. destruct Hbehind as [Hbehind|Hbehind]; [|contradiction].
        pose proof (inner_between st (heading door) (location door)
                      Hcard Hahead Hbehind). congruence.
      * unfold wallish. rewrite Hg3 by assumption. fold (wallish (grid st2) p).
        destruct (wallish (grid st2) p) eqn:E; [reflexivity|].
        destruct (Hcarve p (Hborder p Hp Hnb Hpe) E); congruence.
    + unfold map_entrance.
      change (size_x (with_grid st2 g3)) with (size_x st2).
      change (size_y (with_grid st2 g3)) with (size_y st2).
      change (grid (with_grid st2 g3)) with g3.
      rewrite Hsx, Hsy. apply Hkeep3, Hkeep, Hent.
    + unfold measure.
      change (doorways (with_grid st2 g3)) with (doorways st2). rewrite Hds.
      rewrite length_app, Hlen1.
      assert (walls (with_grid st2 g3) <= walls st2)%nat
        by (apply walls_mono; [reflexivity | reflexivity | exact Hmono3]).
      lia.
Qed.

(** ** Seeding *)

Lemma cell_init_map sx sy src p t :
  cell (grid (init_map sx sy src)) p = Some t -> t = TILE_UNKNOWN.
Proof.
  unfold cell, init_map. cbn [grid].
  destruct (_ && _); [|discriminate].
  destruct (replicate (Z.to_nat sy) _ !! _) as [row|] eqn:Hrow; [|discriminate].
  apply lookup_replicate in Hrow as [-> _]. intros H.
  apply lookup_replicate in H as [-> _]. reflexivity.
Qed.

Lemma write_tile_oob st v t :
  wf st -> is_in_bounds_or_border st v = false ->
  write_tile st v t = OutOfBounds.
Proof.
  intros Hwf Hv. unfold write_tile.
  destruct (cell (grid st) v) eqn:E; [|reflexivity].
  assert (is_in_bounds_or_border st v = true) by (apply Hwf; eauto). congruence.
Qed.

(** On a grid at least three cells wide and one cell high the seeding
    succeeds and establishes the invariant. *)
Lemma dig_seed_spec sx sy src :
  3 <= sx -> 1 <= sy ->
  exists st0,
    dig_seed (init_map sx sy src) = Ok st0 /\ Inv st0 /\
    size_x st0 = sx /\ size_y st0 = sy /\ length (doorways st0) = 1%nat.
Proof.
  intros Hsx Hsy. set (st := init_map sx sy src).
  pose proof (wf_init_map sx sy src) as Hwf. fold st in Hwf.
  assert (Hq : 1 <= Z.quot sx 2 <= sx - 2)
    by (Z.to_euclidean_division_equations; lia).
  set (d := mkDoorway (map_entrance st) (Vector.mk 0 (-1)) true).
  assert (Hwf0 : wf (push_doorway st d)) by (apply wf_with_doorways, Hwf).
  unfold dig_seed. fold d. unfold door_tile, fill_tile.
  destruct (write_tile_spec (push_doorway st d) (map_entrance st) TILE_DOOR Hwf0)
    as (g1 & -> & Hwf1 & Hg1).
  { unfold is_in_bounds_or_border, map_entrance, st, init_map.
    cbn [size_x size_y Vector.x Vector.y Vector.add Vector.sub with_grid
         push_doorway with_doorways].
    lia. }
  cbn [bind].
  destruct (write_tile_spec _ (map_entrance st +v Vector.mk 1 0) TILE_WALL Hwf1)
    as (g2 & -> & Hwf2 & Hg2).
  { unfold is_in_bounds_or_border, map_entrance, st, init_map.
    cbn [size_x size_y Vector.x Vector.y Vector.add Vector.sub with_grid
         push_doorway with_doorways].
    lia. }
  cbn [bind].
  destruct (write_tile_spec _ (map_entrance st -v Vector.mk 1 0) TILE_WALL Hwf2)
    as (g3 & -> & Hwf3 & Hg3).
  { unfold is_in_bounds_or_border, map_entrance, st, init_map.
    cbn [size_x size_y Vector.x Vector.y Vector.add Vector.sub with_grid
         push_doorway with_doorways].
    lia. }
  eexists. split; [reflexivity|].
  split; [|split; [reflexivity|split; reflexivity]].
  split; [exact Hwf3|]. split; [|split].
  - constructor; [|constructor]. split; [|split].
    + left. reflexivity.
    + unfold is_in_bounds_or_border, d, map_entrance, st, init_map.
      cbn [size_x size_y Vector.x Vector.y location with_grid push_doorway
           with_doorways].
      lia.
    + right. reflexivity.
  - intros p Hp _ Hne. cbn [grid with_grid push_doorway with_doorways] in *.
    change (map_entrance _) with (map_entrance st) in Hne.
    unfold wallish. rewrite Hg3.
    destruct (Vector.eqb (map_entrance st -v Vector.mk 1 0) p); [reflexivity|].
    rewrite Hg2.
    destruct (Vector.eqb (map_entrance st +v Vector.mk 1 0) p); [reflexivity|].
    rewrite Hg1.
    destruct (Vector.eqb (map_entrance st) p) eqn:E.
    { apply vec_eqb_spec in E. congruence. }
    destruct (cell (grid st) p) as [t|] eqn:Ec.
    + apply cell_init_map in Ec. subst t. reflexivity.
    + assert (is_Some (cell (grid st) p)) as [? ?] by (apply Hwf; exact Hp).
      congruence.
  - cbn [grid with_grid]. change (map_entrance _) with (map_entrance st).
    rewrite Hg3, Hg2, Hg1.
    replace (Vector.eqb (map_entrance st -v Vector.mk 1 0) (map_entrance st))
      with false by (unfold Vector.eqb, map_entrance; cbn; lia).
    replace (Vector.eqb (map_entrance st +v Vector.mk 1 0) (map_entrance st))
      with false by (unfold Vector.eqb, map_entrance; cbn; lia).
    replace (Vector.eqb (map_entrance st) (map_entrance st))
      with true by (symmetry; apply vec_eqb_spec; reflexivity).
    reflexivity.
Qed.

(** On any narrower or empty grid the seeding writes outside the grid. *)
Lemma dig_seed_crash sx sy src :
  sx < 3 \/ sy < 1 -> dig_seed (init_map sx sy src) = OutOfBounds.
Proof.
  intros Hsmall. set (st := init_map sx sy src).
  pose proof (wf_init_map sx sy src) as Hwf. fold st in Hwf.
  set (d := mkDoorway (map_entrance st) (Vector.mk 0 (-1)) true).
  assert (Hwf0 : wf (push_doorway st d)) by (apply wf_with_doorways, Hwf).
  unfold dig_seed. fold d. unfold door_tile, fill_tile.
  destruct (is_in_bounds_or_border st (map_entrance st)) eqn:He.
  - destruct (write_tile_spec (push_doorway st d) (map_entrance st) TILE_DOOR Hwf0 He)
      as (g1 & -> & Hwf1 & _).
    cbn [bind]. rewrite write_tile_oob; [reflexivity | exact Hwf1 |].
    unfold is_in_bounds_or_border, map_entrance, st, init_map in *.
    cbn [size_x size_y Vector.x Vector.y Vector.add with_grid push_doorway
         with_doorways] in *.
    assert (sx = 1 \/ sx = 2) as [-> | ->] by lia;
      change (Z.quot 1 2) with 0; change (Z.quot 2 2) with 1; lia.
  - rewrite write_tile_oob; [reflexivity | exact Hwf0 | exact He].
Qed.

(** ** Draining *)

Lemma dig_drain_Inv fuel : forall st,
  Inv st ->
  match dig_drain fuel st with
  | Done st' | Running st' => Inv st'
  | Crashed => False
  end.
Proof.
  induction fuel as [|fuel IH]; intros st HI.
  - cbn. destruct (doorways st); exact HI.
  - cbn [dig_drain]. destruct (doorways st) as [|d ds] eqn:Hd; [exact HI|].
    destruct (dig_step_spec st HI) as (st' & -> & HI' & _); [congruence|].
    apply IH. exact HI'.
Qed.


(** * Permawalls across one iteration of the loop *)

Lemma orth_back h p : Vector.cardinal h -> orth (p -v h) p.
Proof.
  intros Hc. unfold orth.
  cardinal_cases Hc;
    solve [left; vec | right; left; vec | right; right; left; vec
           | right; right; right; vec].
Qed.

Lemma orth_diag_x p dx dy :
  dy = 1 \/ dy = -1 -> orth (p +v Vector.mk dx dy) (p +v Vector.mk dx 0).
Proof.
  intros [-> | ->]; unfold orth;
    solve [left; vec | right; left; vec | right; right; left; vec
           | right; right; right; vec].
Qed.

Lemma orth_diag_y p dx dy :
  dx = 1 \/ dx = -1 -> orth (p +v Vector.mk dx dy) (p +v Vector.mk 0 dy).
Proof.
  intros [-> | ->]; unfold orth;
    solve [left; vec | right; left; vec | right; right; left; vec
           | right; right; right; vec].
Qed.

(** The choice the loop makes and what [dig_random] then does. *)
Lemma dig_step_cases st :
  wf st -> Forall (door_ok st) (doorways st) -> doorways st <> [] ->
  exists i door b st2,
    doorways st !! i = Some door /\
    ((b = false /\
      idle (with_doorways (tick st) (delete i (doorways st))) st2 /\
      dig_step st = Ok st2) \/
     (b = true /\
      placed (location door) (heading door)
             (with_doorways (tick st) (delete i (doorways st))) st2 /\
      dig_step st = connect_doorway door st2)).
Proof.
  intros Hwf Hdoors Hne. unfold dig_step. rewrite rand_range_eq.
  assert (Hlen : (0 < length (doorways st))%nat)
    by (destruct (doorways st); [congruence | cbn; lia]).
  pose proof (draw_bounds 0 (Z.of_nat (length (doorways st)) - 1) st ltac:(lia))
    as Hwhich.
  set (which := draw 0 (Z.of_nat (length (doorways st)) - 1) st) in *.
  clearbody which.
  replace (which <? 0) with false by lia.
  change (doorways (tick st)) with (doorways st).
  destruct (doorways st !! Z.to_nat which) as [door|] eqn:Hdoor;
    [|apply lookup_ge_None in Hdoor; lia].
  assert (Hok : door_ok st door)
    by (rewrite Forall_lookup in Hdoors; eapply Hdoors; eauto).
  destruct Hok as (Hcard & _).
  set (st1 := with_doorways (tick st) (delete (Z.to_nat which) (doorways st))).
  assert (Hwf1 : wf st1) by (apply wf_with_doorways, wf_tick, Hwf).
  destruct (dig_random_tries_spec max_tries st1 (location door) (heading door)
              Hwf1 Hcard) as (b & st2 & Hrun & Hres).
  exists (Z.to_nat which), door, b, st2. split; [exact Hdoor|].
  unfold dig_random. rewrite Hrun. cbn [bind].
  destruct Hres as [[-> Hidle] | [-> Hpl]]; [left | right]; auto.
Qed.

(** One iteration keeps the second invariant, and whatever it does to a
    permawall is to reset it to plain wall. *)
Lemma dig_step_kept st :
  Inv st -> Inv2 st -> doorways st <> [] ->
  exists st',
    dig_step st = Ok st' /\ Inv2 st' /\
    forall p, cell (grid st) p = Some TILE_PERMAWALL ->
      cell (grid st') p = Some TILE_PERMAWALL \/
      cell (grid st') p = Some TILE_WALL.
Proof.
  intros (Hwf & Hdoors & _ & _) (Hentries & Hcorners) Hne.
  destruct (dig_step_cases st Hwf Hdoors Hne)
    as (i & door & b & st2 & Hdoor & Hres).
  set (st1 := with_doorways (tick st) (delete i (doorways st))) in *.
  assert (Hok : door_ok st door)
    by (rewrite Forall_lookup in Hdoors; eapply Hdoors; eauto).
  destruct Hok as (Hcard & Hloc & _).
  assert (Hen : has_door door = true /\
                entry_ok (grid st) (location door) (heading door))
    by (rewrite Forall_lookup in Hentries; apply (Hentries i); exact Hdoor).
  destruct Hen as (Hhd & Hentry).
  assert (Hdoors1 : Forall (door_ok st) (delete i (doorways st)))
    by (apply Forall_delete; assumption).
  assert (Hentries1 :
            Forall (fun d => has_door d = true /\
                             entry_ok (grid st) (location d) (heading d))
                   (delete i (doorways st)))
    by (apply Forall_delete; assumption).
  destruct Hres as [(-> & Hidle & Hstep)|(-> & Hpl & Hstep)].
  - exists st2. split; [exact Hstep|].
    destruct Hidle as (Hg & _ & _ & Hds & _).
    change (grid st1) with (grid st) in Hg.
    change (doorways st1) with (delete i (doorways st)) in Hds.
    split; [split|].
    + rewrite Hds, Hg. exact Hentries1.
    + rewrite Hg. exact Hcorners.
    + intros p Hp. left. rewrite Hg. exact Hp.
  - destruct Hpl as (Hsx & Hsy & _ & Hwf2 & Hkeep & _ & _ & _
                     & new & Hds & _ & _ & Hkept).
    change (grid st1) with (grid st) in Hkeep, Hkept.
    change (size_x st1) with (size_x st) in Hsx.
    change (size_y st1) with (size_y st) in Hsy.
    change (doorways st1) with (delete i (doorways st)) in Hds.
    destruct (Hkept Hentry Hcorners) as (K1 & K2 & K3 & K4 & K5 & K6 & K7).
    clear Hkept.
    unfold connect_doorway in Hstep. rewrite Hhd in Hstep. unfold door_tile in Hstep.
    set (e := location door) in *. set (g := grid st) in *.
    set (g2 := grid st2) in *.
    destruct (write_tile_spec st2 e TILE_DOOR Hwf2) as (g3 & Hw & _ & Hg3).
    { rewrite (in_bounds_or_border_ext st st2) by assumption. exact Hloc. }
    fold g2 in Hg3.
    rewrite Hw in Hstep. exists (with_grid st2 g3). split; [exact Hstep|].
    unfold Inv2. cbn [grid with_grid doorways].
    destruct Hentry as [He_nf He_behind].
    assert (He2_nf : cell g2 e <> Some TILE_FLOOR)
      by (destruct K5 as [E|E]; rewrite E; [discriminate | exact He_nf]).
    assert (H3F : forall p, cell g2 p = Some TILE_FLOOR ->
                            cell g3 p = Some TILE_FLOOR).
    { intros p Hp. rewrite Hg3. destruct (Vector.eqb e p) eqn:E; [|exact Hp].
      apply vec_eqb_spec in E. subst p. contradiction. }
    assert (H3nF : forall p, cell g2 p <> Some TILE_FLOOR ->
                             cell g3 p <> Some TILE_FLOOR).
    { intros p Hp. rewrite Hg3.
      destruct (Vector.eqb e p); [discriminate | exact Hp]. }
    assert (HnewF : forall p q, cell g p <> Some TILE_FLOOR -> orth q p ->
                      cell g q = Some TILE_FLOOR -> cell g2 p <> Some TILE_FLOOR).
    { intros p q Hp Hq Hfl H2. destruct (K2 p H2) as [?|Hall]; [contradiction|].
      destruct (Hall q Hq) as [Hw'| ->].
      - pose proof (wallish_tile _ _ _ Hw' Hfl). discriminate.
      - contradiction. }
    split; [split|].
    + rewrite Hds. apply Forall_app. split.
      * rewrite Forall_forall in Hdoors1, Hentries1. apply Forall_forall.
        intros d Hd. destruct (Hdoors1 d Hd) as (Hc' & _).
        destruct (Hentries1 d Hd) as (Hhd' & Hnf' & Hbeh').
        split; [exact Hhd'|]. split.
        -- apply H3nF. destruct Hbeh' as [Hb|Hb].
           ++ apply (HnewF _ (location d -v heading d));
                [exact Hnf' | apply orth_back; exact Hc' | exact Hb].
           ++ rewrite (Hkeep _ Hb). discriminate.
        -- destruct Hbeh' as [Hb|Hb].
           ++ left. apply H3F, K1, Hb.
           ++ right. rewrite Hg3.
              destruct (Vector.eqb e (location d)); [reflexivity|].
              apply Hkeep, Hb.
      * eapply Forall_impl; [exact K4|].
        intros d (Hhd' & Hnf' & Hfl'). split; [exact Hhd'|].
        split; [apply H3nF, Hnf' | left; apply H3F, Hfl'].
    + intros p Hp. rewrite Hg3 in Hp.
      destruct (Vector.eqb e p) eqn:E; [discriminate|].
      destruct (K3 p Hp) as [Hold|(dx & dy & Hdx & Hdy & HF & HA & HB)].
      * destruct (Hcorners p Hold) as (dx & dy & Hdx & Hdy & HF & HA & HB).
        exists dx, dy. split; [exact Hdx|]. split; [exact Hdy|].
        split; [apply H3F, K1, HF|]. split; apply H3nF.
        -- apply (HnewF _ (p +v Vector.mk dx dy));
             [exact HA | apply orth_diag_x; exact Hdy | exact HF].
        -- apply (HnewF _ (p +v Vector.mk dx dy));
             [exact HB | apply orth_diag_y; exact Hdx | exact HF].
      * exists dx, dy. split; [exact Hdx|]. split; [exact Hdy|].
        split; [apply H3F, HF|]. split; apply H3nF; assumption.
    + intros p Hp. rewrite Hg3.
      destruct (Vector.eqb e p) eqn:E.
      { apply vec_eqb_spec in E. subst p. contradiction. }
      apply K6, Hp.
Qed.

Lemma dig_seed_Inv2 sx sy src st0 :
  dig_seed (init_map sx sy src) = Ok st0 -> Inv2 st0.
Proof.
  set (st := init_map sx sy src). set (e := map_entrance st).
  unfold dig_seed, door_tile, fill_tile. fold e.
  set (d := mkDoorway e (Vector.mk 0 (-1)) true).
  destruct (write_tile (push_doorway st d) e TILE_DOOR) as [s1|] eqn:E1;
    cbn [bind]; [|discriminate].
  apply write_tile_inv in E1 as [S1 ->].
  destruct (write_tile _ (e +v Vector.mk 1 0) TILE_WALL) as [s2|] eqn:E2;
    cbn [bind]; [|discriminate].
  apply write_tile_inv in E2 as [S2 ->].
  intros E3. apply write_tile_inv in E3 as [S3 ->].
  cbn [grid with_grid push_doorway with_doorways] in *.
  assert (Hcell : forall p,
            cell (store (store (store (grid st) e TILE_DOOR)
                               (e +v Vector.mk 1 0) TILE_WALL)
                        (e -v Vector.mk 1 0) TILE_WALL) p
            = if Vector.eqb (e -v Vector.mk 1 0) p then Some TILE_WALL
              else if Vector.eqb (e +v Vector.mk 1 0) p then Some TILE_WALL
              else if Vector.eqb e p then Some TILE_DOOR
              else cell (grid st) p).
  { intros p. rewrite !cell_store by assumption. reflexivity. }
  split.
  - cbn [doorways grid]. constructor; [|constructor].
    split; [reflexivity|]. unfold entry_ok, d.
    cbn [location heading grid with_grid].
    assert (Hdoor : cell (store (store (store (grid st) e TILE_DOOR)
                                       (e +v Vector.mk 1 0) TILE_WALL)
                                (e -v Vector.mk 1 0) TILE_WALL) e
                    = Some TILE_DOOR).
    { rewrite Hcell.
      replace (Vector.eqb (e -v Vector.mk 1 0) e) with false
        by (unfold Vector.eqb; destruct e; cbn; lia).
      replace (Vector.eqb (e +v Vector.mk 1 0) e) with false
        by (unfold Vector.eqb; destruct e; cbn; lia).
      replace (Vector.eqb e e) with true
        by (symmetry; apply vec_eqb_spec; reflexivity).
      reflexivity. }
    split; [rewrite Hdoor; discriminate | right; exact Hdoor].
  - intros p Hp. cbn [grid] in Hp. rewrite Hcell in Hp.
    destruct (Vector.eqb (e -v Vector.mk 1 0) p); [discriminate|].
    destruct (Vector.eqb (e +v Vector.mk 1 0) p); [discriminate|].
    destruct (Vector.eqb e p); [discriminate|].
    apply cell_init_map in Hp. discriminate.
Qed.

Lemma dig_drain_Inv2 fuel : forall st,
  Inv st -> Inv2 st ->
  match dig_drain fuel st with
  | Done st' | Running st' => Inv st' /\ Inv2 st'
  | Crashed => False
  end.
Proof.
  induction fuel as [|fuel IH]; intros st HI HJ.
  - cbn. destruct (doorways st); auto.
  - cbn [dig_drain]. destruct (doorways st) as [|d ds] eqn:Hd; [auto|].
    destruct (dig_step_spec st HI) as (st' & Hs & HI' & _); [congruence|].
    destruct (dig_step_kept st HI HJ) as (st'' & Hs' & HJ' & _); [congruence|].
    rewrite Hs in Hs'. injection Hs' as <-. rewrite Hs.
    apply IH; assumption.
Qed.

Lemma dig_drain_S fuel : forall st st',
  dig_drain fuel st = Running st' ->
  dig_drain (S fuel) st
  = match dig_step st' with
    | Ok st'' => dig_drain 0 st''
    | OutOfBounds => Crashed
    end.
Proof.
  induction fuel as [|fuel IH]; intros st st' H.
  - cbn [dig_drain] in *. destruct (doorways st); [discriminate|].
    injection H as <-. reflexivity.
  - cbn [dig_drain] in H. change (dig_drain (S (S fuel)) st)
      with (match doorways st with
            | [] => Done st
            | _ :: _ => match dig_step st with
                        | Ok s => dig_drain (S fuel) s
                        | OutOfBounds => Crashed
                        end
            end).
    destruct (doorways st); [discriminate|].
    destruct (dig_step st) as [s|]; [|discriminate].
    apply IH. exact H.
Qed.

Lemma dig_drain_Running fuel : forall st st',
  dig_drain fuel st = Running st' -> doorways st' <> [].
Proof.
  induction fuel as [|fuel IH]; intros st st'; cbn [dig_drain].
  - destruct (doorways st) eqn:Hd; [discriminate|]. intros [= <-]. congruence.
  - destruct (doorways st); [discriminate|].
    destruct (dig_step st); [apply IH | discriminate].
Qed.

(** * Properties of the generator *)

(** ** Geometry *)

(** C9. [right] maps [(x, y)] to [(-y, x)] and [left] maps it to [(y, -x)];
    each undoes the other, four applications of either are the identity,
    both preserve the length of a vector, and both permute the four
    cardinal unit vectors up, right, down, left cyclically. *)
Theorem rotations_exact (v : Vector) :
  Vector.right v = Vector.mk (- Vector.y v) (Vector.x v) /\
  Vector.left v = Vector.mk (Vector.y v) (- Vector.x v) /\
  Vector.left (Vector.right v) = v /\
  Vector.right (Vector.left v) = v /\
  Vector.right (Vector.right (Vector.right (Vector.right v))) = v /\
  Vector.left (Vector.left (Vector.left (Vector.left v))) = v /\
  Vector.norm2 (Vector.right v) = Vector.norm2 v /\
  Vector.norm2 (Vector.left v) = Vector.norm2 v /\
  map Vector.right
      [Vector.mk 0 (-1); Vector.mk 1 0; Vector.mk 0 1; Vector.mk (-1) 0]
  = [Vector.mk 1 0; Vector.mk 0 1; Vector.mk (-1) 0; Vector.mk 0 (-1)] /\
  map Vector.left
      [Vector.mk 0 (-1); Vector.mk 1 0; Vector.mk 0 1; Vector.mk (-1) 0]
  = [Vector.mk (-1) 0; Vector.mk 0 (-1); Vector.mk 1 0; Vector.mk 0 1].
Proof.
  destruct v as [a b]. unfold Vector.right, Vector.left, Vector.norm2.
  cbn [Vector.x Vector.y map].
  repeat split; try reflexivity; try (f_equal; lia); lia.
Qed.

(** ** Seeding *)

Lemma forallb_all_cells st (f : Vector -> bool) :
  forallb f (all_cells st) = true ->
  forall p, is_in_bounds_or_border st p = true -> f p = true.
Proof.
  intros H p Hp. rewrite forallb_forall in H. apply H, in_all_cells, Hp.
Qed.

(** C8. On a 20 x 20 grid the statements of [dig_loop] before its loop
    leave a door at (10,19), walls at (9,19) and (11,19), every other cell
    unknown, and exactly one doorway on the worklist: the entrance, with a
    door, heading up into the grid. *)
Theorem seeding_20x20 (src : nat -> nat) :
  exists st,
    dig_seed (init_map 20 20 src) = Ok st /\
    cell (grid st) (Vector.mk 10 19) = Some TILE_DOOR /\
    cell (grid st) (Vector.mk 9 19) = Some TILE_WALL /\
    cell (grid st) (Vector.mk 11 19) = Some TILE_WALL /\
    doorways st = [mkDoorway (Vector.mk 10 19) (Vector.mk 0 (-1)) true] /\
    forall x y, 0 <= x < 20 -> 0 <= y < 20 ->
      Vector.mk x y <> Vector.mk 10 19 ->
      Vector.mk x y <> Vector.mk 9 19 ->
      Vector.mk x y <> Vector.mk 11 19 ->
      cell (grid st) (Vector.mk x y) = Some TILE_UNKNOWN.
Proof.
  eexists. split; [vm_compute; reflexivity|].
  split; [reflexivity|]. split; [reflexivity|]. split; [reflexivity|].
  split; [reflexivity|].
  intros x y Hx Hy H1 H2 H3.
  match goal with
  | |- cell (grid ?s) _ = _ =>
      pose proof (forallb_all_cells s
        (fun p => Vector.eqb p (Vector.mk 10 19) || Vector.eqb p (Vector.mk 9 19)
                  || Vector.eqb p (Vector.mk 11 19)
                  || match cell (grid s) p with
                     | Some TILE_UNKNOWN => true
                     | _ => false
                     end)) as Hall
  end.
  specialize (Hall ltac:(vm_compute; reflexivity) (Vector.mk x y)).
  cbv beta in Hall.
  assert (Hb : forall q, Vector.mk x y <> q -> Vector.eqb (Vector.mk x y) q = false).
  { intros q Hq. destruct (Vector.eqb _ q) eqn:E; [|reflexivity].
    apply vec_eqb_spec in E. contradiction. }
  rewrite !Hb in Hall by assumption. cbn [orb] in Hall.
  match type of Hall with
  | _ -> match ?c with _ => _ end = true =>
      destruct c as [[]|]; try (specialize (Hall ltac:(unfold is_in_bounds_or_border; cbn; lia)); discriminate)
  end.
  reflexivity.
Qed.

(** ** Room placement is check-then-commit *)

(** C4. Whenever the footprint scan of [dig_room] fails for the sizes it
    drew, [dig_room] returns 0 and has written no tile: the grid (and the
    worklist) are exactly as before. *)
Theorem dig_room_atomic st e h sx sy eo st3 :
  wf st ->
  room_draws st = (sx, sy, eo, st3) ->
  footprint_infeasible st e h sx sy (e +v Vector.left h *v eo) ->
  dig_room e h st = Ok (false, st3) /\
  grid st3 = grid st /\ doorways st3 = doorways st.
Proof.
  intros Hwf Hdraw (i & j & Hi & Hj & Hbad).
  destruct (room_draws_spec st) as (sx' & sy' & eo' & Hd & Hsx & Hsy & Heo).
  rewrite Hdraw in Hd. injection Hd as <- <- <- ->.
  unfold dig_room. rewrite Hdraw. unfold dig_room_sized.
  rewrite room_check_spec by (repeat apply wf_tick; assumption || lia).
  fold (footprint h sx sy (e +v Vector.left h *v eo)).
  destruct (forallb _ _) eqn:Hall; [exfalso | cbn; auto].
  rewrite forallb_forall in Hall.
  specialize (Hall (room_at (e +v Vector.left h *v eo) h i j)).
  unfold cell_ok in Hall.
  change (is_in_bounds_or_border (tick (tick (tick st))))
    with (is_in_bounds_or_border st) in Hall.
  change (grid (tick (tick (tick st)))) with (grid st) in Hall.
  apply andb_true_iff in Hall as [Hb Hw];
    [|apply in_footprint; [lia|]; eauto].
  cbv zeta in Hbad. destruct Hbad as [Hbad|[Hbad Hne]]; [congruence|].
  rewrite Hbad in Hw. cbn [orb] in Hw. apply vec_eqb_spec in Hw. contradiction.
Qed.

(** A 5 x 5 map is too narrow for the smallest room at its entrance. *)
Lemma dig_room_atomic_witness :
  dig_room (Vector.mk 2 4) (Vector.mk 0 (-1)) (init_map 5 5 (fun _ => 0%nat))
  = Ok (false, tick (tick (tick (init_map 5 5 (fun _ => 0%nat))))) /\
  grid (tick (tick (tick (init_map 5 5 (fun _ => 0%nat)))))
  = grid (init_map 5 5 (fun _ => 0%nat)) /\
  doorways (tick (tick (tick (init_map 5 5 (fun _ => 0%nat)))))
  = doorways (init_map 5 5 (fun _ => 0%nat)).
Proof.
  apply (dig_room_atomic (init_map 5 5 (fun _ => 0%nat))
           (Vector.mk 2 4) (Vector.mk 0 (-1)) 3 3 1).
  - apply wf_init_map.
  - reflexivity.
  - exists 4, 0. split; [lia|]. split; [lia|]. left. reflexivity.
Defined.

(** ** Corridor rejection *)



(** ** What a corridor may change *)

(** On any grid, a corridor that returns has either changed nothing, or
    its check accepted [l >= 2] steps and every changed cell is one of the
    [l] centre cells or one of their flank cells, the latter now wall. *)
Lemma dig_corridor_sized_effect e h len st b st' :
  dig_corridor_sized e h len st = Ok (b, st') ->
  (b = false /\ st' = st) \/
  (b = true /\ exists l,
     corridor_scan e h len st = Ok (Some (l, true)) /\ 2 <= l /\
     forall p,
       cell (grid st') p = cell (grid st) p \/
       (exists k, 1 <= k <= l /\ p = e +v h *v k) \/
       (cell (grid st') p = Some TILE_WALL /\
        exists k, 1 <= k <= l /\
          (p = e +v Vector.left h +v h *v k \/
           p = e +v Vector.right h +v h *v k))).
Proof.
  unfold dig_corridor_sized.
  destruct (corridor_scan e h len st) as [[[l f]|]|] eqn:Hscan; cbn [bind];
    [| intros [= <- <-]; auto | discriminate].
  destruct (l <=? 1) eqn:Hl; [intros [= <- <-]; auto|].
  destruct f; cbn [negb]; [|intros [= <- <-]; auto].
  destruct (corridor_dig _ _ _ _ _ _) as [[pos st1]|] eqn:Hdig; cbn [bind];
    [|discriminate].
  apply corridor_dig_effect in Hdig as (g1 & -> & (m & Hm & Hm1 & ->) & Heff).
  rewrite Z2Nat.id in Hm, Heff by lia.
  assert (Hlast : forall t st2,
    write_tile (with_grid st g1) (e +v h *v m) t = Ok st2 ->
    forall p,
      cell (grid st2) p = cell (grid st) p \/
      (exists k, 1 <= k <= l /\ p = e +v h *v k) \/
      (cell (grid st2) p = Some TILE_WALL /\
       exists k, 1 <= k <= l /\
         (p = e +v Vector.left h +v h *v k \/
          p = e +v Vector.right h +v h *v k))).
  { intros t st2 Hw p. apply write_tile_inv in Hw as [Hsome ->].
    cbn [grid with_grid] in *. rewrite cell_store by assumption.
    destruct (Vector.eqb (e +v h *v m) p) eqn:E.
    - apply vec_eqb_spec in E. right. left. exists m.
      split; [lia | congruence].
    - destruct (Heff p) as [Hp|[[_ Hp]|Hp]]; auto. }
  destruct (if negb (is_in_bounds _ _) then _ else _) as [unconnected|];
    cbn [bind]; [|discriminate].
  destruct unconnected.
  - unfold fill_tile.
    destruct (write_tile _ _ TILE_WALL) as [st2|] eqn:Hw; cbn [bind]; [|discriminate].
    intros [= <- <-]. right. split; [reflexivity|]. exists l.
    split; [reflexivity|]. split; [lia|]. apply (Hlast _ _ Hw).
  - unfold door_tile.
    destruct (write_tile _ _ TILE_DOOR) as [st2|] eqn:Hw; cbn [bind]; [|discriminate].
    intros [= <- <-]. right. split; [reflexivity|]. exists l.
    split; [reflexivity|]. split; [lia|]. apply (Hlast _ _ Hw).
Qed.

Lemma is_permawall_false st v :
  is_permawall st v = Ok false -> cell (grid st) v <> Some TILE_PERMAWALL.
Proof.
  unfold is_permawall, read_tile.
  destruct (cell (grid st) v) as [[]|]; cbn; congruence.
Qed.

Lemma write_seq_app ws1 : forall ws2 st,
  write_seq (ws1 ++ ws2) st
  = let! st1 := write_seq ws1 st in write_seq ws2 st1.
Proof.
  induction ws1 as [|[p t] ws1 IH]; intros ws2 st; [reflexivity|].
  cbn [write_seq app]. destruct (write_tile st p t); cbn [bind]; [apply IH|].
  reflexivity.
Qed.

(** The digging loop is the sequence of mutator calls of the iterations
    it went through. *)
Lemma corridor_dig_writes h n : forall pos lp rp st pos' st',
  corridor_dig h n pos lp rp st = Ok (pos', st') ->
  exists m, (m <= n)%nat /\ (0 < n -> 1 <= m)%nat /\
            pos' = pos +v h *v Z.of_nat m /\
            write_seq (dig_writes h m pos lp rp) st = Ok st'.
Proof.
  induction n as [|n IH]; intros pos lp rp st pos' st' H.
  - cbn in H. injection H as <- <-. exists 0%nat.
    split; [lia|]. split; [lia|]. split; [cbn; vec | reflexivity].
  - cbn [corridor_dig] in H. unfold dig_tile, fill_tile in H.
    destruct (write_tile st (pos +v h) TILE_FLOOR) as [s1|] eqn:E1;
      cbn [bind] in H; [|discriminate].
    destruct (write_tile s1 (lp +v h) TILE_WALL) as [s2|] eqn:E2;
      cbn [bind] in H; [|discriminate].
    destruct (write_tile s2 (rp +v h) TILE_WALL) as [s3|] eqn:E3;
      cbn [bind] in H; [|discriminate].
    assert (Hone : Ok (pos +v h, s3) = Ok (pos', st') ->
              exists m, (m <= S n)%nat /\ (0 < S n -> 1 <= m)%nat /\
                        pos' = pos +v h *v Z.of_nat m /\
                        write_seq (dig_writes h m pos lp rp) st = Ok st').
    { intros [= <- <-]. exists 1%nat. split; [lia|]. split; [lia|].
      split; [cbn; vec|].
      cbn [dig_writes write_seq]. rewrite E1. cbn [bind]. rewrite E2. cbn [bind].
      rewrite E3. reflexivity. }
    destruct (negb (is_in_bounds s3 (pos +v h +v h))); [auto|].
    destruct (is_wall s3 (pos +v h +v h)) as [w|]; cbn [bind] in H; [|discriminate].
    destruct (negb w); [auto|].
    apply IH in H as (m & Hm & _ & -> & Hw). exists (S m).
    split; [lia|]. split; [lia|]. split; [rewrite Nat2Z.inj_succ; vec|].
    cbn [dig_writes write_seq]. rewrite E1. cbn [bind]. rewrite E2. cbn [bind].
    rewrite E3. cbn [bind]. exact Hw.
Qed.

Lemma in_dig_writes h m : forall pos lp rp p t,
  In (p, t) (dig_writes h m pos lp rp) ->
  exists k, 1 <= k <= Z.of_nat m /\
    (p = pos +v h *v k \/ p = lp +v h *v k \/ p = rp +v h *v k).
Proof.
  induction m as [|m IH]; intros pos lp rp p t Hin; [destruct Hin|].
  cbn [dig_writes] in Hin.
  destruct Hin as [E|[E|[E|Hin]]]; try (injection E as <- _; exists 1;
    split; [lia|]).
  - left. vec.
  - right; left. vec.
  - right; right. vec.
  - apply IH in Hin as (k & Hk & Hp). exists (k + 1). split; [lia|].
    destruct Hp as [-> | [-> | ->]]; [left | right; left | right; right]; vec.
Qed.

Lemma not_ahead_entrance e h :
  Vector.cardinal h ->
  ~ ahead e h e /\ ~ ahead e h (e +v Vector.left h) /\
  ~ ahead e h (e +v Vector.right h).
Proof.
  intros Hc.
  repeat split; intros (k & Hk & E);
    destruct E as [E|[E|E]];
    pose proof (f_equal Vector.x E) as E1; pose proof (f_equal Vector.y E) as E2;
    cardinal_cases Hc; destruct e; cbn in E1, E2; lia.
Qed.

Lemma write_seq_inv ws : forall st st',
  write_seq ws st = Ok st' -> exists g', st' = with_grid st g'.
Proof.
  induction ws as [|[p t] ws IH]; intros st st' H; cbn [write_seq] in H.
  - injection H as <-. exists (grid st). destruct st; reflexivity.
  - destruct (write_tile st p t) as [s1|] eqn:E; cbn [bind] in H; [|discriminate].
    apply write_tile_inv in E as [_ ->]. apply IH in H as [g' ->].
    exists g'. reflexivity.
Qed.

(** C10. Whether it succeeds or fails, [dig_corridor] never writes to the
    entrance cell. A failed call makes no write at all. A successful call
    amounts to the sequence [corridor_writes] of mutator calls, for some
    number [m >= 2] of cells: [dig_tile] on the centre cell and
    [fill_tile] on the two flank cells at steps [1..m] ahead of the
    entrance, then [door_tile] on centre cell [m]. Every cell written is
    a centre or flank cell at least one step ahead of the entrance along
    the heading; the entrance and the two cells beside it are not among
    them, and every cell that is not such a cell, the entrance first of
    all, holds after the call what it held before. *)
Theorem dig_corridor_keeps_entrance st e h :
  wf st -> Vector.cardinal h ->
  exists b st',
    dig_corridor e h st = Ok (b, st') /\
    cell (grid st') e = cell (grid st) e /\
    (forall p, ~ ahead e h p -> cell (grid st') p = cell (grid st) p) /\
    ~ ahead e h e /\ ~ ahead e h (e +v Vector.left h) /\
    ~ ahead e h (e +v Vector.right h) /\
    if b then
      exists m, (2 <= m)%nat /\
        write_seq (corridor_writes e h m) (tick st) = Ok st' /\
        Forall (fun w => ahead e h (fst w)) (corridor_writes e h m)
    else st' = tick st.
Proof.
  intros Hwf Hc.
  destruct (not_ahead_entrance e h Hc) as (Ne & Nl & Nr).
  destruct (dig_corridor_spec st e h Hwf Hc) as (b & st' & Hrun & Hres).
  exists b, st'. split; [exact Hrun|].
  unfold dig_corridor in Hrun. rewrite rand_range_eq in Hrun.
  assert (Hframe : forall p, ~ ahead e h p -> cell (grid st') p = cell (grid st) p).
  { intros p Hp. pose proof Hrun as Heff.
    apply dig_corridor_sized_effect in Heff
      as [[_ ->]|(_ & l & _ & _ & Heff)]; [reflexivity|].
    destruct (Heff p) as [Hq|[(k & Hk & Hq)|(_ & k & Hk & Hq)]]; [exact Hq | |];
      exfalso; apply Hp; exists k; (split; [lia|]); tauto. }
  split; [apply Hframe; exact Ne|]. split; [exact Hframe|].
  split; [exact Ne|]. split; [exact Nl|]. split; [exact Nr|].
  destruct Hres as [(-> & _)|(-> & _ & Hd & l & Hscan & Hl & Hfl & Hdoor)].
  - apply dig_corridor_sized_effect in Hrun as [[_ ->]|(? & _)];
      [reflexivity | discriminate].
  - unfold dig_corridor_sized in Hrun. rewrite Hscan in Hrun.
    cbn [bind] in Hrun. replace (l <=? 1) with false in Hrun by lia.
    cbn [negb] in Hrun.
    destruct (corridor_dig _ _ _ _ _ _) as [[pos s1]|] eqn:Hdig;
      cbn [bind] in Hrun; [|discriminate].
    apply corridor_dig_writes in Hdig as (m & Hm & Hm1 & -> & Hws).
    pose proof (write_seq_inv _ _ _ Hws) as [g1 ->].
    destruct (if negb (is_in_bounds _ _) then _ else _) as [unconnected|];
      cbn [bind] in Hrun; [|discriminate].
    destruct unconnected.
    { exfalso. unfold fill_tile in Hrun.
      destruct (write_tile _ _ TILE_WALL) as [s2|] eqn:Ew; cbn [bind] in Hrun;
        [|discriminate].
      injection Hrun as <-. apply write_tile_inv in Ew as [_ ->].
      cbn [doorways push_doorway with_doorways with_grid tick] in Hd.
      apply (f_equal length) in Hd. rewrite length_app in Hd. cbn in Hd. lia. }
    unfold door_tile in Hrun.
    destruct (write_tile _ _ TILE_DOOR) as [s2|] eqn:Ew; cbn [bind] in Hrun;
      [|discriminate].
    injection Hrun as <-.
    assert (Hlast : cell (grid s2) (e +v h *v Z.of_nat m) = Some TILE_DOOR).
    { pose proof Ew as Ew'. apply write_tile_inv in Ew' as [Hsome ->].
      cbn [grid with_grid] in *. rewrite cell_store by assumption.
      replace (Vector.eqb (e +v h *v Z.of_nat m) (e +v h *v Z.of_nat m)) with true
        by (symmetry; apply vec_eqb_spec; reflexivity).
      reflexivity. }
    assert (Hml : Z.of_nat m = l).
    { destruct (Z_lt_le_dec (Z.of_nat m) l) as [Hlt|Hge]; [|lia].
      rewrite Hfl in Hlast by lia. discriminate. }
    exists m. split; [lia|]. split.
    + unfold corridor_writes. rewrite write_seq_app, Hws. cbn [bind write_seq].
      rewrite Ew. reflexivity.
    + unfold corridor_writes. apply Forall_app. split.
      * apply Forall_forall. intros [p t] Hin. apply list_elem_of_In in Hin.
        apply in_dig_writes in Hin as (k & Hk & Hp). exists k. split; [lia|].
        exact Hp.
      * constructor; [|constructor]. exists l. split; [lia|]. left.
        cbn [fst]. rewrite Hml. reflexivity.
Qed.

(** ** Permawall *)

(** On any well-shaped grid [dig_corridor] never carves a permawall: a
    cell that is permawall before the call is permawall or wall after it,
    never floor or door. *)
Lemma dig_corridor_spares_permawall st e h :
  wf st -> Vector.cardinal h ->
  exists b st',
    dig_corridor e h st = Ok (b, st') /\
    forall p, cell (grid st) p = Some TILE_PERMAWALL ->
      cell (grid st') p = Some TILE_PERMAWALL \/
      cell (grid st') p = Some TILE_WALL.
Proof.
  intros Hwf Hc.
  destruct (dig_corridor_spec st e h Hwf Hc) as (b & st' & Hrun & _).
  exists b, st'. split; [exact Hrun|]. intros p Hp.
  unfold dig_corridor in Hrun. rewrite rand_range_eq in Hrun.
  apply dig_corridor_sized_effect in Hrun
    as [[_ ->]|(_ & l & Hscan & _ & Heff)]; [auto|].
  destruct (Heff p) as [Hq|[(k & Hk & ->)|(Hq & _)]].
  - left. rewrite Hq. exact Hp.
  - exfalso. unfold corridor_scan in Hscan.
    apply corridor_check_inv in Hscan as (m & Hm & Hsteps & Hend).
    destruct Hend as [(? & _)|(_ & Hlm & _)]; [discriminate|].
    destruct (Hsteps k ltac:(lia)) as (_ & _ & _ & _ & Hpw).
    apply is_permawall_false in Hpw. contradiction.
  - right. exact Hq.
Qed.

Lemma wf_corridor_demo : wf corridor_demo.
Proof.
  set (st0 := init_map 5 8 (fun _ => 1%nat)).
  set (st1 := with_grid st0 (store (grid st0) (Vector.mk 2 2) TILE_FLOOR)).
  change corridor_demo
    with (with_grid st1 (store (grid st1) (Vector.mk 1 4) TILE_PERMAWALL)).
  assert (wf st1)
    by (apply wf_store; [apply wf_init_map | vm_compute; eauto]).
  apply wf_store; [assumption | vm_compute; eauto].
Qed.

Lemma dig_corridor_keeps_entrance_witness :
  exists b st',
    dig_corridor (Vector.mk 2 5) (Vector.mk 0 (-1)) corridor_demo = Ok (b, st') /\
    cell (grid st') (Vector.mk 2 5) = cell (grid corridor_demo) (Vector.mk 2 5) /\
    (forall p, ~ ahead (Vector.mk 2 5) (Vector.mk 0 (-1)) p ->
               cell (grid st') p = cell (grid corridor_demo) p) /\
    ~ ahead (Vector.mk 2 5) (Vector.mk 0 (-1)) (Vector.mk 2 5) /\
    ~ ahead (Vector.mk 2 5) (Vector.mk 0 (-1))
        (Vector.mk 2 5 +v Vector.left (Vector.mk 0 (-1))) /\
    ~ ahead (Vector.mk 2 5) (Vector.mk 0 (-1))
        (Vector.mk 2 5 +v Vector.right (Vector.mk 0 (-1))) /\
    if b then
      exists m, (2 <= m)%nat /\
        write_seq (corridor_writes (Vector.mk 2 5) (Vector.mk 0 (-1)) m)
                  (tick corridor_demo) = Ok st' /\
        Forall (fun w => ahead (Vector.mk 2 5) (Vector.mk 0 (-1)) (fst w))
               (corridor_writes (Vector.mk 2 5) (Vector.mk 0 (-1)) m)
    else st' = tick corridor_demo.
Proof.
  apply dig_corridor_keeps_entrance.
  - exact wf_corridor_demo.
  - left. reflexivity.
Defined.

Lemma dig_corridor_spares_permawall_witness :
  exists b st',
    dig_corridor (Vector.mk 2 5) (Vector.mk 0 (-1)) corridor_demo = Ok (b, st') /\
    forall p, cell (grid corridor_demo) p = Some TILE_PERMAWALL ->
      cell (grid st') p = Some TILE_PERMAWALL \/
      cell (grid st') p = Some TILE_WALL.
Proof.
  apply dig_corridor_spares_permawall.
  - exact wf_corridor_demo.
  - left. reflexivity.
Defined.

(** The corridor of the demo is committed, and its permawall flank cell
    (1,4) has become plain wall. *)
Example corridor_demo_run :
  exists st',
    dig_corridor (Vector.mk 2 5) (Vector.mk 0 (-1)) corridor_demo = Ok (true, st') /\
    cell (grid st') (Vector.mk 2 4) = Some TILE_FLOOR /\
    cell (grid st') (Vector.mk 2 3) = Some TILE_DOOR /\
    cell (grid corridor_demo) (Vector.mk 1 4) = Some TILE_PERMAWALL /\
    cell (grid st') (Vector.mk 1 4) = Some TILE_WALL.
Proof. eexists. split; [vm_compute; reflexivity|]. repeat split. Qed.

(** X27. While the worklist loop of a run is going
    (it is at state [st] after [k] iterations), its next iteration goes
    through, and every cell that is permawall before that iteration is
    permawall or plain wall after it. No operation of the run, be it a
    room placement, a corridor placement or the door the loop sets on the
    doorway, turns a permawall directly into floor or door; all that
    happens to a permawall is that the wall of a later room or the flank
    of a later corridor resets it to plain wall. *)
Theorem permawall_only_reset sx sy src k st :
  generate k sx sy src = Running st ->
  match generate (S k) sx sy src with
  | Done st' | Running st' =>
      forall p, cell (grid st) p = Some TILE_PERMAWALL ->
        cell (grid st') p = Some TILE_PERMAWALL \/
        cell (grid st') p = Some TILE_WALL
  | Crashed => False
  end.
Proof.
  unfold generate, dig_loop. intros Hk.
  destruct (dig_seed (init_map sx sy src)) as [st0|] eqn:Hseed; [|discriminate].
  assert (Hsize : 3 <= sx /\ 1 <= sy).
  { destruct (decide (3 <= sx /\ 1 <= sy)) as [?|Hn]; [assumption|].
    rewrite dig_seed_crash in Hseed by lia. discriminate. }
  destruct (dig_seed_spec sx sy src) as (s & Hs & HI & _); [lia | lia |].
  rewrite Hseed in Hs. injection Hs as <-.
  pose proof (dig_seed_Inv2 _ _ _ _ Hseed) as HJ.
  pose proof (dig_drain_Inv2 k st0 HI HJ) as Hinv. rewrite Hk in Hinv.
  destruct Hinv as [HIk HJk].
  rewrite (dig_drain_S k st0 st Hk).
  destruct (dig_step_kept st HIk HJk (dig_drain_Running _ _ _ Hk))
    as (st' & -> & _ & Hperm).
  cbn [dig_drain]. destruct (doorways st'); exact Hperm.
Qed.

Lemma permawall_only_reset_witness :
  generate 1 20 20 demo_tape = Running (demo_after 1) /\
  match generate 2 20 20 demo_tape with
  | Done st' | Running st' =>
      forall p, cell (grid (demo_after 1)) p = Some TILE_PERMAWALL ->
        cell (grid st') p = Some TILE_PERMAWALL \/
        cell (grid st') p = Some TILE_WALL
  | Crashed => False
  end.
Proof.
  split; [vm_compute; reflexivity|].
  apply (permawall_only_reset 20 20 demo_tape 1). vm_compute. reflexivity.
Defined.

(** C2 fails on the code. The corners of a room are marked permawall so
    that nothing is dug through them, and [dig_corridor] tests its centre
    cells with [is_permawall]; but [is_wall] counts a permawall as wall,
    and the [fill_tile] calls of [dig_room] and of the flanks of
    [dig_corridor] are made without that test, so a later placement
    erases the mark. In the run of a 20 x 20 map on [demo_tape] the
    first iteration places a room with corners (6,19), (11,19), (6,13) and
    (11,13); the second places a room on its far wall, from (8,13) with
    corner (4,13), whose bottom wall runs over (6,13) and resets that
    permawall to plain wall. In the run of a 30 x 30 map on [corner_tape]
    the permawall corner (12,8) is reset in the same way and is a door in
    the finished map, at the end of a corridor. *)
Lemma permawall_overwritten :
  (exists st1 st2,
     generate 1 20 20 demo_tape = Running st1 /\
     generate 2 20 20 demo_tape = Running st2 /\
     cell (grid st1) (Vector.mk 6 13) = Some TILE_PERMAWALL /\
     cell (grid st2) (Vector.mk 6 13) = Some TILE_WALL) /\
  (exists st29 st37 st,
     generate 29 30 30 corner_tape = Running st29 /\
     generate 37 30 30 corner_tape = Running st37 /\
     generate 100 30 30 corner_tape = Done st /\
     cell (grid st29) (Vector.mk 12 8) = Some TILE_PERMAWALL /\
     cell (grid st37) (Vector.mk 12 8) = Some TILE_WALL /\
     cell (grid st) (Vector.mk 12 8) = Some TILE_DOOR).
Proof.
  split.
  - do 2 eexists. split; [vm_compute; reflexivity|].
    split; [vm_compute; reflexivity|]. split; reflexivity.
  - do 3 eexists. split; [vm_compute; reflexivity|].
    split; [vm_compute; reflexivity|]. split; [vm_compute; reflexivity|].
    repeat split.
Qed.

(** ** The worklist is a global the generators write *)

Lemma paint_rect_inv t h w n pos st st' :
  0 <= w ->
  paint_rect (fun st v => write_tile st v t) h w n pos st = Ok st' ->
  exists g', st' = with_grid st g'.
Proof. intros Hw. rewrite paint_rect_eq by assumption. apply write_all_inv. Qed.

Lemma dig_room_doorways e h st b st' :
  dig_room e h st = Ok (b, st') ->
  if b then
    exists p1 p2 p3,
      doorways st' =
      doorways st ++ [mkDoorway p1 (Vector.left h) true;
                      mkDoorway p2 h true;
                      mkDoorway p3 (Vector.right h) true]
  else doorways st' = doorways st.
Proof.
  unfold dig_room.
  destruct (room_draws_spec st) as (sx & sy & eo & -> & Hsx & Hsy & Heo).
  unfold dig_room_sized, permawall_tile, door_tile.
  destruct (room_check _ _ _ _ _ _) as [ok|]; cbn [bind]; [|discriminate].
  destruct ok; cbn [negb]; [|intros [= <- <-]; reflexivity].
  change fill_tile with (fun st v => write_tile st v TILE_WALL).
  change dig_tile with (fun st v => write_tile st v TILE_FLOOR).
  destruct (paint_rect _ _ _ _ _ _) as [s1|] eqn:E1; cbn [bind]; [|discriminate].
  apply paint_rect_inv in E1 as [g1 ->]; [|lia].
  destruct (write_tile _ _ _) as [s2|] eqn:E2; cbn [bind]; [|discriminate].
  apply write_tile_inv in E2 as [_ ->].
  destruct (write_tile _ _ _) as [s3|] eqn:E3; cbn [bind]; [|discriminate].
  apply write_tile_inv in E3 as [_ ->].
  destruct (write_tile _ _ _) as [s4|] eqn:E4; cbn [bind]; [|discriminate].
  apply write_tile_inv in E4 as [_ ->].
  destruct (write_tile _ _ _) as [s5|] eqn:E5; cbn [bind]; [|discriminate].
  apply write_tile_inv in E5 as [_ ->].
  destruct (paint_rect _ _ _ _ _ _) as [s6|] eqn:E6; cbn [bind]; [|discriminate].
  apply paint_rect_inv in E6 as [g6 ->]; [|lia].
  destruct (write_tile _ _ _) as [s7|] eqn:E7; cbn [bind]; [|discriminate].
  apply write_tile_inv in E7 as [_ ->].
  intros [= <- <-].
  match goal with
  | |- context [room_connections h sx sy ?c ?s] =>
      destruct (room_connections_spec h sx sy c s ltac:(lia) ltac:(lia))
        as (r1 & r2 & r3 & _ & _ & _ & ->)
  end.
  eexists _, _, _. reflexivity.
Qed.

(** C3, what holds instead. The generators write the worklist themselves:
    a successful [dig_room] appends its three doorways, each with a door,
    to [doorways], and a failed one leaves [doorways] alone. On a
    well-shaped grid [dig_corridor] leaves [doorways] alone, too: once its
    check has found an intersection its walk ends in front of that open
    cell, so the sealed dead end that would be appended never arises. *)
Theorem generators_write_worklist st e h :
  wf st -> Vector.cardinal h ->
  (exists b st',
     dig_room e h st = Ok (b, st') /\
     if b then
       exists p1 p2 p3,
         doorways st' =
         doorways st ++ [mkDoorway p1 (Vector.left h) true;
                         mkDoorway p2 h true;
                         mkDoorway p3 (Vector.right h) true]
     else doorways st' = doorways st) /\
  (exists b st',
     dig_corridor e h st = Ok (b, st') /\ doorways st' = doorways st).
Proof.
  intros Hwf Hc. split.
  - destruct (dig_room_spec st e h Hwf Hc) as (b & st' & Hrun & _).
    exists b, st'. split; [exact Hrun|]. apply (dig_room_doorways e h st b st' Hrun).
  - destruct (dig_corridor_spec st e h Hwf Hc) as (b & st' & Hrun & Hres).
    exists b, st'. split; [exact Hrun|].
    destruct Hres as [[_ Hidle]|(_ & _ & Hd & _)]; [apply Hidle | exact Hd].
Qed.

(** The smallest room at the entrance of a fresh 20 x 20 map. *)
Lemma generators_write_worklist_witness :
  (exists b st',
     dig_room (Vector.mk 10 19) (Vector.mk 0 (-1)) (init_map 20 20 (fun _ => 0%nat))
       = Ok (b, st') /\
     if b then
       exists p1 p2 p3,
         doorways st' =
         doorways (init_map 20 20 (fun _ => 0%nat))
         ++ [mkDoorway p1 (Vector.left (Vector.mk 0 (-1))) true;
             mkDoorway p2 (Vector.mk 0 (-1)) true;
             mkDoorway p3 (Vector.right (Vector.mk 0 (-1))) true]
     else doorways st' = doorways (init_map 20 20 (fun _ => 0%nat))) /\
  (exists b st',
     dig_corridor (Vector.mk 10 19) (Vector.mk 0 (-1))
       (init_map 20 20 (fun _ => 0%nat)) = Ok (b, st') /\
     doorways st' = doorways (init_map 20 20 (fun _ => 0%nat))).
Proof.
  apply generators_write_worklist.
  - apply wf_init_map.
  - left. reflexivity.
Defined.

(** C3 as stated fails: called on the seeded 20 x 20 map, [dig_room]
    returns with three more doorways on the global worklist. *)
Lemma dig_room_appends_to_worklist :
  exists st0 st',
    dig_seed (init_map 20 20 (fun _ => 0%nat)) = Ok st0 /\
    dig_room (Vector.mk 10 19) (Vector.mk 0 (-1)) st0 = Ok (true, st') /\
    doorways st0 = [mkDoorway (Vector.mk 10 19) (Vector.mk 0 (-1)) true] /\
    doorways st' =
      [mkDoorway (Vector.mk 10 19) (Vector.mk 0 (-1)) true;
       mkDoorway (Vector.mk 9 18) (Vector.mk (-1) 0) true;
       mkDoorway (Vector.mk 10 15) (Vector.mk 0 (-1)) true;
       mkDoorway (Vector.mk 13 18) (Vector.mk 1 0) true].
Proof.
  do 2 eexists. split; [vm_compute; reflexivity|].
  split; [vm_compute; reflexivity|]. split; reflexivity.
Qed.

(** ** The border *)

Lemma wallish_tiles g p :
  wallish g p = true ->
  cell g p = Some TILE_UNKNOWN \/ cell g p = Some TILE_WALL \/
  cell g p = Some TILE_PERMAWALL.
Proof.
  unfold wallish. destruct (cell g p) as [[]|]; cbn; auto; discriminate.
Qed.

(** C1 as stated fails. Right after the seeding of a 20 x 20 map, and
    still in the finished map of the run on [demo_tape], the border cell
    (10,19), the entrance, is a door, and the border cell (0,0) is unknown
    rather than wall or permawall. *)
Lemma border_holds_door_and_unknown :
  exists st0 st,
    generate 0 20 20 demo_tape = Running st0 /\
    generate 200 20 20 demo_tape = Done st /\
    on_border st0 (Vector.mk 10 19) /\ on_border st0 (Vector.mk 0 0) /\
    on_border st (Vector.mk 10 19) /\ on_border st (Vector.mk 0 0) /\
    cell (grid st0) (Vector.mk 10 19) = Some TILE_DOOR /\
    cell (grid st0) (Vector.mk 0 0) = Some TILE_UNKNOWN /\
    cell (grid st) (Vector.mk 10 19) = Some TILE_DOOR /\
    cell (grid st) (Vector.mk 0 0) = Some TILE_UNKNOWN.
Proof.
  do 2 eexists. split; [vm_compute; reflexivity|].
  split; [vm_compute; reflexivity|].
  unfold on_border. cbn. repeat split; lia.
Qed.

(** C1, what holds instead. After the seeding and after every iteration
    of the loop, hence in the finished map, every border cell other than
    the map entrance is unknown, wall or permawall, never floor or door;
    the map entrance is the one border cell that is a door. (A run crashes
    only in the seeding of a grid less than three cells wide or without
    rows.) *)
Theorem border_never_dug fuel sx sy src :
  match generate fuel sx sy src with
  | Done st | Running st =>
      (forall p, on_border st p -> p <> map_entrance st ->
         cell (grid st) p = Some TILE_UNKNOWN \/
         cell (grid st) p = Some TILE_WALL \/
         cell (grid st) p = Some TILE_PERMAWALL) /\
      on_border st (map_entrance st) /\
      cell (grid st) (map_entrance st) = Some TILE_DOOR
  | Crashed => sx < 3 \/ sy < 1
  end.
Proof.
  unfold generate, dig_loop.
  destruct (decide (3 <= sx /\ 1 <= sy)) as [[Hsx Hsy]|Hsmall].
  - destruct (dig_seed_spec sx sy src Hsx Hsy) as (st0 & -> & HI & Hx0 & Hy0 & Hd0).
    pose proof (dig_drain_Inv fuel st0 HI) as H.
    assert (Hgoal : forall st, Inv st ->
      (forall p, on_border st p -> p <> map_entrance st ->
         cell (grid st) p = Some TILE_UNKNOWN \/
         cell (grid st) p = Some TILE_WALL \/
         cell (grid st) p = Some TILE_PERMAWALL) /\
      on_border st (map_entrance st) /\
      cell (grid st) (map_entrance st) = Some TILE_DOOR).
    { intros st (Hwf & _ & Hb & Hent). split; [|split; [|exact Hent]].
      - intros p (Hx & Hy & Hring) Hne.
        apply wallish_tiles, Hb; [| |exact Hne].
        + unfold is_in_bounds_or_border. lia.
        + unfold is_in_bounds. lia.
      - assert (Hin : is_in_bounds_or_border st (map_entrance st) = true)
          by (apply Hwf; rewrite Hent; eauto).
        unfold is_in_bounds_or_border in Hin. unfold on_border.
        cbn [map_entrance Vector.x Vector.y] in *. lia. }
    destruct (dig_drain fuel st0); [apply Hgoal, H | destruct H | apply Hgoal, H].
  - rewrite dig_seed_crash by lia. lia.
Qed.

(** ** Accesses stay on the grid, except in the seeding of a narrow map *)

(** On a grid at least three cells wide and one high no step of the run
    reads or writes outside the grid. *)
Lemma generate_in_bounds fuel sx sy src :
  3 <= sx -> 1 <= sy -> generate fuel sx sy src <> Crashed.
Proof.
  intros Hsx Hsy. unfold generate, dig_loop.
  destruct (dig_seed_spec sx sy src Hsx Hsy) as (st0 & -> & HI & Hx0 & Hy0 & Hd0).
  pose proof (dig_drain_Inv fuel st0 HI) as H.
  destruct (dig_drain fuel st0); [discriminate | destruct H | discriminate].
Qed.

(** C6 fails on the code. For the positive sizes 1 x 1 and 2 x 20 the
    seeding of [dig_loop] calls [fill_tile] on the neighbour cells of the
    entrance without any bounds check and writes outside the grid. *)
Theorem narrow_map_out_of_bounds fuel src :
  generate fuel 1 1 src = Crashed /\
  generate fuel 2 20 src = Crashed /\
  fill_tile (init_map 2 20 src) (map_entrance (init_map 2 20 src) +v Vector.mk 1 0)
  = OutOfBounds.
Proof.
  unfold generate, dig_loop.
  rewrite !dig_seed_crash by lia. repeat split.
Qed.

(** * Further properties of the code *)

(** ** [class Vector] *)

Lemma steps_scale n : forall pos d, steps n pos d = pos +v d *v Z.of_nat n.
Proof.
  induction n as [|n IH]; intros pos d.
  - cbn. vec.
  - cbn [steps]. rewrite IH, Nat2Z.inj_succ. vec.
Qed.

(** X1. The vector arithmetic the scanning loops rely on: [n] steps of
    [pos += d] land on [pos + d*n], so that [pos -= d*n] leads back to the
    start of the row; [!=] is the negation of [==], which holds exactly
    of equal coordinates; the two scalar products agree. *)
Theorem vector_steps_and_compare (pos d : Vector) (n : nat) (s : Z) :
  steps n pos d = pos +v d *v Z.of_nat n /\
  steps n pos d -v d *v Z.of_nat n = pos /\
  Vector.neqb pos d = negb (Vector.eqb pos d) /\
  (Vector.eqb pos d = true <-> pos = d) /\
  scalar_times s d = d *v s.
Proof.
  split; [apply steps_scale|]. split; [rewrite steps_scale; vec|].
  split; [apply vec_neqb_eqb|]. split; [apply vec_eqb_spec | reflexivity].
Qed.

(** ** [is_in_bounds] and [is_in_bounds_or_border] *)

(** X2. A cell is in bounds exactly when its four orthogonal neighbours
    are on the grid (in bounds or on the border); in particular the cells
    next to an in-bounds cell can be read and written. *)
Theorem in_bounds_iff_neighbours st (v : Vector) :
  is_in_bounds st v = true <->
  (is_in_bounds_or_border st (v +v Vector.mk 1 0) = true /\
   is_in_bounds_or_border st (v -v Vector.mk 1 0) = true /\
   is_in_bounds_or_border st (v +v Vector.mk 0 1) = true /\
   is_in_bounds_or_border st (v -v Vector.mk 0 1) = true).
Proof.
  unfold is_in_bounds, is_in_bounds_or_border. destruct v as [x y].
  cbn [Vector.x Vector.y Vector.add Vector.sub].
  rewrite !andb_true_iff. lia.
Qed.

(** ** The tile predicates *)

(** X3. The four predicates read the same cell and agree with each
    other: they all fail together, exactly when the cell is not allocated;
    a permawall is a wall; a floor is known and not a wall; an unknown
    cell is a wall; and a cell is not a wall exactly when it is floor or
    door. *)
Theorem tile_predicates_agree st (v : Vector) :
  (cell (grid st) v = None ->
   is_known st v = OutOfBounds /\ is_floor st v = OutOfBounds /\
   is_wall st v = OutOfBounds /\ is_permawall st v = OutOfBounds) /\
  (forall t, cell (grid st) v = Some t ->
     exists k f w p,
       is_known st v = Ok k /\ is_floor st v = Ok f /\
       is_wall st v = Ok w /\ is_permawall st v = Ok p /\
       (p = true -> w = true /\ k = true) /\
       (f = true -> w = false /\ k = true) /\
       (k = false -> w = true) /\
       (w = false <-> t = TILE_FLOOR \/ t = TILE_DOOR) /\
       (f = true <-> t = TILE_FLOOR) /\
       (p = true <-> t = TILE_PERMAWALL) /\
       (k = false <-> t = TILE_UNKNOWN)).
Proof.
  unfold is_known, is_floor, is_wall, is_permawall, read_tile. split.
  - intros ->. repeat split.
  - intros t ->. cbn [bind]. do 4 eexists.
    do 4 (split; [reflexivity|]).
    destruct t; cbn; repeat split; intros; try discriminate; try tauto;
      try (intuition discriminate).
Qed.

(** ** The tile mutators *)

Lemma write_then_read st v t :
  wf st -> is_in_bounds_or_border st v = true ->
  exists st',
    write_tile st v t = Ok st' /\ wf st' /\
    read_tile st' v = Ok t /\
    (forall p, p <> v -> read_tile st' p = read_tile st p) /\
    size_x st' = size_x st /\ size_y st' = size_y st /\
    doorways st' = doorways st /\ rand_calls st' = rand_calls st.
Proof.
  intros Hwf Hv.
  destruct (write_tile_spec st v t Hwf Hv) as (g' & Hrun & Hwf' & Hg').
  exists (with_grid st g'). split; [exact Hrun|]. split; [exact Hwf'|].
  unfold read_tile. cbn [grid with_grid]. split; [|split].
  - rewrite Hg'.
    replace (Vector.eqb v v) with true
      by (symmetry; apply vec_eqb_spec; reflexivity).
    reflexivity.
  - intros p Hp. rewrite Hg'. destruct (Vector.eqb v p) eqn:E; [|reflexivity].
    apply vec_eqb_spec in E. congruence.
  - repeat split.
Qed.

(** X4. Write, then read: on a cell of the grid each mutator succeeds,
    the predicates then report the tile it wrote, and no other cell, nor
    the sizes or the worklist, has changed. *)
Theorem mutators_round_trip st (v : Vector) :
  wf st -> is_in_bounds_or_border st v = true ->
  (exists st', dig_tile st v = Ok st' /\
     is_floor st' v = Ok true /\ is_wall st' v = Ok false /\
     is_known st' v = Ok true /\
     (forall p, p <> v -> read_tile st' p = read_tile st p) /\
     doorways st' = doorways st) /\
  (exists st', door_tile st v = Ok st' /\
     is_floor st' v = Ok false /\ is_wall st' v = Ok false /\
     is_known st' v = Ok true /\
     (forall p, p <> v -> read_tile st' p = read_tile st p) /\
     doorways st' = doorways st) /\
  (exists st', fill_tile st v = Ok st' /\
     is_wall st' v = Ok true /\ is_permawall st' v = Ok false /\
     is_known st' v = Ok true /\
     (forall p, p <> v -> read_tile st' p = read_tile st p) /\
     doorways st' = doorways st) /\
  (exists st', permawall_tile st v = Ok st' /\
     is_wall st' v = Ok true /\ is_permawall st' v = Ok true /\
     is_known st' v = Ok true /\
     (forall p, p <> v -> read_tile st' p = read_tile st p) /\
     doorways st' = doorways st).
Proof.
  intros Hwf Hv.
  unfold dig_tile, door_tile, fill_tile, permawall_tile.
  repeat split;
    match goal with
    | |- exists st', write_tile _ _ ?t = _ /\ _ =>
        destruct (write_then_read st v t Hwf Hv)
          as (st' & Hrun & _ & Hread & Hframe & _ & _ & Hd & _);
        exists st'; split; [exact Hrun|];
        unfold is_floor, is_wall, is_permawall, is_known;
        rewrite Hread; cbn; auto
    end.
Qed.

Lemma mutators_round_trip_witness :
  (exists st', dig_tile (init_map 20 20 demo_tape) (Vector.mk 3 4) = Ok st' /\
     is_floor st' (Vector.mk 3 4) = Ok true /\
     is_wall st' (Vector.mk 3 4) = Ok false /\
     is_known st' (Vector.mk 3 4) = Ok true /\
     (forall p, p <> Vector.mk 3 4 ->
        read_tile st' p = read_tile (init_map 20 20 demo_tape) p) /\
     doorways st' = doorways (init_map 20 20 demo_tape)) /\
  (exists st', door_tile (init_map 20 20 demo_tape) (Vector.mk 3 4) = Ok st' /\
     is_floor st' (Vector.mk 3 4) = Ok false /\
     is_wall st' (Vector.mk 3 4) = Ok false /\
     is_known st' (Vector.mk 3 4) = Ok true /\
     (forall p, p <> Vector.mk 3 4 ->
        read_tile st' p = read_tile (init_map 20 20 demo_tape) p) /\
     doorways st' = doorways (init_map 20 20 demo_tape)) /\
  (exists st', fill_tile (init_map 20 20 demo_tape) (Vector.mk 3 4) = Ok st' /\
     is_wall st' (Vector.mk 3 4) = Ok true /\
     is_permawall st' (Vector.mk 3 4) = Ok false /\
     is_known st' (Vector.mk 3 4) = Ok true /\
     (forall p, p <> Vector.mk 3 4 ->
        read_tile st' p = read_tile (init_map 20 20 demo_tape) p) /\
     doorways st' = doorways (init_map 20 20 demo_tape)) /\
  (exists st', permawall_tile (init_map 20 20 demo_tape) (Vector.mk 3 4) = Ok st' /\
     is_wall st' (Vector.mk 3 4) = Ok true /\
     is_permawall st' (Vector.mk 3 4) = Ok true /\
     is_known st' (Vector.mk 3 4) = Ok true /\
     (forall p, p <> Vector.mk 3 4 ->
        read_tile st' p = read_tile (init_map 20 20 demo_tape) p) /\
     doorways st' = doorways (init_map 20 20 demo_tape)).
Proof.
  apply mutators_round_trip.
  - apply wf_init_map.
  - reflexivity.
Defined.

(** X5. Outside the grid nothing is checked: every predicate and every
    mutator called on a cell that is neither in bounds nor on the border
    is an access outside the allocated rows and columns. *)
Theorem access_off_grid st (v : Vector) :
  wf st -> is_in_bounds_or_border st v = false ->
  is_known st v = OutOfBounds /\ is_floor st v = OutOfBounds /\
  is_wall st v = OutOfBounds /\ is_permawall st v = OutOfBounds /\
  dig_tile st v = OutOfBounds /\ door_tile st v = OutOfBounds /\
  fill_tile st v = OutOfBounds /\ permawall_tile st v = OutOfBounds.
Proof.
  intros Hwf Hv.
  assert (Hc : cell (grid st) v = None).
  { destruct (cell (grid st) v) eqn:E; [|reflexivity].
    assert (is_in_bounds_or_border st v = true) by (apply Hwf; eauto).
    congruence. }
  unfold is_known, is_floor, is_wall, is_permawall, read_tile,
    dig_tile, door_tile, fill_tile, permawall_tile, write_tile.
  rewrite Hc. repeat split.
Qed.

Lemma access_off_grid_witness :
  is_known (init_map 20 20 demo_tape) (Vector.mk 20 3) = OutOfBounds /\
  is_floor (init_map 20 20 demo_tape) (Vector.mk 20 3) = OutOfBounds /\
  is_wall (init_map 20 20 demo_tape) (Vector.mk 20 3) = OutOfBounds /\
  is_permawall (init_map 20 20 demo_tape) (Vector.mk 20 3) = OutOfBounds /\
  dig_tile (init_map 20 20 demo_tape) (Vector.mk 20 3) = OutOfBounds /\
  door_tile (init_map 20 20 demo_tape) (Vector.mk 20 3) = OutOfBounds /\
  fill_tile (init_map 20 20 demo_tape) (Vector.mk 20 3) = OutOfBounds /\
  permawall_tile (init_map 20 20 demo_tape) (Vector.mk 20 3) = OutOfBounds.
Proof.
  apply access_off_grid.
  - apply wf_init_map.
  - reflexivity.
Defined.

(** X6. The last write to a cell wins, and writes to different cells can
    be swapped: either order leaves every cell with the same tile. *)
Theorem writes_compose st (v w : Vector) (t1 t2 : tile) :
  wf st ->
  is_in_bounds_or_border st v = true -> is_in_bounds_or_border st w = true ->
  exists s1 s12 s2 s21,
    write_tile st v t1 = Ok s1 /\ write_tile s1 w t2 = Ok s12 /\
    write_tile st w t2 = Ok s2 /\ write_tile s2 v t1 = Ok s21 /\
    read_tile s12 w = Ok t2 /\
    (v = w -> forall p, read_tile s12 p = read_tile s2 p) /\
    (v <> w -> forall p, read_tile s12 p = read_tile s21 p).
Proof.
  intros Hwf Hv Hw.
  destruct (write_tile_spec st v t1 Hwf Hv) as (g1 & R1 & Hwf1 & Hg1).
  destruct (write_tile_spec (with_grid st g1) w t2 Hwf1 Hw)
    as (g12 & R12 & _ & Hg12).
  destruct (write_tile_spec st w t2 Hwf Hw) as (g2 & R2 & Hwf2 & Hg2).
  destruct (write_tile_spec (with_grid st g2) v t1 Hwf2 Hv)
    as (g21 & R21 & _ & Hg21).
  cbn [grid with_grid] in *.
  do 4 eexists. do 4 (split; [eassumption|]).
  unfold read_tile. cbn [grid with_grid]. split; [|split].
  - rewrite Hg12.
    replace (Vector.eqb w w) with true
      by (symmetry; apply vec_eqb_spec; reflexivity).
    reflexivity.
  - intros -> p. rewrite Hg12, Hg2, Hg1.
    destruct (Vector.eqb w p); reflexivity.
  - intros Hne p. rewrite Hg12, Hg21, Hg2, Hg1.
    destruct (Vector.eqb w p) eqn:E1, (Vector.eqb v p) eqn:E2; try reflexivity.
    apply vec_eqb_spec in E1, E2. congruence.
Qed.

Lemma writes_compose_witness :
  exists s1 s12 s2 s21,
    write_tile (init_map 20 20 demo_tape) (Vector.mk 1 1) TILE_WALL = Ok s1 /\
    write_tile s1 (Vector.mk 2 2) TILE_FLOOR = Ok s12 /\
    write_tile (init_map 20 20 demo_tape) (Vector.mk 2 2) TILE_FLOOR = Ok s2 /\
    write_tile s2 (Vector.mk 1 1) TILE_WALL = Ok s21 /\
    read_tile s12 (Vector.mk 2 2) = Ok TILE_FLOOR /\
    (Vector.mk 1 1 = Vector.mk 2 2 ->
     forall p, read_tile s12 p = read_tile s2 p) /\
    (Vector.mk 1 1 <> Vector.mk 2 2 ->
     forall p, read_tile s12 p = read_tile s21 p).
Proof.
  apply writes_compose.
  - apply wf_init_map.
  - reflexivity.
  - reflexivity.
Defined.

(** ** [rand_range] *)

(** X7. For [Min <= Max] the number [rand_range] returns lies between
    [Min] and [Max], both included; it is [Min] plus the remainder of the
    next random number, and the call takes exactly one number from the
    random source and changes nothing else. *)
Theorem rand_range_within (Min Max : Z) st :
  Min <= Max ->
  exists r st',
    rand_range Min Max st = (r, st') /\
    Min <= r <= Max /\
    r = Min + Z.of_nat (rand_src st (rand_calls st)) mod (Max - Min + 1) /\
    rand_calls st' = S (rand_calls st) /\
    grid st' = grid st /\ doorways st' = doorways st /\
    size_x st' = size_x st /\ size_y st' = size_y st /\
    rand_src st' = rand_src st.
Proof.
  intros H. do 2 eexists. split; [apply rand_range_eq|].
  split; [apply draw_bounds; assumption|].
  split; [|repeat split].
  unfold draw, rand_range, rand. cbn [fst].
  rewrite Z.rem_mod_nonneg by lia. lia.
Qed.

Lemma rand_range_within_witness :
  exists r st',
    rand_range 3 6 (init_map 20 20 demo_tape) = (r, st') /\
    3 <= r <= 6 /\
    r = 3 + Z.of_nat (rand_src (init_map 20 20 demo_tape)
                        (rand_calls (init_map 20 20 demo_tape)))
            mod (6 - 3 + 1) /\
    rand_calls st' = S (rand_calls (init_map 20 20 demo_tape)) /\
    grid st' = grid (init_map 20 20 demo_tape) /\
    doorways st' = doorways (init_map 20 20 demo_tape) /\
    size_x st' = size_x (init_map 20 20 demo_tape) /\
    size_y st' = size_y (init_map 20 20 demo_tape) /\
    rand_src st' = rand_src (init_map 20 20 demo_tape).
Proof. apply rand_range_within. lia. Defined.

(** ** [init_map] *)

(** X8. [init_map] allocates [size_y] rows of [size_x] cells: a cell can
    be read exactly when it is in bounds or on the border, every such cell
    is unknown (and so counts as wall), and the worklist is empty. *)
Theorem init_map_blank (sx sy : Z) (src : nat -> nat) :
  0 <= sx -> 0 <= sy ->
  let st := init_map sx sy src in
  length (grid st) = Z.to_nat sy /\
  Forall (fun row => length row = Z.to_nat sx) (grid st) /\
  (forall p, is_in_bounds_or_border st p = true ->
     read_tile st p = Ok TILE_UNKNOWN /\
     is_known st p = Ok false /\ is_wall st p = Ok true) /\
  (forall p, is_in_bounds_or_border st p = false ->
     read_tile st p = OutOfBounds) /\
  doorways st = [] /\ size_x st = sx /\ size_y st = sy.
Proof.
  intros Hsx Hsy st. pose proof (wf_init_map sx sy src) as Hwf. fold st in Hwf.
  split; [apply length_replicate|]. split.
  { apply Forall_replicate. apply length_replicate. }
  split; [|split; [|repeat split]].
  - intros p Hp. apply Hwf in Hp as [t Ht].
    pose proof (cell_init_map _ _ _ _ _ Ht) as ->.
    unfold is_known, is_wall, read_tile. fold st. rewrite Ht. repeat split.
  - intros p Hp. unfold read_tile.
    destruct (cell (grid st) p) eqn:E; [|reflexivity].
    assert (is_in_bounds_or_border st p = true) by (apply Hwf; eauto).
    congruence.
Qed.

Lemma init_map_blank_witness :
  let st := init_map 4 3 demo_tape in
  length (grid st) = Z.to_nat 3 /\
  Forall (fun row => length row = Z.to_nat 4) (grid st) /\
  (forall p, is_in_bounds_or_border st p = true ->
     read_tile st p = Ok TILE_UNKNOWN /\
     is_known st p = Ok false /\ is_wall st p = Ok true) /\
  (forall p, is_in_bounds_or_border st p = false ->
     read_tile st p = OutOfBounds) /\
  doorways st = [] /\ size_x st = 4 /\ size_y st = 3.
Proof. apply init_map_blank; lia. Defined.

(** ** The exact effect of a room and of a corridor *)

Lemma dig_room_sized_stamped st e h sx sy eo :
  wf st -> Vector.cardinal h -> 1 <= sx -> 1 <= sy -> 1 <= eo <= sx ->
  forallb (cell_ok st e) (footprint h sx sy (e +v Vector.left h *v eo)) = true ->
  exists g' r1 r2 r3,
    dig_room_sized e h sx sy (e +v Vector.left h *v eo) st
    = Ok (true,
          with_doorways (tick (tick (tick (with_grid st g'))))
            (doorways st ++
             [mkDoorway (e +v Vector.left h *v eo +v h *v r1) (Vector.left h) true;
              mkDoorway (e +v Vector.left h *v eo +v h *v (sy + 1)
                         +v Vector.right h *v r2) h true;
              mkDoorway (e +v Vector.left h *v eo +v Vector.right h *v (sx + 1)
                         +v h *v r3) (Vector.right h) true])) /\
    1 <= r1 <= sy /\ 1 <= r2 <= sx /\ 1 <= r3 <= sy /\
    (forall i j, 0 <= i < sx + 2 -> 0 <= j < sy + 2 ->
       cell g' (room_at (e +v Vector.left h *v eo) h i j)
       = Some (room_tile sx sy eo i j)) /\
    (forall p, ~ In p (footprint h sx sy (e +v Vector.left h *v eo)) ->
       cell g' p = cell (grid st) p) /\
    (forall i j, 0 <= i < sx + 2 -> 0 <= j < sy + 2 -> ~ (i = eo /\ j = 0) ->
       wallish (grid st) (room_at (e +v Vector.left h *v eo) h i j) = true).
Proof.
  intros Hwf Hc Hsx Hsy Heo Hfeas.
  destruct (dig_room_sized_commit st e h sx sy eo Hwf Hc Hsx Hsy Heo Hfeas)
    as (g' & Hrun & Hwf' & Hin & Hout).
  set (corner := e +v Vector.left h *v eo) in *.
  destruct (room_connections_spec h sx sy corner (with_grid st g') Hsx Hsy)
    as (r1 & r2 & r3 & Hr1 & Hr2 & Hr3 & Hconn).
  rewrite Hconn in Hrun. exists g', r1, r2, r3.
  split; [exact Hrun|]. do 3 (split; [assumption|]).
  split; [exact Hin|]. split; [exact Hout|].
  assert (He : e = room_at corner h eo 0) by (unfold room_at, corner; vec).
  intros i j Hi Hj Hne. rewrite forallb_forall in Hfeas.
  specialize (Hfeas (room_at corner h i j)). unfold cell_ok in Hfeas.
  apply andb_true_iff in Hfeas as [_ H]; [|apply in_footprint; [lia|]; eauto].
  apply orb_true_iff in H as [H|H]; [assumption|].
  rewrite He, room_at_eqb in H by assumption. lia.
Qed.

Lemma dig_room_stamped st e h :
  wf st -> Vector.cardinal h ->
  exists b st',
    dig_room e h st = Ok (b, st') /\
    ((b = false /\ idle st st') \/
     (b = true /\ placed e h st st' /\
      exists new, doorways st' = doorways st ++ new /\
                  room_stamped e h (grid st) (grid st') new)).
Proof.
  intros Hwf Hc. unfold dig_room.
  destruct (room_draws_spec st) as (sx & sy & eo & -> & Hsx & Hsy & Heo).
  set (st3 := tick (tick (tick st))).
  assert (Hwf3 : wf st3) by (repeat apply wf_tick; assumption).
  destruct (forallb (cell_ok st3 e) (footprint h sx sy (e +v Vector.left h *v eo)))
    eqn:Hfeas.
  - destruct (dig_room_sized_placed st3 e h sx sy eo) as (st' & Hrun & Hpl);
      try assumption; try lia.
    destruct (dig_room_sized_stamped st3 e h sx sy eo)
      as (g' & r1 & r2 & r3 & Hrun' & Hr1 & Hr2 & Hr3 & Hin & Hout & Hok);
      try assumption; try lia.
    exists true, st'. split; [exact Hrun|]. right. split; [reflexivity|].
    split; [apply (placed_idle st st3); [repeat split | assumption]|].
    rewrite Hrun in Hrun'. injection Hrun' as ->.
    eexists. split; [reflexivity|].
    exists sx, sy, eo, r1, r2, r3. cbn [grid with_grid with_doorways tick].
    repeat (split; [assumption|]). reflexivity.
  - exists false, st3. split.
    + unfold dig_room_sized. rewrite room_check_spec by (assumption || lia).
      fold (footprint h sx sy (e +v Vector.left h *v eo)). rewrite Hfeas.
      reflexivity.
    + left. split; [reflexivity|]. repeat split.
Qed.

Lemma flank_not_centre h pos k k' :
  Vector.cardinal h ->
  pos +v Vector.left h +v h *v k <> pos +v h *v k' /\
  pos +v Vector.right h +v h *v k <> pos +v h *v k'.
Proof.
  intros Hc.
  split; intros E;
    pose proof (f_equal Vector.x E) as Ex; pose proof (f_equal Vector.y E) as Ey;
    cardinal_cases Hc; destruct pos; cbn in Ex, Ey; lia.
Qed.

Lemma centre_inj h pos k k' :
  Vector.cardinal h -> pos +v h *v k = pos +v h *v k' -> k = k'.
Proof.
  intros Hc E.
  pose proof (f_equal Vector.x E) as Ex. pose proof (f_equal Vector.y E) as Ey.
  cardinal_cases Hc; destruct pos; cbn in Ex, Ey; lia.
Qed.

(** The digging loop leaves plain wall on both flanks of every cell it
    went over. *)
Lemma corridor_dig_flanks h n : forall pos st m st',
  Vector.cardinal h ->
  corridor_dig h n pos (pos +v Vector.left h) (pos +v Vector.right h) st
  = Ok (pos +v h *v m, st') ->
  forall k, 1 <= k <= m ->
    cell (grid st') (pos +v Vector.left h +v h *v k) = Some TILE_WALL /\
    cell (grid st') (pos +v Vector.right h +v h *v k) = Some TILE_WALL.
Proof.
  induction n as [|n IH]; intros pos st m st' Hc H k Hk.
  - cbn in H.
    assert (Hpos : pos +v h *v 0 = pos +v h *v m)
      by (transitivity pos; [vec | congruence]).
    apply (centre_inj h pos) in Hpos; [lia | assumption].
  - cbn [corridor_dig] in H. unfold dig_tile, fill_tile in H.
    destruct (write_tile st (pos +v h) TILE_FLOOR) as [st1|] eqn:E1;
      cbn [bind] in H; [|discriminate].
    apply write_tile_inv in E1 as [S1 ->].
    destruct (write_tile _ (pos +v Vector.left h +v h) TILE_WALL) as [st2|] eqn:E2;
      cbn [bind] in H; [|discriminate].
    apply write_tile_inv in E2 as [S2 ->].
    destruct (write_tile _ (pos +v Vector.right h +v h) TILE_WALL) as [st3|] eqn:E3;
      cbn [bind] in H; [|discriminate].
    apply write_tile_inv in E3 as [S3 ->].
    cbn [grid with_grid] in *.
    set (g3 := store (store (store (grid st) (pos +v h) TILE_FLOOR)
                            (pos +v Vector.left h +v h) TILE_WALL)
                     (pos +v Vector.right h +v h) TILE_WALL) in *.
    assert (Hl3 : cell g3 (pos +v Vector.left h +v h) = Some TILE_WALL).
    { unfold g3. rewrite !cell_store by assumption.
      replace (Vector.eqb (pos +v Vector.right h +v h) (pos +v Vector.left h +v h))
        with false by (unfold Vector.eqb; cardinal_cases Hc; destruct pos; cbn; lia).
      replace (Vector.eqb (pos +v Vector.left h +v h) (pos +v Vector.left h +v h))
        with true by (symmetry; apply vec_eqb_spec; reflexivity).
      reflexivity. }
    assert (Hr3 : cell g3 (pos +v Vector.right h +v h) = Some TILE_WALL).
    { unfold g3. rewrite !cell_store by assumption.
      replace (Vector.eqb (pos +v Vector.right h +v h) (pos +v Vector.right h +v h))
        with true by (symmetry; apply vec_eqb_spec; reflexivity).
      reflexivity. }
    assert (Hstop : forall s,
              Ok (pos +v h, s) = Ok (pos +v h *v m, st') ->
              grid s = g3 ->
              cell (grid st') (pos +v Vector.left h +v h *v k) = Some TILE_WALL /\
              cell (grid st') (pos +v Vector.right h +v h *v k) = Some TILE_WALL).
    { intros s Hs Hg.
      assert (Hpos : pos +v h *v 1 = pos +v h *v m)
        by (transitivity (pos +v h); [vec | congruence]).
      apply (centre_inj h pos) in Hpos; [|assumption].
      assert (st' = s) as -> by congruence.
      assert (k = 1) as -> by lia. rewrite Hg.
      replace (pos +v Vector.left h +v h *v 1) with (pos +v Vector.left h +v h)
        by vec.
      replace (pos +v Vector.right h +v h *v 1) with (pos +v Vector.right h +v h)
        by vec.
      auto. }
    destruct (negb (is_in_bounds _ (pos +v h +v h))); [eapply Hstop; eauto|].
    destruct (is_wall _ (pos +v h +v h)) as [w|]; cbn [bind] in H; [|discriminate].
    destruct (negb w); [eapply Hstop; eauto|].
    replace (pos +v Vector.left h +v h) with (pos +v h +v Vector.left h) in H by vec.
    replace (pos +v Vector.right h +v h) with (pos +v h +v Vector.right h) in H by vec.
    replace (pos +v h *v m) with (pos +v h +v h *v (m - 1)) in H by vec.
    destruct (decide (k = 1)) as [-> | Hk1].
    + pose proof H as Heff.
      apply corridor_dig_effect in Heff as (g0 & -> & _ & Heff).
      cbn [grid with_grid] in *.
      replace (pos +v Vector.left h +v h *v 1) with (pos +v Vector.left h +v h)
        by vec.
      replace (pos +v Vector.right h +v h *v 1) with (pos +v Vector.right h +v h)
        by vec.
      split.
      * destruct (Heff (pos +v Vector.left h +v h))
          as [Hq|[[_ (k' & _ & Hq)]|[Hq _]]]; [congruence | | exact Hq].
        exfalso.
        apply (proj1 (flank_not_centre h pos 1 (k' + 1) Hc)).
        transitivity (pos +v Vector.left h +v h); [vec|]. rewrite Hq. vec.
      * destruct (Heff (pos +v Vector.right h +v h))
          as [Hq|[[_ (k' & _ & Hq)]|[Hq _]]]; [congruence | | exact Hq].
        exfalso.
        apply (proj2 (flank_not_centre h pos 1 (k' + 1) Hc)).
        transitivity (pos +v Vector.right h +v h); [vec|]. rewrite Hq. vec.
    + destruct (IH _ _ _ _ Hc H (k - 1) ltac:(lia)) as [Hl Hr].
      replace (pos +v Vector.left h +v h *v k)
        with (pos +v h +v Vector.left h +v h *v (k - 1)) by vec.
      replace (pos +v Vector.right h +v h *v k)
        with (pos +v h +v Vector.right h +v h *v (k - 1)) by vec.
      auto.
Qed.

Lemma dig_corridor_sized_stamped st e h len :
  wf st -> Vector.cardinal h ->
  exists b st',
    dig_corridor_sized e h len st = Ok (b, st') /\
    ((b = false /\ st' = st) \/
     (b = true /\ placed e h st st' /\ doorways st' = doorways st /\
      rand_calls st' = rand_calls st /\
      exists l, 2 <= l < len /\ corridor_cells e h (grid st) (grid st') l)).
Proof.
  intros Hwf Hc.
  destruct (dig_corridor_sized_spec st e h len Hwf Hc) as (b & st' & Hrun & Hres).
  exists b, st'. split; [exact Hrun|].
  destruct Hres as [[-> ->]|(-> & Hpl & Hd & l & Hscan & Hlong & Hfl & Hdoor)];
    [left; auto | right].
  split; [reflexivity|]. split; [exact Hpl|]. split; [exact Hd|].
  unfold dig_corridor_sized in Hrun. rewrite Hscan in Hrun. cbn [bind] in Hrun.
  replace (l <=? 1) with false in Hrun by lia. cbn [negb] in Hrun.
  unfold corridor_scan in Hscan.
  apply corridor_check_inv in Hscan as (m & Hm & Hsteps & Hend).
  destruct Hend as [(? & _)|(_ & Hlm & Hlt & Hb & Hopen)]; [discriminate|].
  assert (l = m) as -> by lia. clear Hlm.
  assert (Hnat : Z.of_nat (Z.to_nat m) = m) by lia.
  apply is_wall_Ok in Hopen.
  destruct (corridor_dig_run h (Z.to_nat m) e st Hwf Hc)
    as (g' & Hdig & Hwf' & Hopen' & Hfloor).
  { lia. }
  { intros k Hk. destruct (Hsteps k ltac:(lia)) as (Hbk & Hwk & _).
    split; [assumption | apply is_wall_Ok; assumption]. }
  { rewrite Hnat. assumption. }
  { rewrite Hnat. assumption. }
  rewrite Hnat in Hdig, Hopen', Hfloor.
  pose proof (corridor_dig_flanks _ _ _ _ _ _ Hc Hdig) as Hflanks.
  pose proof Hdig as Heff.
  apply corridor_dig_effect in Heff as (g0 & Hg0 & _ & Heff).
  assert (g0 = g') as -> by (injection Hg0; auto). clear Hg0.
  rewrite Hnat in Heff. cbn [grid with_grid] in Hflanks.
  rewrite Hdig in Hrun. cbn [bind] in Hrun.
  change (is_in_bounds (with_grid st g')) with (is_in_bounds st) in Hrun.
  replace (e +v h *v m +v h) with (e +v h *v (m + 1)) in Hrun by vec.
  rewrite Hb in Hrun. cbn [negb] in Hrun.
  rewrite is_wall_wallish in Hrun
    by (apply Hwf'; apply (in_bounds_border st); assumption).
  cbn [grid with_grid] in Hrun. rewrite Hopen' in Hrun. cbn [bind] in Hrun.
  unfold door_tile in Hrun.
  assert (Hbm : is_in_bounds st (e +v h *v m) = true) by (apply Hsteps; lia).
  destruct (write_tile_spec (with_grid st g') (e +v h *v m) TILE_DOOR Hwf')
    as (g'' & Hw & _ & Hg''); [apply (in_bounds_border st); assumption|].
  rewrite Hw in Hrun. cbn [bind] in Hrun. injection Hrun as <-.
  cbn [grid with_grid rand_calls] in *. split; [reflexivity|].
  exists m. split; [lia|]. unfold corridor_cells.
  split; [|split; [|split; [exact Hfl|split; [exact Hdoor|split]]]].
  - intros k Hk. destruct (Hsteps k Hk) as (_ & Hwc & Hwl & Hwr & Hpw).
    apply is_wall_Ok in Hwc, Hwl, Hwr.
    split; [exact Hwc|]. split; [|split; assumption].
    unfold is_permawall, read_tile in Hpw.
    destruct (cell (grid st) (e +v h *v k)) as [[]|]; cbn in Hpw; congruence.
  - assert (is_Some (cell (grid st) (e +v h *v (m + 1)))) as [t Ht]
      by (apply Hwf, in_bounds_border; assumption).
    unfold wallish in Hopen. rewrite Ht in Hopen. rewrite Ht.
    destruct t; cbn in Hopen; try discriminate; auto.
  - intros k Hk. destruct (Hflanks k Hk) as [Hl Hr].
    destruct (flank_not_centre h e k m Hc) as [Nl Nr].
    rewrite !Hg''.
    destruct (Vector.eqb (e +v h *v m) (e +v Vector.left h +v h *v k)) eqn:E1.
    { apply vec_eqb_spec in E1. congruence. }
    destruct (Vector.eqb (e +v h *v m) (e +v Vector.right h +v h *v k)) eqn:E2.
    { apply vec_eqb_spec in E2. congruence. }
    auto.
  - intros p. rewrite Hg''.
    destruct (Vector.eqb (e +v h *v m) p) eqn:E.
    { apply vec_eqb_spec in E. right. exists m. split; [lia | auto]. }
    destruct (Heff p) as [Hq|[[_ (k & Hk & Hq)]|[_ (k & Hk & Hq)]]].
    + left. exact Hq.
    + right. exists k. auto.
    + right. exists k. split; [exact Hk|]. tauto.
Qed.

Lemma dig_corridor_stamped st e h :
  wf st -> Vector.cardinal h ->
  exists b st',
    dig_corridor e h st = Ok (b, st') /\
    ((b = false /\ idle st st') \/
     (b = true /\ placed e h st st' /\ doorways st' = doorways st /\
      corridor_stamped e h (grid st) (grid st'))).
Proof.
  intros Hwf Hc. unfold dig_corridor. rewrite rand_range_eq.
  destruct (dig_corridor_sized_stamped (tick st) e h (draw 2 6 st))
    as (b & st' & Hrun & Hres); [apply wf_tick; assumption | assumption |].
  exists b, st'. split; [exact Hrun|].
  destruct Hres as [[-> ->]|(-> & Hpl & Hd & _ & l & Hl & Hcells)].
  - left. split; [reflexivity | apply idle_tick].
  - right. split; [reflexivity|].
    split; [apply (placed_idle st (tick st)); [apply idle_tick | assumption]|].
    split; [exact Hd|]. exists l. split; [|exact Hcells].
    pose proof (draw_bounds 2 6 st ltac:(lia)). lia.
Qed.

(** [dig_random] changes nothing, or commits exactly one room or one
    corridor. *)
Lemma dig_random_tries_stamped n : forall st e h,
  wf st -> Vector.cardinal h ->
  exists b st',
    dig_random_tries n e h st = Ok (b, st') /\
    ((b = false /\ idle st st') \/
     (b = true /\ placed e h st st' /\
      exists new, doorways st' = doorways st ++ new /\
                  stamped e h (grid st) (grid st') new)).
Proof.
  induction n as [|n IH]; intros st e h Hwf Hc.
  - exists false, st. split; [reflexivity|]. left. split; [reflexivity | apply idle_refl].
  - cbn [dig_random_tries]. rewrite rand_range_eq.
    assert (Hwf1 : wf (tick st)) by (apply wf_tick; assumption).
    assert (Hattempt : exists b st',
      (if draw 0 1 st =? 1 then dig_corridor e h (tick st)
       else dig_room e h (tick st)) = Ok (b, st') /\
      ((b = false /\ idle (tick st) st') \/
       (b = true /\ placed e h (tick st) st' /\
        exists new, doorways st' = doorways (tick st) ++ new /\
                    stamped e h (grid (tick st)) (grid st') new))).
    { destruct (draw 0 1 st =? 1).
      - destruct (dig_corridor_stamped (tick st) e h Hwf1 Hc)
          as (b & st' & Hrun & Hres).
        exists b, st'. split; [exact Hrun|].
        destruct Hres as [?|(-> & Hpl & Hd & Hst)]; [left; assumption|right].
        split; [reflexivity|]. split; [exact Hpl|].
        exists []. split; [rewrite app_nil_r; exact Hd|]. right. auto.
      - destruct (dig_room_stamped (tick st) e h Hwf1 Hc)
          as (b & st' & Hrun & Hres).
        exists b, st'. split; [exact Hrun|].
        destruct Hres as [?|(-> & Hpl & new & Hd & Hst)]; [left; assumption|right].
        split; [reflexivity|]. split; [exact Hpl|].
        exists new. split; [exact Hd|]. left. exact Hst. }
    destruct Hattempt as (b & st' & -> & Hres). cbn [bind].
    destruct Hres as [[-> Hidle]|(-> & Hpl & Hnew)].
    + destruct (IH st' e h) as (b & st'' & Hrun & Hres);
        [apply (wf_idle (tick st)); assumption | assumption |].
      exists b, st''. split; [exact Hrun|].
      assert (Hi : idle st st')
        by (apply (idle_trans _ (tick st)); [apply idle_tick | assumption]).
      destruct Hres as [[-> Hidle']|(-> & Hpl & Hnew)].
      * left. split; [reflexivity|]. apply (idle_trans _ st'); assumption.
      * right. split; [reflexivity|].
        split; [apply (placed_idle st st'); assumption|].
        destruct Hi as (Hg & _ & _ & Hds & _). rewrite <- Hg, <- Hds. exact Hnew.
    + exists true, st'. split; [reflexivity|]. right. split; [reflexivity|].
      split; [apply (placed_idle st (tick st)); [apply idle_tick | assumption]|].
      exact Hnew.
Qed.

(** ** Invariants of the worklist loop: sealed floors, connecting doors *)

Lemma around_cardinal h dx dy :
  Vector.cardinal h -> -1 <= dx <= 1 -> -1 <= dy <= 1 ->
  exists a b, -1 <= a <= 1 /\ -1 <= b <= 1 /\
    Vector.mk dx dy = Vector.right h *v a +v h *v b.
Proof.
  intros Hc Hx Hy. cardinal_cases Hc.
  - exists dx, (- dy). split; [lia|]. split; [lia|].
    unfold Vector.scale, Vector.add, Vector.right; cbn. f_equal; lia.
  - exists dy, dx. split; [lia|]. split; [lia|].
    unfold Vector.scale, Vector.add, Vector.right; cbn. f_equal; lia.
  - exists (- dx), dy. split; [lia|]. split; [lia|].
    unfold Vector.scale, Vector.add, Vector.right; cbn. f_equal; lia.
  - exists (- dy), (- dx). split; [lia|]. split; [lia|].
    unfold Vector.scale, Vector.add, Vector.right; cbn. f_equal; lia.
Qed.

Lemma later_refl g : later g g.
Proof. repeat split; auto. Qed.

Lemma later_trans g1 g2 g3 : later g1 g2 -> later g2 g3 -> later g1 g3.
Proof. intros (F1 & D1 & K1) (F2 & D2 & K2). repeat split; auto. Qed.

Lemma room_tile_known sx sy eo i j : room_tile sx sy eo i j <> TILE_UNKNOWN.
Proof.
  destruct (room_tile_cases sx sy eo i j)
    as [(_ & _ & ->)|[(_ & _ & ->)|(_ & _ & [(_ & _ & ->)| ->])]]; discriminate.
Qed.

(** A committed feature only ever writes known tiles. *)
Lemma stamped_known e h g g' new p :
  stamped e h g g' new -> known g p -> known g' p.
Proof.
  intros [Hroom|[(l & Hl & Hcells) _]] Hk.
  - destruct Hroom as (sx & sy & eo & r1 & r2 & r3 & Hsx & Hsy & Heo & _ & _ & _
                       & Hin & Hout & _).
    destruct (in_dec vec_eq_dec p (footprint h sx sy (e +v Vector.left h *v eo)))
      as [Hf|Hf].
    + apply in_footprint in Hf as (i & j & Hi & Hj & ->); [|lia].
      eexists. split; [apply Hin; assumption | apply room_tile_known].
    + unfold known. rewrite Hout by assumption. exact Hk.
  - destruct Hcells as (_ & _ & Hfl & Hdoor & Hflank & Hframe).
    destruct (Hframe p) as [Hq|(k & Hk' & [-> | [-> | ->]])].
    + unfold known. rewrite Hq. exact Hk.
    + destruct (decide (k = l)) as [-> | Hne].
      * eexists. split; [exact Hdoor | discriminate].
      * eexists. split; [apply Hfl; lia | discriminate].
    + eexists. split; [apply Hflank; assumption | discriminate].
    + eexists. split; [apply Hflank; assumption | discriminate].
Qed.

(** The choice the loop makes and the one feature [dig_random] commits. *)
Lemma dig_step_stamped st :
  wf st -> Forall (door_ok st) (doorways st) -> doorways st <> [] ->
  exists i door b st2,
    doorways st !! i = Some door /\
    ((b = false /\
      idle (with_doorways (tick st) (delete i (doorways st))) st2 /\
      dig_step st = Ok st2) \/
     (b = true /\
      placed (location door) (heading door)
             (with_doorways (tick st) (delete i (doorways st))) st2 /\
      (exists new,
         doorways st2 = delete i (doorways st) ++ new /\
         stamped (location door) (heading door) (grid st) (grid st2) new) /\
      dig_step st = connect_doorway door st2)).
Proof.
  intros Hwf Hdoors Hne. unfold dig_step. rewrite rand_range_eq.
  assert (Hlen : (0 < length (doorways st))%nat)
    by (destruct (doorways st); [congruence | cbn; lia]).
  pose proof (draw_bounds 0 (Z.of_nat (length (doorways st)) - 1) st ltac:(lia))
    as Hwhich.
  set (which := draw 0 (Z.of_nat (length (doorways st)) - 1) st) in *.
  clearbody which.
  replace (which <? 0) with false by lia.
  change (doorways (tick st)) with (doorways st).
  destruct (doorways st !! Z.to_nat which) as [door|] eqn:Hdoor;
    [|apply lookup_ge_None in Hdoor; lia].
  assert (Hok : door_ok st door)
    by (rewrite Forall_lookup in Hdoors; eapply Hdoors; eauto).
  destruct Hok as (Hcard & _).
  set (st1 := with_doorways (tick st) (delete (Z.to_nat which) (doorways st))).
  assert (Hwf1 : wf st1) by (apply wf_with_doorways, wf_tick, Hwf).
  destruct (dig_random_tries_stamped max_tries st1 (location door) (heading door)
              Hwf1 Hcard) as (b & st2 & Hrun & Hres).
  exists (Z.to_nat which), door, b, st2. split; [exact Hdoor|].
  unfold dig_random. rewrite Hrun. cbn [bind].
  destruct Hres as [[-> Hidle] | (-> & Hpl & Hnew)]; [left | right]; auto.
Qed.

Lemma door_connects_later g g' p :
  later g g' -> door_connects g p -> door_connects g' p.
Proof.
  intros (HF & HD & _) (h & Hc & Hb & Ha). exists h. split; [exact Hc|].
  split; [apply HF, Hb|]. destruct Ha as [Ha|Ha]; [left; apply HF | right; apply HD];
    exact Ha.
Qed.

Lemma known_tile g p t : cell g p = Some t -> t <> TILE_UNKNOWN -> known g p.
Proof. intros H Ht. exists t. auto. Qed.

(** One iteration keeps the third invariant, and what was dug stays dug. *)
Lemma dig_step_sealed st :
  Inv st -> Inv2 st -> Inv3 st -> doorways st <> [] ->
  exists st',
    dig_step st = Ok st' /\ Inv3 st' /\ later (grid st) (grid st').
Proof.
  intros (Hwf & Hdoors & _ & _) (Hentries & Hcorners) (Hnear & Hsealed & Hconn) Hne.
  destruct (dig_step_stamped st Hwf Hdoors Hne)
    as (ix & door & b & st2 & Hdoor & Hres).
  set (st1 := with_doorways (tick st) (delete ix (doorways st))) in *.
  assert (Hok : door_ok st door)
    by (rewrite Forall_lookup in Hdoors; eapply Hdoors; eauto).
  destruct Hok as (Hcard & Hloc & _).
  assert (Hen : has_door door = true /\
                entry_ok (grid st) (location door) (heading door))
    by (rewrite Forall_lookup in Hentries; apply (Hentries ix); exact Hdoor).
  destruct Hen as (Hhd & Hentry).
  pose proof Hnear as Hnr. rewrite Forall_lookup in Hnr.
  specialize (Hnr ix door Hdoor). cbn beta in Hnr.
  destruct Hnr as (Hke & Hkl & Hkr & _).
  assert (Hnear1 := Forall_delete _ _ ix Hnear).
  destruct Hres as [(-> & Hidle & Hstep)|(-> & Hpl & (new & Hds & Hst) & Hstep)].
  - exists st2. split; [exact Hstep|].
    destruct Hidle as (Hg & Hsx & Hsy & Hds & _).
    change (grid st1) with (grid st) in Hg.
    change (size_x st1) with (size_x st) in Hsx.
    change (size_y st1) with (size_y st) in Hsy.
    change (doorways st1) with (delete ix (doorways st)) in Hds.
    split; [|rewrite Hg; apply later_refl].
    unfold Inv3, map_entrance. rewrite Hg, Hds, Hsx, Hsy.
    split; [exact Hnear1|]. split; [exact Hsealed | exact Hconn].
  - destruct Hpl as (Hsx & Hsy & _ & Hwf2 & Hkeep & _ & _ & _
                     & new0 & _ & _ & _ & Hkept).
    change (grid st1) with (grid st) in Hkeep, Hkept.
    change (size_x st1) with (size_x st) in Hsx.
    change (size_y st1) with (size_y st) in Hsy.
    destruct (Hkept Hentry Hcorners) as (K1 & _ & _ & _ & K5 & _ & _).
    clear Hkept.
    unfold connect_doorway in Hstep. rewrite Hhd in Hstep. unfold door_tile in Hstep.
    set (e := location door) in *. set (h := heading door) in *.
    set (g := grid st) in *. set (g2 := grid st2) in *.
    destruct (write_tile_spec st2 e TILE_DOOR Hwf2) as (g3 & Hw & _ & Hg3).
    { rewrite (in_bounds_or_border_ext st st2) by assumption. exact Hloc. }
    fold g2 in Hg3.
    rewrite Hw in Hstep. exists (with_grid st2 g3). split; [exact Hstep|].
    destruct Hentry as [He_nf He_behind].
    assert (He2_nf : cell g2 e <> Some TILE_FLOOR)
      by (destruct K5 as [E|E]; rewrite E; [discriminate | exact He_nf]).
    assert (He3 : cell g3 e = Some TILE_DOOR).
    { rewrite Hg3.
      replace (Vector.eqb e e) with true
        by (symmetry; apply vec_eqb_spec; reflexivity).
      reflexivity. }
    assert (Hne3 : forall p, p <> e -> cell g3 p = cell g2 p).
    { intros p Hp. rewrite Hg3. destruct (Vector.eqb e p) eqn:E; [|reflexivity].
      apply vec_eqb_spec in E. congruence. }
    assert (HF23 : forall p, cell g2 p = Some TILE_FLOOR ->
                             cell g3 p = Some TILE_FLOOR).
    { intros p Hp. rewrite Hne3; [exact Hp|]. intros ->. contradiction. }
    assert (HD23 : forall p, cell g2 p = Some TILE_DOOR ->
                             cell g3 p = Some TILE_DOOR).
    { intros p Hp. destruct (vec_eq_dec p e) as [-> | Hpe]; [exact He3|].
      rewrite Hne3; assumption. }
    assert (HK23 : forall p, known g2 p -> known g3 p).
    { intros p Hp. destruct (vec_eq_dec p e) as [-> | Hpe].
      - eapply known_tile; [exact He3 | discriminate].
      - unfold known. rewrite Hne3; assumption. }
    assert (Hlater : later g g3).
    { split; [|split].
      - intros p Hp. apply HF23, K1, Hp.
      - intros p Hp. apply HD23, Hkeep, Hp.
      - intros p Hp. apply HK23. eapply stamped_known; eassumption. }
    assert (Hahead : cell g3 (e +v h) = Some TILE_FLOOR).
    { apply HF23.
      destruct Hst as [Hroom|[(l & Hl & Hcells) _]].
      - destruct Hroom as (sx & sy & eo & r1 & r2 & r3 & Hsx' & Hsy' & Heo & _ & _ & _
                           & Hin & _).
        replace (e +v h) with (room_at (e +v Vector.left h *v eo) h eo 1)
          by (unfold room_at; vec).
        rewrite Hin by lia.
        destruct (room_tile_cases sx sy eo eo 1)
          as [(_ & ? & _)|[(_ & _ & ->)|(? & _)]]; [lia | reflexivity | lia].
      - destruct Hcells as (_ & _ & Hfl & _).
        replace (e +v h) with (e +v h *v 1) by vec. apply Hfl. lia. }
    split; [|exact Hlater].
    unfold Inv3, map_entrance.
    change (doorways (with_grid st2 g3)) with (doorways st2).
    change (grid (with_grid st2 g3)) with g3.
    change (size_x (with_grid st2 g3)) with (size_x st2).
    change (size_y (with_grid st2 g3)) with (size_y st2).
    rewrite Hsx, Hsy. fold (map_entrance st).
    split; [|split].
    + rewrite Hds. apply Forall_app. split.
      * eapply Forall_impl; [exact Hnear1|].
        intros d (H1 & H2 & H3 & H4). destruct Hlater as (HF & _ & HK).
        do 3 (split; [auto|]). destruct H4 as [H4|H4]; auto.
      * destruct Hst as [Hroom|[_ ->]]; [|constructor].
        destruct Hroom as (sx & sy & eo & r1 & r2 & r3 & Hsx' & Hsy' & Heo
                           & Hr1 & Hr2 & Hr3 & Hin & _ & _ & ->).
        set (corner := e +v Vector.left h *v eo) in *.
        assert (Hkn : forall i j, 0 <= i < sx + 2 -> 0 <= j < sy + 2 ->
                        known g3 (room_at corner h i j)).
        { intros i j Hi Hj. apply HK23.
          eapply known_tile; [apply Hin; assumption | apply room_tile_known]. }
        assert (Hfl3 : forall i j, 1 <= i <= sx -> 1 <= j <= sy ->
                         cell g3 (room_at corner h i j) = Some TILE_FLOOR).
        { intros i j Hi Hj. apply HF23. rewrite Hin by lia.
          destruct (room_tile_cases sx sy eo i j)
            as [(_ & ? & _)|[(_ & _ & ->)|(? & _)]]; [lia | reflexivity | tauto]. }
        constructor; [|constructor; [|constructor; [|constructor]]];
          cbn [location heading]; (split; [|split; [|split]]).
        -- replace (corner +v h *v r1) with (room_at corner h 0 r1)
             by (unfold room_at; vec). apply Hkn; lia.
        -- replace (corner +v h *v r1 +v Vector.left (Vector.left h))
             with (room_at corner h 0 (r1 - 1)) by (unfold room_at; vec).
           apply Hkn; lia.
        -- replace (corner +v h *v r1 +v Vector.right (Vector.left h))
             with (room_at corner h 0 (r1 + 1)) by (unfold room_at; vec).
           apply Hkn; lia.
        -- left. replace (corner +v h *v r1 -v Vector.left h)
             with (room_at corner h 1 r1) by (unfold room_at; vec).
           apply Hfl3; lia.
        -- replace (corner +v h *v (sy + 1) +v Vector.right h *v r2)
             with (room_at corner h r2 (sy + 1)) by (unfold room_at; vec).
           apply Hkn; lia.
        -- replace (corner +v h *v (sy + 1) +v Vector.right h *v r2 +v Vector.left h)
             with (room_at corner h (r2 - 1) (sy + 1)) by (unfold room_at; vec).
           apply Hkn; lia.
        -- replace (corner +v h *v (sy + 1) +v Vector.right h *v r2 +v Vector.right h)
             with (room_at corner h (r2 + 1) (sy + 1)) by (unfold room_at; vec).
           apply Hkn; lia.
        -- left. replace (corner +v h *v (sy + 1) +v Vector.right h *v r2 -v h)
             with (room_at corner h r2 sy) by (unfold room_at; vec).
           apply Hfl3; lia.
        -- apply (Hkn (sx + 1) r3); lia.
        -- replace (corner +v Vector.right h *v (sx + 1) +v h *v r3
                    +v Vector.left (Vector.right h))
             with (room_at corner h (sx + 1) (r3 + 1)) by (unfold room_at; vec).
           apply Hkn; lia.
        -- replace (corner +v Vector.right h *v (sx + 1) +v h *v r3
                    +v Vector.right (Vector.right h))
             with (room_at corner h (sx + 1) (r3 - 1)) by (unfold room_at; vec).
           apply Hkn; lia.
        -- left.
           replace (corner +v Vector.right h *v (sx + 1) +v h *v r3 -v Vector.right h)
             with (room_at corner h sx r3) by (unfold room_at; vec).
           apply Hfl3; lia.
    + intros p q Hp Hq.
      assert (Hpe : p <> e) by (intros ->; congruence).
      rewrite Hne3 in Hp by assumption.
      assert (Hold : cell g p = Some TILE_FLOOR -> known g3 q).
      { intros Hpg. destruct Hlater as (_ & _ & HK). apply HK.
        apply (Hsealed p q); assumption. }
      destruct Hq as (dx & dy & Hdx & Hdy & ->).
      destruct (around_cardinal h dx dy Hcard Hdx Hdy) as (a & b & Ha & Hb & Hab).
      rewrite Hab in Hold |- *. clear Hab.
      destruct Hst as [Hroom|[(l & Hl & Hcells) _]].
      * destruct Hroom as (sx & sy & eo & r1 & r2 & r3 & Hsx' & Hsy' & Heo & _ & _ & _
                           & Hin & Hout & _).
        set (corner := e +v Vector.left h *v eo) in *.
        destruct (in_dec vec_eq_dec p (footprint h sx sy corner)) as [Hf|Hf].
        -- apply in_footprint in Hf as (i & j & Hi & Hj & ->); [|lia].
           rewrite Hin in Hp by assumption.
           destruct (room_tile_cases sx sy eo i j)
             as [(_ & _ & E)|[(Hii & Hij & _)|(_ & _ & [(_ & _ & E)|E])]];
             try (rewrite E in Hp; discriminate).
           replace (room_at corner h i j +v (Vector.right h *v a +v h *v b))
             with (room_at corner h (i + a) (j + b)) by (unfold room_at; vec).
           apply HK23.
           eapply known_tile; [apply Hin; lia | apply room_tile_known].
        -- apply Hold. rewrite <- Hout by assumption. exact Hp.
      * destruct Hcells as (_ & _ & Hfl & Hdoor' & Hflank & Hframe).
        destruct (Hframe p) as [Hq|(k & Hk & [-> | [-> | ->]])].
        -- apply Hold. rewrite <- Hq. exact Hp.
        -- assert (k <> l) by (intros ->; congruence).
           replace (e +v h *v k +v (Vector.right h *v a +v h *v b))
             with (e +v Vector.right h *v a +v h *v (k + b)) by vec.
           destruct (decide (k + b = 0)) as [E0|E0].
           ++ rewrite E0.
              destruct (decide (a = 0)) as [-> | Ha0];
                [|destruct (decide (a = 1)) as [-> | Ha1]].
              ** replace (e +v Vector.right h *v 0 +v h *v 0) with e by vec.
                 eapply known_tile; [exact He3 | discriminate].
              ** replace (e +v Vector.right h *v 1 +v h *v 0)
                   with (e +v Vector.right h) by vec.
                 destruct Hlater as (_ & _ & HK). apply HK. exact Hkr.
              ** assert (a = -1) as -> by lia.
                 replace (e +v Vector.right h *v (-1) +v h *v 0)
                   with (e +v Vector.left h) by vec.
                 destruct Hlater as (_ & _ & HK). apply HK. exact Hkl.
           ++ apply HK23.
              destruct (decide (a = 0)) as [-> | Ha0];
                [|destruct (decide (a = 1)) as [-> | Ha1]].
              ** replace (e +v Vector.right h *v 0 +v h *v (k + b))
                   with (e +v h *v (k + b)) by vec.
                 destruct (decide (k + b = l)) as [-> | Hlt].
                 --- eapply known_tile; [exact Hdoor' | discriminate].
                 --- eapply known_tile; [apply Hfl; lia | discriminate].
              ** replace (e +v Vector.right h *v 1 +v h *v (k + b))
                   with (e +v Vector.right h +v h *v (k + b)) by vec.
                 eapply known_tile; [apply Hflank; lia | discriminate].
              ** assert (a = -1) as -> by lia.
                 replace (e +v Vector.right h *v (-1) +v h *v (k + b))
                   with (e +v Vector.left h +v h *v (k + b)) by vec.
                 eapply known_tile; [apply Hflank; lia | discriminate].
        -- exfalso. destruct (Hflank k Hk) as [E _]. congruence.
        -- exfalso. destruct (Hflank k Hk) as [_ E]. congruence.
    + intros p Hp.
      assert (Holdd : cell g p = Some TILE_DOOR ->
                      p = map_entrance st \/ door_connects g3 p).
      { intros Hpg. destruct (Hconn p Hpg) as [?|Hc0]; [left; assumption|].
        right. eapply door_connects_later; eassumption. }
      destruct (vec_eq_dec p e) as [-> | Hpe].
      * destruct He_behind as [Hb|Hb]; [|apply Holdd; exact Hb].
        right. exists h. split; [exact Hcard|]. split; [|left; exact Hahead].
        destruct Hlater as (HF & _). apply HF. exact Hb.
      * rewrite Hne3 in Hp by assumption.
        destruct Hst as [Hroom|[(l & Hl & Hcells) _]].
        -- destruct Hroom as (sx & sy & eo & r1 & r2 & r3 & Hsx' & Hsy' & Heo
                              & _ & _ & _ & Hin & Hout & _).
           set (corner := e +v Vector.left h *v eo) in *.
           destruct (in_dec vec_eq_dec p (footprint h sx sy corner)) as [Hf|Hf].
           ++ apply in_footprint in Hf as (i & j & Hi & Hj & ->); [|lia].
              rewrite Hin in Hp by assumption.
              destruct (room_tile_cases sx sy eo i j)
                as [(-> & -> & _)|[(_ & _ & E)|(_ & _ & [(_ & _ & E)|E])]];
                try (rewrite E in Hp; discriminate).
              exfalso. apply Hpe. unfold room_at, corner. vec.
           ++ apply Holdd. rewrite <- Hout by assumption. exact Hp.
        -- destruct Hcells as (_ & Hopen & Hfl & Hdoor' & Hflank & Hframe).
           destruct (Hframe p) as [Hq|(k & Hk & [-> | [-> | ->]])].
           ++ apply Holdd. rewrite <- Hq. exact Hp.
           ++ destruct (decide (k = l)) as [-> | Hkl'].
              ** right. exists h. split; [exact Hcard|]. split.
                 --- replace (e +v h *v l -v h) with (e +v h *v (l - 1)) by vec.
                     apply HF23, Hfl. lia.
                 --- replace (e +v h *v l +v h) with (e +v h *v (l + 1)) by vec.
                     destruct Hlater as (HF & HD & _).
                     destruct Hopen as [Ho|Ho]; [left; apply HF | right; apply HD];
                       exact Ho.
              ** exfalso. rewrite Hfl in Hp by lia. discriminate.
           ++ exfalso. destruct (Hflank k Hk) as [E _]. congruence.
           ++ exfalso. destruct (Hflank k Hk) as [_ E]. congruence.
Qed.

Lemma dig_seed_Inv3 sx sy src st0 :
  dig_seed (init_map sx sy src) = Ok st0 -> Inv3 st0.
Proof.
  set (st := init_map sx sy src). set (e := map_entrance st).
  unfold dig_seed, door_tile, fill_tile. fold e.
  set (d := mkDoorway e (Vector.mk 0 (-1)) true).
  destruct (write_tile (push_doorway st d) e TILE_DOOR) as [s1|] eqn:E1;
    cbn [bind]; [|discriminate].
  apply write_tile_inv in E1 as [S1 ->].
  destruct (write_tile _ (e +v Vector.mk 1 0) TILE_WALL) as [s2|] eqn:E2;
    cbn [bind]; [|discriminate].
  apply write_tile_inv in E2 as [S2 ->].
  intros E3. apply write_tile_inv in E3 as [S3 ->].
  cbn [grid with_grid push_doorway with_doorways] in *.
  set (g3 := store (store (store (grid st) e TILE_DOOR)
                          (e +v Vector.mk 1 0) TILE_WALL)
                   (e -v Vector.mk 1 0) TILE_WALL).
  assert (Hcell : forall p,
            cell g3 p
            = if Vector.eqb (e -v Vector.mk 1 0) p then Some TILE_WALL
              else if Vector.eqb (e +v Vector.mk 1 0) p then Some TILE_WALL
              else if Vector.eqb e p then Some TILE_DOOR
              else cell (grid st) p).
  { intros p. unfold g3. rewrite !cell_store by assumption. reflexivity. }
  unfold Inv3. cbn [doorways grid]. fold g3.
  change (map_entrance _) with e.
  split; [|split].
  - constructor; [|constructor]. unfold d. cbn [location heading].
    split; [|split; [|split]].
    + exists TILE_DOOR. split; [|discriminate]. rewrite Hcell.
      replace (Vector.eqb (e -v Vector.mk 1 0) e) with false
        by (unfold Vector.eqb; destruct e; cbn; lia).
      replace (Vector.eqb (e +v Vector.mk 1 0) e) with false
        by (unfold Vector.eqb; destruct e; cbn; lia).
      replace (Vector.eqb e e) with true
        by (symmetry; apply vec_eqb_spec; reflexivity).
      reflexivity.
    + exists TILE_WALL. split; [|discriminate]. rewrite Hcell.
      replace (Vector.eqb (e -v Vector.mk 1 0)
                 (e +v Vector.left (Vector.mk 0 (-1)))) with true
        by (unfold Vector.eqb; destruct e; cbn; lia).
      reflexivity.
    + exists TILE_WALL. split; [|discriminate]. rewrite Hcell.
      replace (Vector.eqb (e -v Vector.mk 1 0)
                 (e +v Vector.right (Vector.mk 0 (-1)))) with false
        by (unfold Vector.eqb; destruct e; cbn; lia).
      replace (Vector.eqb (e +v Vector.mk 1 0)
                 (e +v Vector.right (Vector.mk 0 (-1)))) with true
        by (unfold Vector.eqb; destruct e; cbn; lia).
      reflexivity.
    + right. reflexivity.
  - intros p q Hp _. exfalso. rewrite Hcell in Hp.
    destruct (Vector.eqb (e -v Vector.mk 1 0) p); [discriminate|].
    destruct (Vector.eqb (e +v Vector.mk 1 0) p); [discriminate|].
    destruct (Vector.eqb e p); [discriminate|].
    apply cell_init_map in Hp. discriminate.
  - intros p Hp. left. rewrite Hcell in Hp.
    destruct (Vector.eqb (e -v Vector.mk 1 0) p); [discriminate|].
    destruct (Vector.eqb (e +v Vector.mk 1 0) p); [discriminate|].
    destruct (Vector.eqb e p) eqn:E.
    + apply vec_eqb_spec in E. congruence.
    + apply cell_init_map in Hp. discriminate.
Qed.

Lemma dig_drain_sealed fuel : forall st,
  Inv st -> Inv2 st -> Inv3 st ->
  match dig_drain fuel st with
  | Done st' | Running st' =>
      Inv st' /\ Inv2 st' /\ Inv3 st' /\ later (grid st) (grid st')
  | Crashed => False
  end.
Proof.
  induction fuel as [|fuel IH]; intros st HI HJ HK.
  - cbn. destruct (doorways st); auto using later_refl.
  - cbn [dig_drain]. destruct (doorways st) as [|d ds] eqn:Hd;
      [auto using later_refl|].
    destruct (dig_step_spec st HI) as (st' & Hs & HI' & _); [congruence|].
    destruct (dig_step_kept st HI HJ) as (st'' & Hs' & HJ' & _); [congruence|].
    rewrite Hs in Hs'. injection Hs' as <-.
    destruct (dig_step_sealed st HI HJ HK) as (st'' & Hs' & HK' & Hl);
      [congruence|].
    rewrite Hs in Hs'. injection Hs' as <-. rewrite Hs.
    specialize (IH st' HI' HJ' HK').
    destruct (dig_drain fuel st') as [s| |s]; [| exact IH |];
      destruct IH as (? & ? & ? & Hl');
      (split; [assumption|]; split; [assumption|]; split; [assumption|]);
      eapply later_trans; eassumption.
Qed.

Lemma dig_drain_add k : forall s st n,
  dig_drain k s = Running st -> dig_drain (k + n) s = dig_drain n st.
Proof.
  induction k as [|k IH]; intros s st n H.
  - cbn [dig_drain] in H. destruct (doorways s); [discriminate|].
    injection H as <-. reflexivity.
  - cbn [dig_drain] in H. change (S k + n)%nat with (S (k + n)). cbn [dig_drain].
    destruct (doorways s); [discriminate|].
    destruct (dig_step s) as [s1|]; [|discriminate].
    apply IH. exact H.
Qed.

(** Every state of a run satisfies the three parts of the invariant; a
    run can only break off in the seeding of a map that is too narrow. *)
Lemma generate_invariants fuel sx sy src :
  match generate fuel sx sy src with
  | Done st | Running st => Inv st /\ Inv2 st /\ Inv3 st
  | Crashed => sx < 3 \/ sy < 1
  end.
Proof.
  unfold generate, dig_loop.
  destruct (decide (3 <= sx /\ 1 <= sy)) as [[Hsx Hsy]|Hn].
  - destruct (dig_seed_spec sx sy src Hsx Hsy) as (st0 & Hseed & HI & _).
    rewrite Hseed.
    pose proof (dig_drain_sealed fuel st0 HI (dig_seed_Inv2 _ _ _ _ Hseed)
                  (dig_seed_Inv3 _ _ _ _ Hseed)) as H.
    destruct (dig_drain fuel st0); tauto.
  - rewrite dig_seed_crash by lia. lia.
Qed.

(** ** [dig_room], [dig_corridor] and [dig_random] in full *)

(** X9. [dig_room] draws a size of 3..6 by 3..6 and an entrance offset
    within the near wall, and succeeds exactly when every cell of the
    footprint (the room and its ring of wall) is on the grid and is
    wall-like or the entrance. On success the footprint holds exactly the
    room - floor inside, permawall at the four corners, a door at the
    entrance, plain wall on the rest of the ring - every other cell is as
    before, and six random numbers have been used; on failure three have
    been used and neither the grid nor the worklist has changed. *)
Theorem dig_room_layout st (e h : Vector) :
  wf st -> Vector.cardinal h ->
  exists sx sy eo b st',
    room_draws st = (sx, sy, eo, tick (tick (tick st))) /\
    3 <= sx <= 6 /\ 3 <= sy <= 6 /\ 1 <= eo <= sx /\
    dig_room e h st = Ok (b, st') /\
    b = forallb (cell_ok st e) (footprint h sx sy (e +v Vector.left h *v eo)) /\
    if b then
      rand_calls st' = (rand_calls st + 6)%nat /\
      (forall i j, 0 <= i < sx + 2 -> 0 <= j < sy + 2 ->
         cell (grid st') (room_at (e +v Vector.left h *v eo) h i j)
         = Some (room_tile sx sy eo i j)) /\
      (forall p, ~ In p (footprint h sx sy (e +v Vector.left h *v eo)) ->
         cell (grid st') p = cell (grid st) p)
    else
      rand_calls st' = (rand_calls st + 3)%nat /\
      grid st' = grid st /\ doorways st' = doorways st.
Proof.
  intros Hwf Hc.
  destruct (room_draws_spec st) as (sx & sy & eo & Hdraws & Hsx & Hsy & Heo).
  set (st3 := tick (tick (tick st))) in *.
  assert (Hwf3 : wf st3) by (repeat apply wf_tick; assumption).
  exists sx, sy, eo.
  change (cell_ok st e) with (cell_ok st3 e).
  destruct (forallb (cell_ok st3 e) (footprint h sx sy (e +v Vector.left h *v eo)))
    eqn:Hfeas.
  - destruct (dig_room_sized_stamped st3 e h sx sy eo)
      as (g' & r1 & r2 & r3 & Hrun & _ & _ & _ & Hin & Hout & _);
      try assumption; try lia.
    eexists true, _. split; [exact Hdraws|]. do 3 (split; [assumption|]).
    split; [unfold dig_room; rewrite Hdraws; exact Hrun|].
    split; [reflexivity|].
    cbn [grid rand_calls with_grid with_doorways tick st3].
    split; [lia|]. split; [exact Hin | exact Hout].
  - exists false, st3. split; [exact Hdraws|]. do 3 (split; [assumption|]).
    split; [|split; [reflexivity|]].
    + unfold dig_room. rewrite Hdraws. unfold dig_room_sized.
      rewrite room_check_spec by (assumption || lia).
      fold (footprint h sx sy (e +v Vector.left h *v eo)). rewrite Hfeas.
      reflexivity.
    + cbn [grid rand_calls doorways tick st3]. split; [lia|]. split; reflexivity.
Qed.

Lemma dig_room_layout_witness :
  exists sx sy eo b st',
    room_draws (init_map 20 20 demo_tape)
    = (sx, sy, eo, tick (tick (tick (init_map 20 20 demo_tape)))) /\
    3 <= sx <= 6 /\ 3 <= sy <= 6 /\ 1 <= eo <= sx /\
    dig_room (Vector.mk 10 19) (Vector.mk 0 (-1)) (init_map 20 20 demo_tape)
    = Ok (b, st') /\
    b = forallb (cell_ok (init_map 20 20 demo_tape) (Vector.mk 10 19))
          (footprint (Vector.mk 0 (-1)) sx sy
             (Vector.mk 10 19 +v Vector.left (Vector.mk 0 (-1)) *v eo)) /\
    if b then
      rand_calls st' = (rand_calls (init_map 20 20 demo_tape) + 6)%nat /\
      (forall i j, 0 <= i < sx + 2 -> 0 <= j < sy + 2 ->
         cell (grid st')
           (room_at (Vector.mk 10 19 +v Vector.left (Vector.mk 0 (-1)) *v eo)
                    (Vector.mk 0 (-1)) i j)
         = Some (room_tile sx sy eo i j)) /\
      (forall p,
         ~ In p (footprint (Vector.mk 0 (-1)) sx sy
                   (Vector.mk 10 19 +v Vector.left (Vector.mk 0 (-1)) *v eo)) ->
         cell (grid st') p = cell (grid (init_map 20 20 demo_tape)) p)
    else
      rand_calls st' = (rand_calls (init_map 20 20 demo_tape) + 3)%nat /\
      grid st' = grid (init_map 20 20 demo_tape) /\
      doorways st' = doorways (init_map 20 20 demo_tape).
Proof.
  apply dig_room_layout.
  - apply wf_init_map.
  - left. reflexivity.
Defined.

(** X10. The three doorways of a new room lie on its left, far and
    right wall, never on a corner and never on the entrance: each is a
    plain wall cell with the floor of the room right behind it, and the
    cell in front of it is outside the room and so as it was. *)
Theorem dig_room_doorways_on_walls st (e h : Vector) :
  wf st -> Vector.cardinal h ->
  exists b st',
    dig_room e h st = Ok (b, st') /\
    (b = true ->
     exists d1 d2 d3,
       doorways st' = doorways st ++ [d1; d2; d3] /\
       heading d1 = Vector.left h /\ heading d2 = h /\
       heading d3 = Vector.right h /\
       Forall (fun d =>
                 has_door d = true /\ location d <> e /\
                 cell (grid st') (location d) = Some TILE_WALL /\
                 cell (grid st') (location d -v heading d) = Some TILE_FLOOR /\
                 cell (grid st') (location d +v heading d)
                 = cell (grid st) (location d +v heading d))
              [d1; d2; d3]).
Proof.
  intros Hwf Hc.
  destruct (dig_room_stamped st e h Hwf Hc) as (b & st' & Hrun & Hres).
  exists b, st'. split; [exact Hrun|]. intros ->.
  destruct Hres as [[? _]|(_ & _ & new & Hds & Hroom)]; [discriminate|].
  destruct Hroom as (sx & sy & eo & r1 & r2 & r3 & Hsx & Hsy & Heo
                     & Hr1 & Hr2 & Hr3 & Hin & Hout & _ & ->).
  set (corner := e +v Vector.left h *v eo) in *.
  do 3 eexists. split; [exact Hds|]. do 3 (split; [reflexivity|]).
  assert (He : e = room_at corner h eo 0) by (unfold room_at, corner; vec).
  assert (Hwall : forall i j, 0 <= i < sx + 2 -> 0 <= j < sy + 2 ->
            ~ (1 <= i <= sx /\ 1 <= j <= sy) -> ~ (i = eo /\ j = 0) ->
            ~ ((i = 0 \/ i = sx + 1) /\ (j = 0 \/ j = sy + 1)) ->
            cell (grid st') (room_at corner h i j) = Some TILE_WALL).
  { intros i j Hi Hj H1 H2 H3. rewrite Hin by assumption.
    destruct (room_tile_cases sx sy eo i j)
      as [(? & ? & _)|[(? & ? & _)|(_ & _ & [(? & ? & _)| ->])]];
      try tauto. }
  assert (Hfloor : forall i j, 1 <= i <= sx -> 1 <= j <= sy ->
            cell (grid st') (room_at corner h i j) = Some TILE_FLOOR).
  { intros i j Hi Hj. rewrite Hin by lia.
    destruct (room_tile_cases sx sy eo i j)
      as [(_ & ? & _)|[(_ & _ & ->)|(? & _)]]; [lia | reflexivity | tauto]. }
  assert (Houtside : forall i j, ~ (0 <= i < sx + 2 /\ 0 <= j < sy + 2) ->
            cell (grid st') (room_at corner h i j)
            = cell (grid st) (room_at corner h i j)).
  { intros i j Hij. apply Hout. intros Hf.
    apply in_footprint in Hf as (i' & j' & Hi' & Hj' & E); [|lia].
    apply room_at_inj in E as [-> ->]; [lia | assumption]. }
  assert (Hnote : forall i j, ~ (i = eo /\ j = 0) -> room_at corner h i j <> e).
  { intros i j Hij E. rewrite He in E.
    apply room_at_inj in E; [tauto | assumption]. }
  constructor; [|constructor; [|constructor; [|constructor]]];
    cbn [has_door location heading];
    (split; [reflexivity|split; [|split; [|split]]]).
  - replace (corner +v h *v r1) with (room_at corner h 0 r1)
      by (unfold room_at; vec). apply Hnote. lia.
  - replace (corner +v h *v r1) with (room_at corner h 0 r1)
      by (unfold room_at; vec). apply Hwall; lia.
  - replace (corner +v h *v r1 -v Vector.left h) with (room_at corner h 1 r1)
      by (unfold room_at; vec). apply Hfloor; lia.
  - replace (corner +v h *v r1 +v Vector.left h) with (room_at corner h (-1) r1)
      by (unfold room_at; vec). apply Houtside. lia.
  - replace (corner +v h *v (sy + 1) +v Vector.right h *v r2)
      with (room_at corner h r2 (sy + 1)) by (unfold room_at; vec).
    apply Hnote. lia.
  - replace (corner +v h *v (sy + 1) +v Vector.right h *v r2)
      with (room_at corner h r2 (sy + 1)) by (unfold room_at; vec).
    apply Hwall; lia.
  - replace (corner +v h *v (sy + 1) +v Vector.right h *v r2 -v h)
      with (room_at corner h r2 sy) by (unfold room_at; vec).
    apply Hfloor; lia.
  - replace (corner +v h *v (sy + 1) +v Vector.right h *v r2 +v h)
      with (room_at corner h r2 (sy + 2)) by (unfold room_at; vec).
    apply Houtside. lia.
  - apply (Hnote (sx + 1) r3). lia.
  - apply (Hwall (sx + 1) r3); lia.
  - replace (corner +v Vector.right h *v (sx + 1) +v h *v r3 -v Vector.right h)
      with (room_at corner h sx r3) by (unfold room_at; vec).
    apply Hfloor; lia.
  - replace (corner +v Vector.right h *v (sx + 1) +v h *v r3 +v Vector.right h)
      with (room_at corner h (sx + 2) r3) by (unfold room_at; vec).
    apply Houtside. lia.
Qed.

Lemma dig_room_doorways_on_walls_witness :
  exists b st',
    dig_room (Vector.mk 10 19) (Vector.mk 0 (-1)) (init_map 20 20 demo_tape)
    = Ok (b, st') /\
    (b = true ->
     exists d1 d2 d3,
       doorways st' = doorways (init_map 20 20 demo_tape) ++ [d1; d2; d3] /\
       heading d1 = Vector.left (Vector.mk 0 (-1)) /\
       heading d2 = Vector.mk 0 (-1) /\
       heading d3 = Vector.right (Vector.mk 0 (-1)) /\
       Forall (fun d =>
                 has_door d = true /\ location d <> Vector.mk 10 19 /\
                 cell (grid st') (location d) = Some TILE_WALL /\
                 cell (grid st') (location d -v heading d) = Some TILE_FLOOR /\
                 cell (grid st') (location d +v heading d)
                 = cell (grid (init_map 20 20 demo_tape))
                        (location d +v heading d))
              [d1; d2; d3]).
Proof.
  apply dig_room_doorways_on_walls.
  - apply wf_init_map.
  - left. reflexivity.
Defined.

(** X11. [dig_corridor] uses one random number, for a length of 2..6.
    A corridor that is dug has [l] cells, [2 <= l <= 5], fewer than the
    length drawn: before, its cells were wall-like and no permawall, the
    cells along both flanks were wall-like, and the cell after the last
    one was floor or a door; after, the first [l-1] cells are floor, the
    last is a door, both flanks are plain wall, and nothing else has
    changed. A corridor that is not dug leaves the grid as it was. *)
Theorem dig_corridor_layout st (e h : Vector) :
  wf st -> Vector.cardinal h ->
  exists b st',
    dig_corridor e h st = Ok (b, st') /\
    rand_calls st' = S (rand_calls st) /\
    if b then
      exists l, 2 <= l <= 5 /\ l < draw 2 6 st /\
                corridor_cells e h (grid st) (grid st') l
    else grid st' = grid st.
Proof.
  intros Hwf Hc. unfold dig_corridor. rewrite rand_range_eq.
  destruct (dig_corridor_sized_stamped (tick st) e h (draw 2 6 st))
    as (b & st' & Hrun & Hres); [apply wf_tick; assumption | assumption |].
  exists b, st'. split; [exact Hrun|].
  destruct Hres as [[-> ->]|(-> & _ & _ & Hr & l & Hl & Hcells)].
  - split; reflexivity.
  - split; [exact Hr|]. exists l.
    pose proof (draw_bounds 2 6 st ltac:(lia)).
    split; [lia|]. split; [lia | exact Hcells].
Qed.

Lemma dig_corridor_layout_witness :
  exists b st',
    dig_corridor (Vector.mk 2 5) (Vector.mk 0 (-1)) corridor_demo = Ok (b, st') /\
    rand_calls st' = S (rand_calls corridor_demo) /\
    if b then
      exists l, 2 <= l <= 5 /\ l < draw 2 6 corridor_demo /\
                corridor_cells (Vector.mk 2 5) (Vector.mk 0 (-1))
                  (grid corridor_demo) (grid st') l
    else grid st' = grid corridor_demo.
Proof.
  apply dig_corridor_layout.
  - exact wf_corridor_demo.
  - left. reflexivity.
Defined.

Lemma corridor_check_no_opening st h len n : forall ii pos lp rp r,
  wf st ->
  (forall p, is_in_bounds st p = true -> is_wall st p = Ok true) ->
  corridor_check st h len n ii pos lp rp = Ok r ->
  r = None \/ r = Some (len, false).
Proof.
  induction n as [|n IH]; intros ii pos lp rp r Hwf Hclosed H.
  - cbn in H. injection H as <-. auto.
  - cbn [corridor_check] in H.
    destruct (is_in_bounds st (pos +v h)) eqn:Hb; cbn [negb] in H.
    + rewrite (Hclosed _ Hb) in H. cbn [bind negb] in H.
      destruct (is_wall st (lp +v h)) as [wl|]; cbn [bind] in H; [|discriminate].
      destruct (negb wl).
      * cbn [bind] in H. injection H as <-. auto.
      * destruct (is_wall st (rp +v h)) as [wr|]; cbn [bind] in H; [|discriminate].
        destruct (negb wr).
        -- cbn [bind] in H. injection H as <-. auto.
        -- destruct (is_permawall st (pos +v h)) as [pw|]; cbn [bind] in H;
             [|discriminate].
           destruct pw; [injection H as <-; auto|].
           eapply IH; eassumption.
    + injection H as <-. auto.
Qed.

Lemma dig_corridor_sized_closed st (e h : Vector) (len : Z) :
  wf st -> Vector.cardinal h ->
  (forall p, is_in_bounds st p = true -> is_wall st p = Ok true) ->
  dig_corridor_sized e h len st = Ok (false, st).
Proof.
  intros Hwf Hc Hclosed. unfold dig_corridor_sized.
  destruct (corridor_check_total st h len (Z.to_nat len) 0 e Hwf Hc) as [r Hr].
  unfold corridor_scan. rewrite Hr. cbn [bind].
  apply corridor_check_no_opening in Hr as [-> | ->];
    [reflexivity | | exact Hwf | exact Hclosed].
  destruct (len <=? 1); reflexivity.
Qed.

(** X12. A corridor needs open space to run into: while every in-bounds
    cell is still wall-like, as on a freshly seeded map, [dig_corridor]
    fails whatever the entrance and the length drawn, and changes nothing
    but the position in the random source. *)
Theorem dig_corridor_needs_opening st (e h : Vector) :
  wf st -> Vector.cardinal h ->
  (forall p, is_in_bounds st p = true -> is_wall st p = Ok true) ->
  dig_corridor e h st = Ok (false, tick st).
Proof.
  intros Hwf Hc Hclosed. unfold dig_corridor. rewrite rand_range_eq.
  apply dig_corridor_sized_closed; [apply wf_tick; exact Hwf | exact Hc|].
  exact Hclosed.
Qed.

Lemma dig_corridor_needs_opening_witness :
  dig_corridor (Vector.mk 10 19) (Vector.mk 0 (-1)) (init_map 20 20 demo_tape)
  = Ok (false, tick (init_map 20 20 demo_tape)).
Proof.
  apply dig_corridor_needs_opening.
  - apply wf_init_map.
  - left. reflexivity.
  - intros p Hp. apply in_bounds_border in Hp.
    apply (wf_init_map 20 20 demo_tape) in Hp as [t Ht].
    pose proof (cell_init_map _ _ _ _ _ Ht) as ->.
    unfold is_wall, read_tile. rewrite Ht. reflexivity.
Defined.

(** X13. [dig_random] commits at most one feature, whatever the number
    of attempts. If it fails, grid and worklist are as before. If it
    succeeds, exactly one room or one corridor has been stamped on the
    grid; the cell right ahead of the doorway is then floor, every cell
    that changed was wall-like before or is the doorway cell itself, and
    the doorway cell has not been dug out. *)
Theorem dig_random_outcome st (pos h : Vector) :
  wf st -> Vector.cardinal h ->
  exists b st',
    dig_random pos h st = Ok (b, st') /\
    if b then
      (exists new, doorways st' = doorways st ++ new /\
                   stamped pos h (grid st) (grid st') new) /\
      cell (grid st') (pos +v h) = Some TILE_FLOOR /\
      (forall p, cell (grid st') p <> cell (grid st) p ->
                 wallish (grid st) p = true \/ p = pos) /\
      (cell (grid st') pos = Some TILE_DOOR \/
       cell (grid st') pos = cell (grid st) pos)
    else grid st' = grid st /\ doorways st' = doorways st.
Proof.
  intros Hwf Hc. unfold dig_random.
  destruct (dig_random_tries_stamped max_tries st pos h Hwf Hc)
    as (b & st' & Hrun & Hres).
  exists b, st'. split; [exact Hrun|].
  destruct Hres as [(-> & Hg & _ & _ & Hd & _)|(-> & _ & new & Hds & Hst)];
    [split; assumption|].
  split; [exists new; split; assumption|].
  destruct Hst as [Hroom|[(l & Hl & Hcells) _]].
  - destruct Hroom as (sx & sy & eo & r1 & r2 & r3 & Hsx & Hsy & Heo & _ & _ & _
                       & Hin & Hout & Hok & _).
    set (corner := pos +v Vector.left h *v eo) in *.
    assert (He : pos = room_at corner h eo 0) by (unfold room_at, corner; vec).
    split; [|split].
    + replace (pos +v h) with (room_at corner h eo 1)
        by (unfold room_at, corner; vec).
      rewrite Hin by lia.
      destruct (room_tile_cases sx sy eo eo 1)
        as [(_ & ? & _)|[(_ & _ & ->)|(? & _)]]; [lia | reflexivity | lia].
    + intros p Hp.
      destruct (in_dec vec_eq_dec p (footprint h sx sy corner)) as [Hf|Hf].
      * apply in_footprint in Hf as (i & j & Hi & Hj & ->); [|lia].
        destruct (decide (i = eo /\ j = 0)) as [[-> ->]|Hne].
        -- right. symmetry. exact He.
        -- left. apply Hok; assumption.
      * exfalso. apply Hp, Hout, Hf.
    + left. rewrite He at 1. rewrite Hin by lia. unfold room_tile.
      rewrite !Z.eqb_refl. reflexivity.
  - destruct Hcells as (Hpre & _ & Hfl & _ & _ & Hframe).
    split; [|split].
    + replace (pos +v h) with (pos +v h *v 1) by vec. apply Hfl. lia.
    + intros p Hp. left.
      destruct (Hframe p) as [Hq|(k & Hk & [-> | [-> | ->]])];
        [contradiction | | |]; destruct (Hpre k Hk) as (? & _ & ? & ?); assumption.
    + right. destruct (Hframe pos) as [Hq|(k & Hk & Hq)]; [exact Hq|].
      exfalso. destruct Hq as [Hq|[Hq|Hq]].
      * assert (0 = k); [|lia].
        apply (centre_inj h pos 0 k Hc).
        transitivity pos; [vec | exact Hq].
      * apply (proj1 (flank_not_centre h pos k 0 Hc)).
        rewrite <- Hq. vec.
      * apply (proj2 (flank_not_centre h pos k 0 Hc)).
        rewrite <- Hq. vec.
Qed.

Lemma dig_random_outcome_witness :
  exists b st',
    dig_random (Vector.mk 10 19) (Vector.mk 0 (-1)) (init_map 20 20 demo_tape)
    = Ok (b, st') /\
    if b then
      (exists new,
         doorways st' = doorways (init_map 20 20 demo_tape) ++ new /\
         stamped (Vector.mk 10 19) (Vector.mk 0 (-1))
           (grid (init_map 20 20 demo_tape)) (grid st') new) /\
      cell (grid st') (Vector.mk 10 19 +v Vector.mk 0 (-1)) = Some TILE_FLOOR /\
      (forall p,
         cell (grid st') p <> cell (grid (init_map 20 20 demo_tape)) p ->
         wallish (grid (init_map 20 20 demo_tape)) p = true \/
         p = Vector.mk 10 19) /\
      (cell (grid st') (Vector.mk 10 19) = Some TILE_DOOR \/
       cell (grid st') (Vector.mk 10 19)
       = cell (grid (init_map 20 20 demo_tape)) (Vector.mk 10 19))
    else grid st' = grid (init_map 20 20 demo_tape) /\
         doorways st' = doorways (init_map 20 20 demo_tape).
Proof.
  apply dig_random_outcome.
  - apply wf_init_map.
  - left. reflexivity.
Defined.

(** ** The run as a whole *)

(** X14. What was dug stays dug: from any state of the run to any later
    one, a floor cell is still floor, a door is still a door, and no cell
    that held anything but unknown is unknown again. *)
Theorem dug_cells_stay_dug sx sy src (k n : nat) st :
  generate k sx sy src = Running st ->
  match generate (k + n) sx sy src with
  | Done st' | Running st' => later (grid st) (grid st')
  | Crashed => False
  end.
Proof.
  intros Hk. pose proof (generate_invariants k sx sy src) as Hinv.
  rewrite Hk in Hinv. destruct Hinv as (HI & HJ & HK).
  unfold generate, dig_loop in *.
  destruct (dig_seed (init_map sx sy src)) as [st0|]; [|discriminate].
  rewrite (dig_drain_add k st0 st n Hk).
  pose proof (dig_drain_sealed n st HI HJ HK) as H.
  destruct (dig_drain n st); tauto.
Qed.

Lemma dug_cells_stay_dug_witness :
  generate 1 20 20 demo_tape = Running (demo_after 1) /\
  match generate (1 + 5) 20 20 demo_tape with
  | Done st' | Running st' => later (grid (demo_after 1)) (grid st')
  | Crashed => False
  end.
Proof.
  split; [vm_compute; reflexivity|].
  apply (dug_cells_stay_dug 20 20 demo_tape 1 5). vm_compute. reflexivity.
Defined.

(** X15. Floors are sealed: in every state of the run, the eight cells
    around a floor cell are on the grid and none of them is unknown. *)
Theorem floors_are_sealed fuel sx sy src :
  match generate fuel sx sy src with
  | Done st | Running st =>
      forall p q, cell (grid st) p = Some TILE_FLOOR -> around q p ->
        exists t, cell (grid st) q = Some t /\ t <> TILE_UNKNOWN
  | Crashed => sx < 3 \/ sy < 1
  end.
Proof.
  pose proof (generate_invariants fuel sx sy src) as H.
  destruct (generate fuel sx sy src); [| exact H |];
    destruct H as (_ & _ & _ & Hs & _); exact Hs.
Qed.

(** X16. Doors connect: in every state of the run, every door other
    than the map entrance has floor on one side and floor or another door
    on the opposite side. *)
Theorem doors_connect fuel sx sy src :
  match generate fuel sx sy src with
  | Done st | Running st =>
      forall p, cell (grid st) p = Some TILE_DOOR ->
        p = map_entrance st \/ door_connects (grid st) p
  | Crashed => sx < 3 \/ sy < 1
  end.
Proof.
  pose proof (generate_invariants fuel sx sy src) as H.
  destruct (generate fuel sx sy src); [| exact H |];
    destruct H as (_ & _ & _ & _ & Hd); exact Hd.
Qed.

Lemma worklist_of_invariants st :
  Inv st -> Inv2 st -> Inv3 st ->
  Forall (fun d =>
            has_door d = true /\ Vector.cardinal (heading d) /\
            (cell (grid st) (location d) = Some TILE_WALL \/
             cell (grid st) (location d) = Some TILE_PERMAWALL \/
             cell (grid st) (location d) = Some TILE_DOOR) /\
            (cell (grid st) (location d -v heading d) = Some TILE_FLOOR \/
             location d = map_entrance st))
         (doorways st).
Proof.
  intros (_ & Hdoors & _) (Hentries & _) (Hnear & _).
  rewrite Forall_forall in Hdoors, Hentries, Hnear. apply Forall_forall.
  intros d Hd. destruct (Hdoors d Hd) as (Hc & _).
  destruct (Hentries d Hd) as (Hhd & Hnf & _).
  destruct (Hnear d Hd) as ((t & Ht & Hknown) & _ & _ & Hbehind).
  split; [exact Hhd|]. split; [exact Hc|]. split; [|exact Hbehind].
  rewrite Ht in *. destruct t; try congruence; auto.
Qed.

(** X17. Every doorway waiting on the worklist, in every state of the
    run, has [has_door] set - so the loop always finishes a doorway with
    [door_tile], never with its [dig_tile] branch - has one of the four
    cardinal headings, lies on a wall, permawall or door cell, and has
    the floor of its room right behind it unless it is the map
    entrance. *)
Theorem worklist_entries fuel sx sy src :
  match generate fuel sx sy src with
  | Done st | Running st =>
      Forall (fun d =>
                has_door d = true /\
                (forall s, connect_doorway d s = door_tile s (location d)) /\
                Vector.cardinal (heading d) /\
                (cell (grid st) (location d) = Some TILE_WALL \/
                 cell (grid st) (location d) = Some TILE_PERMAWALL \/
                 cell (grid st) (location d) = Some TILE_DOOR) /\
                (cell (grid st) (location d -v heading d) = Some TILE_FLOOR \/
                 location d = map_entrance st))
             (doorways st)
  | Crashed => sx < 3 \/ sy < 1
  end.
Proof.
  pose proof (generate_invariants fuel sx sy src) as H.
  destruct (generate fuel sx sy src); [| exact H |];
    destruct H as (HI & HJ & HK);
    (eapply Forall_impl; [apply worklist_of_invariants; assumption|]);
    intros d (Hhd & Hrest); (split; [exact Hhd|]); (split; [|exact Hrest]);
    intros s; unfold connect_doorway; rewrite Hhd; reflexivity.
Qed.

(** ** Maps too small for a room *)

Lemma dig_room_blocked st e h :
  wf st ->
  (forall sx sy eo, 3 <= sx <= 6 -> 3 <= sy <= 6 -> 1 <= eo <= sx ->
     forallb (cell_ok st e) (footprint h sx sy (e +v Vector.left h *v eo))
     = false) ->
  dig_room e h st = Ok (false, tick (tick (tick st))).
Proof.
  intros Hwf Hblocked. unfold dig_room.
  destruct (room_draws_spec st) as (sx & sy & eo & -> & Hsx & Hsy & Heo).
  unfold dig_room_sized.
  rewrite room_check_spec by (repeat apply wf_tick; assumption || lia).
  fold (footprint h sx sy (e +v Vector.left h *v eo)).
  change (cell_ok (tick (tick (tick st))) e) with (cell_ok st e).
  rewrite Hblocked by assumption. reflexivity.
Qed.

Lemma dig_random_tries_blocked e h n : forall st,
  wf st -> Vector.cardinal h ->
  (forall p, is_in_bounds st p = true -> is_wall st p = Ok true) ->
  (forall sx sy eo, 3 <= sx <= 6 -> 3 <= sy <= 6 -> 1 <= eo <= sx ->
     forallb (cell_ok st e) (footprint h sx sy (e +v Vector.left h *v eo))
     = false) ->
  exists st', dig_random_tries n e h st = Ok (false, st') /\ idle st st'.
Proof.
  induction n as [|n IH]; intros st Hwf Hc Hclosed Hblocked.
  - exists st. split; [reflexivity | apply idle_refl].
  - cbn [dig_random_tries]. rewrite rand_range_eq.
    assert (Hnext : forall s, idle st s ->
              exists st', dig_random_tries n e h s = Ok (false, st') /\ idle st st').
    { intros s Hi. pose proof Hi as (Hg & Hsx & Hsy & _).
      destruct (IH s) as (st' & Hrun & Hi'); [eapply wf_idle; eassumption | exact Hc | | |].
      - intros p. unfold is_in_bounds, is_wall, read_tile. rewrite Hg, Hsx, Hsy.
        apply Hclosed.
      - intros sx sy eo H1 H2 H3. rewrite <- (Hblocked sx sy eo H1 H2 H3).
        clear - Hg Hsx Hsy. destruct st, s. cbn in Hg, Hsx, Hsy. subst.
        reflexivity.
      - exists st'. split; [exact Hrun|]. eapply idle_trans; eassumption. }
    destruct (draw 0 1 st =? 1).
    + unfold dig_corridor. rewrite rand_range_eq.
      rewrite (dig_corridor_sized_closed (tick (tick st)) e h);
        [|repeat apply wf_tick; assumption | exact Hc | exact Hclosed].
      cbn [bind]. apply Hnext. repeat split.
    + rewrite (dig_room_blocked (tick st) e h);
        [|apply wf_tick; assumption | exact Hblocked].
      cbn [bind]. apply Hnext. repeat split.
Qed.

Lemma dig_seed_explicit sx sy src st0 :
  dig_seed (init_map sx sy src) = Ok st0 ->
  doorways st0
  = [mkDoorway (map_entrance (init_map sx sy src)) (Vector.mk 0 (-1)) true] /\
  rand_calls st0 = 0%nat /\
  forall p,
    cell (grid st0) p
    = if Vector.eqb (map_entrance (init_map sx sy src) -v Vector.mk 1 0) p
      then Some TILE_WALL
      else if Vector.eqb (map_entrance (init_map sx sy src) +v Vector.mk 1 0) p
      then Some TILE_WALL
      else if Vector.eqb (map_entrance (init_map sx sy src)) p
      then Some TILE_DOOR
      else cell (grid (init_map sx sy src)) p.
Proof.
  set (st := init_map sx sy src). set (e := map_entrance st).
  unfold dig_seed, door_tile, fill_tile. fold e.
  set (d := mkDoorway e (Vector.mk 0 (-1)) true).
  destruct (write_tile (push_doorway st d) e TILE_DOOR) as [s1|] eqn:E1;
    cbn [bind]; [|discriminate].
  apply write_tile_inv in E1 as [S1 ->].
  destruct (write_tile _ (e +v Vector.mk 1 0) TILE_WALL) as [s2|] eqn:E2;
    cbn [bind]; [|discriminate].
  apply write_tile_inv in E2 as [S2 ->].
  intros E3. apply write_tile_inv in E3 as [S3 ->].
  cbn [grid with_grid push_doorway with_doorways doorways rand_calls] in *.
  split; [reflexivity|]. split; [reflexivity|].
  intros p. rewrite !cell_store by assumption. reflexivity.
Qed.

(** X18. A map narrower or lower than five cells has no place for a
    room, and without a room no corridor can connect: the one iteration
    of the loop uses up the entrance doorway, and the finished map is the
    seeded one - the entrance door between its two wall cells. *)
Theorem small_map_stays_blank sx sy src :
  3 <= sx -> 1 <= sy -> sx < 5 \/ sy < 5 ->
  exists st0 st,
    dig_seed (init_map sx sy src) = Ok st0 /\
    generate 1 sx sy src = Done st /\
    grid st = grid st0 /\ doorways st = [].
Proof.
  intros Hsx Hsy Hsmall.
  destruct (dig_seed_spec sx sy src Hsx Hsy)
    as (st0 & Hseed & (Hwf0 & _) & Hx0 & Hy0 & _).
  exists st0. unfold generate, dig_loop. rewrite Hseed.
  set (st := init_map sx sy src) in *. set (e := map_entrance st).
  set (d := mkDoorway e (Vector.mk 0 (-1)) true).
  destruct (dig_seed_explicit sx sy src st0 Hseed) as (Hd0 & _ & Hcell0).
  fold st in Hd0, Hcell0. fold e in Hd0, Hcell0. fold d in Hd0.
  assert (He : e = Vector.mk (Z.quot sx 2) (sy - 1)) by reflexivity.
  assert (Hq : 1 <= Z.quot sx 2 <= sx - 2)
    by (Z.to_euclidean_division_equations; lia).
  assert (Hclosed : forall p, is_in_bounds st0 p = true -> is_wall st0 p = Ok true).
  { intros p Hp. pose proof Hp as Hb. apply in_bounds_border in Hb.
    rewrite is_wall_wallish by (apply Hwf0; exact Hb). f_equal.
    unfold wallish. rewrite Hcell0.
    destruct (Vector.eqb (e -v Vector.mk 1 0) p); [reflexivity|].
    destruct (Vector.eqb (e +v Vector.mk 1 0) p); [reflexivity|].
    destruct (Vector.eqb e p) eqn:E.
    { apply vec_eqb_spec in E. subst p. exfalso.
      unfold is_in_bounds in Hp. rewrite He, Hx0, Hy0 in Hp. cbn in Hp. lia. }
    rewrite (in_bounds_or_border_ext st st0) in Hb by assumption.
    apply (wf_init_map sx sy src) in Hb as [t Ec]. fold st in Ec. rewrite Ec.
    apply cell_init_map in Ec. subst t. reflexivity. }
  assert (Hblocked : forall rx ry eo,
            3 <= rx <= 6 -> 3 <= ry <= 6 -> 1 <= eo <= rx ->
            forallb (cell_ok st0 e)
              (footprint (Vector.mk 0 (-1)) rx ry
                 (e +v Vector.left (Vector.mk 0 (-1)) *v eo)) = false).
  { intros rx ry eo Hrx Hry Heo.
    destruct (forallb _ _) eqn:Hall; [exfalso|reflexivity].
    rewrite forallb_forall in Hall.
    assert (Hin : forall i j, 0 <= i < rx + 2 -> 0 <= j < ry + 2 ->
              is_in_bounds_or_border st0
                (room_at (e +v Vector.left (Vector.mk 0 (-1)) *v eo)
                         (Vector.mk 0 (-1)) i j) = true).
    { intros i j Hi Hj.
      specialize (Hall (room_at (e +v Vector.left (Vector.mk 0 (-1)) *v eo)
                                (Vector.mk 0 (-1)) i j)).
      unfold cell_ok in Hall. apply andb_true_iff in Hall as [H _]; [exact H|].
      apply in_footprint; [lia|]. eauto. }
    pose proof (Hin 0 (ry + 1) ltac:(lia) ltac:(lia)) as H1.
    pose proof (Hin 0 0 ltac:(lia) ltac:(lia)) as H2.
    pose proof (Hin (rx + 1) 0 ltac:(lia) ltac:(lia)) as H3.
    unfold is_in_bounds_or_border, room_at in H1, H2, H3.
    rewrite He, Hx0, Hy0 in H1, H2, H3.
    cbn [Vector.x Vector.y Vector.add Vector.scale Vector.left Vector.right]
      in H1, H2, H3.
    lia. }
  cbn [dig_drain]. rewrite Hd0.
  unfold dig_step. rewrite rand_range_eq. rewrite Hd0. cbn [length].
  pose proof (draw_bounds 0 (Z.of_nat 1 - 1) st0 ltac:(lia)) as Hw.
  assert (draw 0 (Z.of_nat 1 - 1) st0 = 0) as -> by lia.
  cbn [Z.ltb Z.compare]. change (doorways (tick st0)) with (doorways st0).
  rewrite Hd0.
  change ([d] !! Z.to_nat 0) with (Some d).
  change (delete (Z.to_nat 0) [d]) with (@nil Doorway).
  cbn iota beta. change (location d) with e.
  change (heading d) with (Vector.mk 0 (-1)).
  destruct (dig_random_tries_blocked e (Vector.mk 0 (-1)) max_tries
              (with_doorways (tick st0) []))
    as (st2 & Hrun & Hidle).
  { apply wf_with_doorways, wf_tick, Hwf0. }
  { left. reflexivity. }
  { exact Hclosed. }
  { exact Hblocked. }
  unfold dig_random. rewrite Hrun. cbn [bind].
  destruct Hidle as (Hg & _ & _ & Hds & _).
  cbn [grid doorways with_doorways tick] in Hg, Hds.
  exists st2. rewrite Hds. split; [reflexivity|]. split; [reflexivity|].
  split; [exact Hg | reflexivity].
Qed.

Lemma small_map_stays_blank_witness :
  exists st0 st,
    dig_seed (init_map 4 9 demo_tape) = Ok st0 /\
    generate 1 4 9 demo_tape = Done st /\
    grid st = grid st0 /\ doorways st = [].
Proof. apply small_map_stays_blank; lia. Defined.

(** ** The shape of the grid and [print_map] *)

Lemma same_shape_refl st : same_shape st st.
Proof. repeat split. Qed.

Lemma same_shape_trans a b c : same_shape a b -> same_shape b c -> same_shape a c.
Proof. intros (? & ? & ?) (? & ? & ?). repeat split; congruence. Qed.

Lemma shaped_same_shape st st' : same_shape st st' -> shaped st -> shaped st'.
Proof.
  intros (Hx & Hy & Hm) [Hl Hr]. unfold shaped. rewrite Hx, Hy. split.
  - rewrite <- Hl, <- (length_map length (grid st')), Hm. apply length_map.
  - apply Forall_lookup. intros i row Hi.
    assert (H : map length (grid st') !! i = Some (length row)).
    { change (map length) with (fmap (M:=list) (@length tile)).
      rewrite list_lookup_fmap, Hi. reflexivity. }
    rewrite Hm in H.
    change (map length) with (fmap (M:=list) (@length tile)) in H.
    rewrite list_lookup_fmap in H.
    destruct (grid st !! i) as [row0|] eqn:E0; [|discriminate].
    rewrite Forall_lookup in Hr. specialize (Hr i row0 E0).
    cbn in H. congruence.
Qed.

Lemma store_shape g v t : map length (store g v t) = map length g.
Proof.
  unfold store. destruct (g !! Z.to_nat (Vector.y v)) as [row|] eqn:E;
    [|reflexivity].
  change (map length) with (fmap (M:=list) (@length tile)).
  rewrite list_fmap_insert, length_insert. apply list_insert_id.
  rewrite list_lookup_fmap, E. reflexivity.
Qed.

Lemma write_tile_shape st v t st' :
  write_tile st v t = Ok st' -> same_shape st st'.
Proof.
  intros H. apply write_tile_inv in H as [_ ->].
  repeat split. cbn [grid with_grid]. apply store_shape.
Qed.

Lemma write_all_shape t cells : forall st st',
  write_all t cells st = Ok st' -> same_shape st st'.
Proof.
  induction cells as [|p cells IH]; intros st st' H; cbn [write_all] in H.
  - injection H as <-. apply same_shape_refl.
  - destruct (write_tile st p t) as [s1|] eqn:E; cbn [bind] in H; [|discriminate].
    eapply same_shape_trans; [eapply write_tile_shape; eassumption | eauto].
Qed.

Lemma dig_room_sized_shape e h sx sy corner st b st' :
  1 <= sx -> 1 <= sy ->
  dig_room_sized e h sx sy corner st = Ok (b, st') -> same_shape st st'.
Proof.
  intros Hsx Hsy H. unfold dig_room_sized in H.
  destruct (room_check _ _ _ _ _ _) as [ok|]; cbn [bind] in H; [|discriminate].
  destruct ok; cbn [negb] in H; [|injection H as _ <-; apply same_shape_refl].
  change fill_tile with (fun st v => write_tile st v TILE_WALL) in H.
  change dig_tile with (fun st v => write_tile st v TILE_FLOOR) in H.
  rewrite paint_rect_eq in H by lia.
  destruct (write_all TILE_WALL _ st) as [s1|] eqn:E1; cbn [bind] in H;
    [|discriminate].
  unfold permawall_tile in H.
  destruct (write_tile s1 _ _) as [s2|] eqn:E2; cbn [bind] in H; [|discriminate].
  destruct (write_tile s2 _ _) as [s3|] eqn:E3; cbn [bind] in H; [|discriminate].
  destruct (write_tile s3 _ _) as [s4|] eqn:E4; cbn [bind] in H; [|discriminate].
  destruct (write_tile s4 _ _) as [s5|] eqn:E5; cbn [bind] in H; [|discriminate].
  rewrite paint_rect_eq in H by lia.
  destruct (write_all TILE_FLOOR _ s5) as [s6|] eqn:E6; cbn [bind] in H;
    [|discriminate].
  unfold door_tile in H.
  destruct (write_tile s6 _ _) as [s7|] eqn:E7; cbn [bind] in H; [|discriminate].
  injection H as _ <-.
  destruct (room_connections_spec h sx sy corner s7 Hsx Hsy)
    as (r1 & r2 & r3 & _ & _ & _ & ->).
  apply write_all_shape in E1, E6. apply write_tile_shape in E2, E3, E4, E5, E7.
  assert (same_shape st s7)
    by (repeat (eapply same_shape_trans; [eassumption|]); apply same_shape_refl).
  exact H.
Qed.

Lemma dig_room_shape e h st b st' :
  dig_room e h st = Ok (b, st') -> same_shape st st'.
Proof.
  unfold dig_room.
  destruct (room_draws_spec st) as (sx & sy & eo & -> & Hsx & Hsy & Heo).
  intros H. apply dig_room_sized_shape in H; [exact H | lia | lia].
Qed.

Lemma corridor_dig_shape h n : forall pos lp rp st pos' st',
  corridor_dig h n pos lp rp st = Ok (pos', st') -> same_shape st st'.
Proof.
  induction n as [|n IH]; intros pos lp rp st pos' st' H.
  - cbn in H. injection H as _ <-. apply same_shape_refl.
  - cbn [corridor_dig] in H. unfold dig_tile, fill_tile in H.
    destruct (write_tile st (pos +v h) TILE_FLOOR) as [s1|] eqn:E1;
      cbn [bind] in H; [|discriminate].
    destruct (write_tile s1 (lp +v h) TILE_WALL) as [s2|] eqn:E2;
      cbn [bind] in H; [|discriminate].
    destruct (write_tile s2 (rp +v h) TILE_WALL) as [s3|] eqn:E3;
      cbn [bind] in H; [|discriminate].
    apply write_tile_shape in E1, E2, E3.
    assert (H3 : same_shape st s3)
      by (repeat (eapply same_shape_trans; [eassumption|]); apply same_shape_refl).
    destruct (negb (is_in_bounds s3 (pos +v h +v h)));
      [injection H as _ <-; exact H3|].
    destruct (is_wall s3 (pos +v h +v h)) as [w|]; cbn [bind] in H; [|discriminate].
    destruct (negb w); [injection H as _ <-; exact H3|].
    eapply same_shape_trans; [exact H3 | eauto].
Qed.

Lemma dig_corridor_sized_shape e h len st b st' :
  dig_corridor_sized e h len st = Ok (b, st') -> same_shape st st'.
Proof.
  unfold dig_corridor_sized.
  destruct (corridor_scan _ _ _ _) as [r|]; cbn [bind]; [|discriminate].
  destruct r as [[l f]|]; [|intros [= _ <-]; apply same_shape_refl].
  destruct (l <=? 1); [intros [= _ <-]; apply same_shape_refl|].
  destruct (negb f); [intros [= _ <-]; apply same_shape_refl|].
  destruct (corridor_dig _ _ _ _ _ _) as [[pos s1]|] eqn:E1; cbn [bind];
    [|discriminate].
  apply corridor_dig_shape in E1.
  destruct (if negb (is_in_bounds s1 (pos +v h)) then Ok true
            else is_wall s1 (pos +v h)) as [u|]; cbn [bind]; [|discriminate].
  unfold fill_tile, door_tile.
  destruct u;
    (destruct (write_tile s1 pos _) as [s2|] eqn:E2; cbn [bind]; [|discriminate]);
    intros [= _ <-]; apply write_tile_shape in E2;
    (eapply same_shape_trans; [exact E1|]);
    (eapply same_shape_trans; [exact E2|]); repeat split.
Qed.

Lemma dig_corridor_shape e h st b st' :
  dig_corridor e h st = Ok (b, st') -> same_shape st st'.
Proof.
  unfold dig_corridor. rewrite rand_range_eq. intros H.
  apply dig_corridor_sized_shape in H. exact H.
Qed.

Lemma dig_random_tries_shape n : forall e h st b st',
  dig_random_tries n e h st = Ok (b, st') -> same_shape st st'.
Proof.
  induction n as [|n IH]; intros e h st b st' H.
  - cbn in H. injection H as _ <-. apply same_shape_refl.
  - cbn [dig_random_tries] in H. rewrite rand_range_eq in H.
    destruct (if draw 0 1 st =? 1 then dig_corridor e h (tick st)
              else dig_room e h (tick st)) as [[ok s1]|] eqn:E;
      cbn [bind] in H; [|discriminate].
    assert (H1 : same_shape st s1).
    { destruct (draw 0 1 st =? 1);
        [apply dig_corridor_shape in E | apply dig_room_shape in E]; exact E. }
    destruct ok; [injection H as _ <-; exact H1|].
    eapply same_shape_trans; [exact H1 | eauto].
Qed.

Lemma dig_step_shape st st' : dig_step st = Ok st' -> same_shape st st'.
Proof.
  unfold dig_step. rewrite rand_range_eq.
  destruct (_ <? 0); [discriminate|].
  destruct (doorways (tick st) !! _) as [door|]; [|discriminate].
  unfold dig_random.
  destruct (dig_random_tries _ _ _ _) as [[ok s1]|] eqn:E; cbn [bind];
    [|discriminate].
  apply dig_random_tries_shape in E.
  destruct ok; [|intros [= <-]; exact E].
  unfold connect_doorway, door_tile, dig_tile.
  destruct (has_door door).
  - intros H. apply write_tile_shape in H.
    eapply same_shape_trans; eassumption.
  - destruct (is_wall s1 (location door)) as [w|]; cbn [bind]; [|discriminate].
    destruct w.
    + intros H. apply write_tile_shape in H.
      eapply same_shape_trans; eassumption.
    + intros [= <-]. exact E.
Qed.

Lemma dig_drain_shape fuel : forall st,
  match dig_drain fuel st with
  | Done st' | Running st' => same_shape st st'
  | Crashed => True
  end.
Proof.
  induction fuel as [|fuel IH]; intros st; cbn [dig_drain].
  - destruct (doorways st); apply same_shape_refl.
  - destruct (doorways st); [apply same_shape_refl|].
    destruct (dig_step st) as [s1|] eqn:E; [|exact I].
    apply dig_step_shape in E. specialize (IH s1).
    destruct (dig_drain fuel s1); try exact I;
      eapply same_shape_trans; eassumption.
Qed.

Lemma dig_seed_shape st st' : dig_seed st = Ok st' -> same_shape st st'.
Proof.
  unfold dig_seed, door_tile, fill_tile.
  destruct (write_tile _ _ TILE_DOOR) as [s1|] eqn:E1; cbn [bind]; [|discriminate].
  destruct (write_tile s1 _ TILE_WALL) as [s2|] eqn:E2; cbn [bind]; [|discriminate].
  intros E3. apply write_tile_shape in E1, E2, E3.
  destruct E1 as (? & ? & ?), E2 as (? & ? & ?), E3 as (? & ? & ?).
  cbn [size_x size_y grid push_doorway with_doorways] in *.
  repeat split; congruence.
Qed.

Lemma shaped_init_map sx sy src : shaped (init_map sx sy src).
Proof.
  split; [apply length_replicate|].
  apply Forall_replicate. apply length_replicate.
Qed.

Lemma generate_shaped fuel sx sy src :
  match generate fuel sx sy src with
  | Done st | Running st => shaped st /\ size_x st = sx /\ size_y st = sy
  | Crashed => True
  end.
Proof.
  unfold generate, dig_loop.
  destruct (dig_seed (init_map sx sy src)) as [st0|] eqn:Hseed; [|exact I].
  apply dig_seed_shape in Hseed.
  pose proof (dig_drain_shape fuel st0) as H.
  destruct (dig_drain fuel st0); try exact I;
    pose proof (same_shape_trans _ _ _ Hseed H) as Hs;
    (split; [apply (shaped_same_shape _ _ Hs), shaped_init_map|]);
    destruct Hs as (? & ? & _); split; assumption.
Qed.

Lemma print_row_take st yi row n : forall i,
  0 <= yi ->
  grid st !! Z.to_nat yi = Some row ->
  (i + n <= length row)%nat ->
  print_row st yi n (Z.of_nat i) = Ok (map tile_char (take n (drop i row))).
Proof.
  induction n as [|n IH]; intros i Hy Hrow Hlen; [reflexivity|].
  cbn [print_row]. unfold read_tile, cell. cbn [Vector.x Vector.y].
  replace ((0 <=? Z.of_nat i) && (0 <=? yi)) with true by lia.
  rewrite Hrow, Nat2Z.id.
  destruct (row !! i) as [t|] eqn:Ei; [|apply lookup_ge_None in Ei; lia].
  cbn [bind]. replace (Z.of_nat i + 1) with (Z.of_nat (S i)) by lia.
  rewrite IH by (assumption || lia). cbn [bind].
  rewrite (drop_S _ _ _ Ei). reflexivity.
Qed.

Lemma print_rows_take st n : forall j,
  Forall (fun row => length row = Z.to_nat (size_x st)) (grid st) ->
  (j + n <= length (grid st))%nat ->
  print_rows st n (Z.of_nat j)
  = Ok (concat (map (fun line => line ++ [newline])
                    (map (map tile_char) (take n (drop j (grid st)))))).
Proof.
  induction n as [|n IH]; intros j Hrows Hlen; [reflexivity|].
  cbn [print_rows].
  destruct (grid st !! j) as [row|] eqn:Ej; [|apply lookup_ge_None in Ej; lia].
  assert (Hl : length row = Z.to_nat (size_x st))
    by (rewrite Forall_lookup in Hrows; eapply Hrows; eassumption).
  rewrite (print_row_take st (Z.of_nat j) row _ 0%nat);
    [|lia | rewrite Nat2Z.id; exact Ej | lia].
  cbn [bind]. replace (Z.of_nat j + 1) with (Z.of_nat (S j)) by lia.
  rewrite IH by (assumption || lia). cbn [bind].
  rewrite (drop_S _ _ _ Ej). cbn [take map concat].
  rewrite drop_0, <- Hl, firstn_all. rewrite <- app_assoc. reflexivity.
Qed.

(** X19. Whatever the run has done, the grid still has [size_y] rows of
    [size_x] cells, and the sizes are those of the command line;
    [print_map] then reads only cells of the grid and writes [size_y]
    lines of [size_x] characters, each line followed by a newline: line
    [y] holds the characters of the tiles of row [y] from left to right. *)
Theorem print_map_prints_the_grid fuel sx sy src :
  match generate fuel sx sy src with
  | Done st | Running st =>
      size_x st = sx /\ size_y st = sy /\
      length (print_map st) = Z.to_nat sy /\
      Forall (fun line => length line = Z.to_nat sx) (print_map st) /\
      print_map_output st
      = Ok (concat (map (fun line => line ++ [newline]) (print_map st)))
  | Crashed => sx < 3 \/ sy < 1
  end.
Proof.
  pose proof (generate_shaped fuel sx sy src) as Hs.
  pose proof (generate_invariants fuel sx sy src) as Hi.
  assert (Hgoal : forall st,
            shaped st /\ size_x st = sx /\ size_y st = sy ->
            size_x st = sx /\ size_y st = sy /\
            length (print_map st) = Z.to_nat sy /\
            Forall (fun line => length line = Z.to_nat sx) (print_map st) /\
            print_map_output st
            = Ok (concat (map (fun line => line ++ [newline]) (print_map st)))).
  { intros st ((Hl & Hr) & Hx & Hy).
    split; [exact Hx|]. split; [exact Hy|]. unfold print_map. split; [|split].
    - rewrite length_map, Hl, Hy. reflexivity.
    - apply Forall_lookup. intros i line Hline.
      change (map (map tile_char)) with (fmap (M:=list) (map tile_char)) in Hline.
      rewrite list_lookup_fmap in Hline.
      destruct (grid st !! i) as [row|] eqn:E; [|discriminate].
      cbn in Hline. injection Hline as <-. rewrite Forall_lookup in Hr.
      rewrite length_map, (Hr i row E), Hx. reflexivity.
    - unfold print_map_output.
      pose proof (print_rows_take st (Z.to_nat (size_y st)) 0%nat Hr ltac:(lia))
        as Hp.
      change (Z.of_nat 0) with 0 in Hp.
      rewrite Hp, drop_0, <- Hl, firstn_all. reflexivity. }
  destruct (generate fuel sx sy src) as [st| |st]; [| exact Hi |];
    apply Hgoal; exact Hs.
Qed.

Lemma print_map_cell st x y t :
  cell (grid st) (Vector.mk x y) = Some t ->
  exists line,
    print_map st !! Z.to_nat y = Some line /\
    line !! Z.to_nat x = Some (tile_char t).
Proof.
  unfold cell, print_map. cbn [Vector.x Vector.y].
  destruct (_ && _); [|discriminate].
  destruct (grid st !! Z.to_nat y) as [row|] eqn:E; [|discriminate].
  intros Hx. exists (map tile_char row). split.
  - change (map (map tile_char)) with (fmap (M:=list) (map tile_char)).
    rewrite list_lookup_fmap, E. reflexivity.
  - change (map tile_char) with (fmap (M:=list) tile_char).
    rewrite list_lookup_fmap, Hx. reflexivity.
Qed.

(** X20. What the picture shows: the character in column [x] of line
    [y] is that of the tile of cell [(x, y)], and two tiles print alike
    exactly when they are the same tile or one is wall and the other
    permawall. The picture tells floor, door, unknown and wall apart, but
    not a wall from a permawall. *)
Theorem print_map_shows st (x y : Z) (t t' : tile) :
  (cell (grid st) (Vector.mk x y) = Some t ->
   exists line,
     print_map st !! Z.to_nat y = Some line /\
     line !! Z.to_nat x = Some (tile_char t)) /\
  (tile_char t = tile_char t' <->
   t = t' \/
   (t = TILE_WALL /\ t' = TILE_PERMAWALL) \/
   (t = TILE_PERMAWALL /\ t' = TILE_WALL)).
Proof.
  split; [apply print_map_cell|].
  destruct t, t'; cbn; split; intros H;
    try discriminate; try tauto;
    try (destruct H as [H|[[H1 H2]|[H1 H2]]]; discriminate);
    reflexivity.
Qed.

(** ** Seeding, one iteration, and accesses outside the grid *)

(** X21. Seeding, for every map at least three cells wide and one cell
    high: the worklist holds the one doorway at the entrance
    [(size_x/2, size_y-1)], heading up; the entrance cell is a door, the
    cells left and right of it are wall, every other cell of the grid is
    still unknown, and no random number has been used. *)
Theorem seeding sx sy src :
  3 <= sx -> 1 <= sy ->
  exists st0,
    dig_seed (init_map sx sy src) = Ok st0 /\
    doorways st0
    = [mkDoorway (Vector.mk (Z.quot sx 2) (sy - 1)) (Vector.mk 0 (-1)) true] /\
    rand_calls st0 = 0%nat /\
    size_x st0 = sx /\ size_y st0 = sy /\
    forall x y, 0 <= x < sx -> 0 <= y < sy ->
      cell (grid st0) (Vector.mk x y)
      = Some (if (y =? sy - 1) && (x =? Z.quot sx 2) then TILE_DOOR
              else if (y =? sy - 1) && ((x =? Z.quot sx 2 - 1)
                                        || (x =? Z.quot sx 2 + 1))
              then TILE_WALL
              else TILE_UNKNOWN).
Proof.
  intros Hsx Hsy.
  destruct (dig_seed_spec sx sy src Hsx Hsy) as (st0 & Hseed & _ & Hx0 & Hy0 & _).
  exists st0. split; [exact Hseed|].
  destruct (dig_seed_explicit sx sy src st0 Hseed) as (Hd & Hr & Hcell).
  split; [exact Hd|]. split; [exact Hr|]. split; [exact Hx0|]. split; [exact Hy0|].
  intros x y Hx Hy. rewrite Hcell.
  assert (Hu : cell (grid (init_map sx sy src)) (Vector.mk x y) = Some TILE_UNKNOWN).
  { assert (is_Some (cell (grid (init_map sx sy src)) (Vector.mk x y))) as [t Ht].
    { apply wf_init_map. unfold is_in_bounds_or_border, init_map. cbn. lia. }
    rewrite Ht. f_equal. eapply cell_init_map; eassumption. }
  rewrite Hu.
  unfold Vector.eqb, map_entrance, init_map.
  cbn [Vector.x Vector.y Vector.add Vector.sub size_x size_y].
  destruct (y =? sy - 1) eqn:Ey.
  - replace (y =? sy - 1 - 0) with true by lia.
    replace (y =? sy - 1 + 0) with true by lia.
    cbn [andb].
    destruct (x =? Z.quot sx 2) eqn:E1.
    + replace (Z.quot sx 2 - 1 =? x) with false by lia.
      replace (Z.quot sx 2 + 1 =? x) with false by lia.
      replace (Z.quot sx 2 =? x) with true by lia.
      replace (sy - 1 =? y) with true by lia. reflexivity.
    + replace (Z.quot sx 2 =? x) with false by lia.
      replace (Z.quot sx 2 - 1 =? x) with (x =? Z.quot sx 2 - 1) by lia.
      replace (Z.quot sx 2 + 1 =? x) with (x =? Z.quot sx 2 + 1) by lia.
      replace (sy - 1 - 0 =? y) with true by lia.
      replace (sy - 1 + 0 =? y) with true by lia.
      cbn [andb].
      destruct (x =? Z.quot sx 2 - 1), (x =? Z.quot sx 2 + 1); reflexivity.
  - replace (sy - 1 - 0 =? y) with false by lia.
    replace (sy - 1 + 0 =? y) with false by lia.
    replace (sy - 1 =? y) with false by lia.
    rewrite !andb_false_r. reflexivity.
Qed.

Lemma seeding_witness :
  exists st0,
    dig_seed (init_map 7 3 demo_tape) = Ok st0 /\
    doorways st0
    = [mkDoorway (Vector.mk (Z.quot 7 2) (3 - 1)) (Vector.mk 0 (-1)) true] /\
    rand_calls st0 = 0%nat /\
    size_x st0 = 7 /\ size_y st0 = 3 /\
    forall x y, 0 <= x < 7 -> 0 <= y < 3 ->
      cell (grid st0) (Vector.mk x y)
      = Some (if (y =? 3 - 1) && (x =? Z.quot 7 2) then TILE_DOOR
              else if (y =? 3 - 1) && ((x =? Z.quot 7 2 - 1)
                                       || (x =? Z.quot 7 2 + 1))
              then TILE_WALL
              else TILE_UNKNOWN).
Proof. apply seeding; lia. Defined.

(** X22. One iteration of the worklist loop, at any state of the run
    that still has doorways: the loop takes one doorway off the worklist
    and either nothing could be dug there - the grid is as before and the
    doorway is gone - or one feature was dug - the doorway cell is then a
    door, the cell ahead of it is floor, and none or three new doorways
    have been appended. *)
Theorem iteration_outcome sx sy src (k : nat) st :
  generate k sx sy src = Running st ->
  exists i d st',
    doorways st !! i = Some d /\
    dig_step st = Ok st' /\
    ((grid st' = grid st /\ doorways st' = delete i (doorways st)) \/
     (cell (grid st') (location d) = Some TILE_DOOR /\
      cell (grid st') (location d +v heading d) = Some TILE_FLOOR /\
      exists new,
        doorways st' = delete i (doorways st) ++ new /\
        (new = [] \/ length new = 3%nat))).
Proof.
  intros Hk. pose proof (generate_invariants k sx sy src) as Hinv.
  rewrite Hk in Hinv. destruct Hinv as ((Hwf & Hdoors & _) & (Hentries & _) & _).
  assert (Hne : doorways st <> []).
  { unfold generate, dig_loop in Hk.
    destruct (dig_seed _); [|discriminate].
    eapply dig_drain_Running; eassumption. }
  destruct (dig_step_stamped st Hwf Hdoors Hne)
    as (i & d & b & st2 & Hd & Hres).
  exists i, d.
  assert (Hok : door_ok st d)
    by (rewrite Forall_lookup in Hdoors; eapply Hdoors; eauto).
  destruct Hok as (Hc & Hloc & _).
  assert (Hhd : has_door d = true)
    by (rewrite Forall_lookup in Hentries; apply (Hentries i d Hd)).
  destruct Hres as [(-> & Hidle & Hstep)|(-> & Hpl & (new & Hds & Hst) & Hstep)].
  - exists st2. split; [exact Hd|]. split; [exact Hstep|]. left.
    destruct Hidle as (Hg & _ & _ & Hds & _). split; assumption.
  - destruct Hpl as (Hsx & Hsy & _ & Hwf2 & _).
    unfold connect_doorway in Hstep. rewrite Hhd in Hstep. unfold door_tile in Hstep.
    destruct (write_tile_spec st2 (location d) TILE_DOOR Hwf2)
      as (g3 & Hw & _ & Hg3).
    { rewrite (in_bounds_or_border_ext st st2) by assumption. exact Hloc. }
    rewrite Hw in Hstep. exists (with_grid st2 g3).
    split; [exact Hd|]. split; [exact Hstep|]. right.
    cbn [grid with_grid doorways]. split; [|split].
    + rewrite Hg3.
      replace (Vector.eqb (location d) (location d)) with true
        by (symmetry; apply vec_eqb_spec; reflexivity).
      reflexivity.
    + rewrite Hg3.
      replace (Vector.eqb (location d) (location d +v heading d)) with false
        by (unfold Vector.eqb; cardinal_cases Hc; destruct (location d); cbn; lia).
      destruct Hst as [Hroom|[(l & Hl & Hcells) _]].
      * destruct Hroom as (rx & ry & eo & r1 & r2 & r3 & Hrx & Hry & Heo & _ & _ & _
                           & Hin & _).
        replace (location d +v heading d)
          with (room_at (location d +v Vector.left (heading d) *v eo)
                        (heading d) eo 1)
          by (unfold room_at; vec).
        rewrite Hin by lia.
        destruct (room_tile_cases rx ry eo eo 1)
          as [(_ & ? & _)|[(_ & _ & ->)|(? & _)]]; [lia | reflexivity | lia].
      * destruct Hcells as (_ & _ & Hfl & _).
        replace (location d +v heading d) with (location d +v heading d *v 1)
          by vec.
        apply Hfl. lia.
    + exists new. split; [exact Hds|].
      destruct Hst as [Hroom|[_ ->]]; [right | left; reflexivity].
      destruct Hroom as (rx & ry & eo & r1 & r2 & r3 & _ & _ & _ & _ & _ & _
                         & _ & _ & _ & ->).
      reflexivity.
Qed.

Lemma iteration_outcome_witness :
  generate 1 20 20 demo_tape = Running (demo_after 1) /\
  exists i d st',
    doorways (demo_after 1) !! i = Some d /\
    dig_step (demo_after 1) = Ok st' /\
    ((grid st' = grid (demo_after 1) /\
      doorways st' = delete i (doorways (demo_after 1))) \/
     (cell (grid st') (location d) = Some TILE_DOOR /\
      cell (grid st') (location d +v heading d) = Some TILE_FLOOR /\
      exists new,
        doorways st' = delete i (doorways (demo_after 1)) ++ new /\
        (new = [] \/ length new = 3%nat))).
Proof.
  split; [vm_compute; reflexivity|].
  apply (iteration_outcome 20 20 demo_tape 1). vm_compute. reflexivity.
Defined.

(** X23. For sizes that are not negative, the run makes an access outside
    the grid exactly on maps less than three cells wide or less than one
    cell high, and then already in the seeding; on every other map no step
    of the run, however many iterations it takes, reads or writes outside
    the grid. (A negative size does not get as far as a grid access; see
    [init_map].) *)
Theorem out_of_bounds_iff fuel sx sy src :
  0 <= sx -> 0 <= sy ->
  (generate fuel sx sy src = Crashed <-> sx < 3 \/ sy < 1).
Proof.
  intros _ _. split.
  - intros H. pose proof (generate_invariants fuel sx sy src) as Hi.
    rewrite H in Hi. exact Hi.
  - intros H. unfold generate, dig_loop. rewrite dig_seed_crash by assumption.
    reflexivity.
Qed.

Lemma out_of_bounds_iff_witness :
  0 <= 2 /\ 0 <= 20 /\
  (generate 5 2 20 demo_tape = Crashed <-> 2 < 3 \/ 20 < 1).
Proof.
  split; [lia|]. split; [lia|]. apply (out_of_bounds_iff 5 2 20 demo_tape); lia.
Defined.

(** ** How long [dig_random] tries *)

Lemma dig_room_fails_to st e h st' :
  wf st -> Vector.cardinal h ->
  dig_room e h st = Ok (false, st') -> st' = tick (tick (tick st)).
Proof.
  intros Hwf Hc. unfold dig_room.
  destruct (room_draws_spec st) as (sx & sy & eo & -> & Hsx & Hsy & Heo).
  set (st3 := tick (tick (tick st))).
  assert (Hwf3 : wf st3) by (repeat apply wf_tick; assumption).
  destruct (forallb (cell_ok st3 e) (footprint h sx sy (e +v Vector.left h *v eo)))
    eqn:Hfeas.
  - destruct (dig_room_sized_commit st3 e h sx sy eo Hwf3 Hc) as (g' & -> & _);
      [lia | lia | lia | exact Hfeas |]. discriminate.
  - unfold dig_room_sized. rewrite room_check_spec by (assumption || lia).
    fold (footprint h sx sy (e +v Vector.left h *v eo)). rewrite Hfeas.
    cbn [bind negb]. congruence.
Qed.

Lemma dig_corridor_fails_to st e h st' :
  wf st -> Vector.cardinal h ->
  dig_corridor e h st = Ok (false, st') -> st' = tick st.
Proof.
  intros Hwf Hc. unfold dig_corridor. rewrite rand_range_eq.
  destruct (dig_corridor_sized_stamped (tick st) e h (draw 2 6 st))
    as (b & s & -> & Hres); [apply wf_tick; assumption | assumption |].
  destruct Hres as [[-> ->]|(-> & _)]; congruence.
Qed.

Lemma dig_random_tries_draws e h n : forall st st',
  wf st -> Vector.cardinal h ->
  dig_random_tries n e h st = Ok (false, st') ->
  (rand_calls st + 2 * n <= rand_calls st' <= rand_calls st + 4 * n)%nat.
Proof.
  induction n as [|n IH]; intros st st' Hwf Hc H.
  - cbn in H. injection H as <-. lia.
  - cbn [dig_random_tries] in H. rewrite rand_range_eq in H.
    assert (Hwf1 : wf (tick st)) by (apply wf_tick; assumption).
    destruct (draw 0 1 st =? 1).
    + destruct (dig_corridor e h (tick st)) as [[b s1]|] eqn:E; cbn [bind] in H;
        [|discriminate].
      destruct b; [discriminate|].
      apply dig_corridor_fails_to in E; [subst s1 | assumption | assumption].
      apply IH in H; [|repeat apply wf_tick; assumption | assumption].
      cbn [rand_calls tick] in H. lia.
    + destruct (dig_room e h (tick st)) as [[b s1]|] eqn:E; cbn [bind] in H;
        [|discriminate].
      destruct b; [discriminate|].
      apply dig_room_fails_to in E; [subst s1 | assumption | assumption].
      apply IH in H; [|repeat apply wf_tick; assumption | assumption].
      cbn [rand_calls tick] in H. lia.
Qed.

(** X24. A [dig_random] that gives up has made all of its [max_tries]
    = 5 attempts: each failed attempt costs two random numbers (the
    choice, and the length of a corridor) or four (the choice, and the
    two sizes and the offset of a room), so between ten and twenty random
    numbers have been used. *)
Theorem dig_random_gives_up st (pos h : Vector) :
  wf st -> Vector.cardinal h ->
  exists b st',
    dig_random pos h st = Ok (b, st') /\
    (b = false ->
     (rand_calls st + 10 <= rand_calls st' <= rand_calls st + 20)%nat).
Proof.
  intros Hwf Hc.
  destruct (dig_random_tries_stamped max_tries st pos h Hwf Hc)
    as (b & st' & Hrun & _).
  exists b, st'. split; [exact Hrun|]. intros ->.
  apply dig_random_tries_draws in Hrun; [|assumption..].
  unfold max_tries in Hrun. lia.
Qed.

Lemma dig_random_gives_up_witness :
  exists b st',
    dig_random (Vector.mk 2 8) (Vector.mk 0 (-1)) (init_map 4 9 demo_tape)
    = Ok (b, st') /\
    (b = false ->
     (rand_calls (init_map 4 9 demo_tape) + 10 <= rand_calls st'
      <= rand_calls (init_map 4 9 demo_tape) + 20)%nat).
Proof.
  apply dig_random_gives_up.
  - apply wf_init_map.
  - left. reflexivity.
Defined.

(** ** Connectivity *)

Lemma open_cell_later g g' p : later g g' -> open_cell g p -> open_cell g' p.
Proof. intros (HF & HD & _) [H|H]; [left; apply HF | right; apply HD]; exact H. Qed.

Lemma reach_later g g' a p : later g g' -> reach g a p -> reach g' a p.
Proof.
  intros Hl H. induction H as [Ha|p q _ IH Hq Ho].
  - apply reach_here. eapply open_cell_later; eassumption.
  - eapply reach_step; [exact IH | exact Hq |].
    eapply open_cell_later; eassumption.
Qed.

Lemma orth_ahead h p : Vector.cardinal h -> orth (p +v h) p.
Proof.
  intros Hc. unfold orth.
  cardinal_cases Hc;
    solve [left; vec | right; left; vec | right; right; left; vec
           | right; right; right; vec].
Qed.

(** Walking [n] steps in a straight line over open cells. *)
Lemma reach_line g a d n : forall p,
  Vector.cardinal d -> reach g a p ->
  (forall k, 1 <= k <= Z.of_nat n -> open_cell g (p +v d *v k)) ->
  reach g a (p +v d *v Z.of_nat n).
Proof.
  induction n as [|n IH]; intros p Hc Hp Hopen.
  - replace (p +v d *v Z.of_nat 0) with p by (cbn; vec). exact Hp.
  - replace (p +v d *v Z.of_nat (S n)) with (p +v d *v Z.of_nat n +v d)
      by (rewrite Nat2Z.inj_succ; vec).
    apply (reach_step g a (p +v d *v Z.of_nat n)).
    + apply IH; [exact Hc | exact Hp |]. intros k Hk. apply Hopen. lia.
    + apply orth_ahead. exact Hc.
    + replace (p +v d *v Z.of_nat n +v d) with (p +v d *v Z.of_nat (S n))
        by (rewrite Nat2Z.inj_succ; vec).
      apply Hopen. lia.
Qed.

(** One iteration keeps every open cell connected to the entrance. *)
Lemma dig_step_connected st :
  Inv st -> Inv2 st -> Inv3 st -> Inv4 st -> doorways st <> [] ->
  exists st', dig_step st = Ok st' /\ Inv4 st'.
Proof.
  intros HI HJ HK Hreach Hne.
  destruct (dig_step_sealed st HI HJ HK Hne) as (st' & Hsame & _ & Hlater).
  exists st'. split; [exact Hsame|].
  destruct HI as (Hwf & Hdoors & _ & _). destruct HJ as (Hentries & Hcorners).
  destruct (dig_step_stamped st Hwf Hdoors Hne)
    as (ix & door & b & st2 & Hdoor & Hres).
  set (st1 := with_doorways (tick st) (delete ix (doorways st))) in *.
  assert (Hok : door_ok st door)
    by (rewrite Forall_lookup in Hdoors; eapply Hdoors; eauto).
  destruct Hok as (Hcard & Hloc & _).
  assert (Hen : has_door door = true /\
                entry_ok (grid st) (location door) (heading door))
    by (rewrite Forall_lookup in Hentries; apply (Hentries ix); exact Hdoor).
  destruct Hen as (Hhd & He_nf & He_behind).
  assert (Hold : forall p, open_cell (grid st) p ->
            size_x st' = size_x st -> size_y st' = size_y st ->
            reach (grid st') (map_entrance st') p).
  { intros p Hp Hx Hy. unfold map_entrance. rewrite Hx, Hy.
    eapply reach_later; [exact Hlater|]. apply Hreach. exact Hp. }
  destruct Hres as [(-> & Hidle & Hstep)|(-> & Hpl & (new & Hds & Hst) & Hstep)].
  - rewrite Hstep in Hsame. injection Hsame as <-.
    destruct Hidle as (Hg & Hsx & Hsy & _).
    change (grid st1) with (grid st) in Hg.
    change (size_x st1) with (size_x st) in Hsx.
    change (size_y st1) with (size_y st) in Hsy.
    intros p Hp. apply Hold; [|assumption..].
    unfold open_cell in *. rewrite <- Hg. exact Hp.
  - destruct Hpl as (Hsx & Hsy & _ & Hwf2 & _).
    change (size_x st1) with (size_x st) in Hsx.
    change (size_y st1) with (size_y st) in Hsy.
    unfold connect_doorway in Hstep. rewrite Hhd in Hstep. unfold door_tile in Hstep.
    set (e := location door) in *. set (h := heading door) in *.
    destruct (write_tile_spec st2 e TILE_DOOR Hwf2) as (g3 & Hw & _ & Hg3).
    { rewrite (in_bounds_or_border_ext st st2) by assumption. exact Hloc. }
    rewrite Hw in Hstep. rewrite Hstep in Hsame. injection Hsame as <-.
    cbn [grid with_grid] in Hlater.
    assert (Hx3 : size_x (with_grid st2 g3) = size_x st) by exact Hsx.
    assert (Hy3 : size_y (with_grid st2 g3) = size_y st) by exact Hsy.
    unfold Inv4. cbn [grid with_grid].
    set (a := map_entrance (with_grid st2 g3)) in *.
    assert (Hold' : forall p, open_cell (grid st) p -> reach g3 a p)
      by (intros p Hp; apply (Hold p Hp Hx3 Hy3)).
    assert (He3 : cell g3 e = Some TILE_DOOR).
    { rewrite Hg3.
      replace (Vector.eqb e e) with true
        by (symmetry; apply vec_eqb_spec; reflexivity).
      reflexivity. }
    assert (Hne3 : forall p, p <> e -> cell g3 p = cell (grid st2) p).
    { intros p Hp. rewrite Hg3. destruct (Vector.eqb e p) eqn:E; [|reflexivity].
      apply vec_eqb_spec in E. congruence. }
    assert (Hre : reach g3 a e).
    { destruct He_behind as [Hb|Hb].
      - replace e with (e -v h +v h) by vec.
        apply (reach_step g3 a (e -v h)).
        + apply Hold'. left. exact Hb.
        + apply orth_ahead. exact Hcard.
        + replace (e -v h +v h) with e by vec. right. exact He3.
      - apply Hold'. right. exact Hb. }
    intros p Hp.
    destruct (vec_eq_dec p e) as [-> | Hpe]; [exact Hre|].
    assert (Hp2 : open_cell (grid st2) p)
      by (unfold open_cell in *; rewrite <- Hne3 by assumption; exact Hp).
    destruct Hst as [Hroom|[(l & Hl & Hcells) _]].
    + destruct Hroom as (sx & sy & eo & r1 & r2 & r3 & Hsx' & Hsy' & Heo & _ & _ & _
                         & Hin & Hout & _).
      set (corner := e +v Vector.left h *v eo) in *.
      assert (He : e = room_at corner h eo 0) by (unfold room_at, corner; vec).
      destruct (in_dec vec_eq_dec p (footprint h sx sy corner)) as [Hf|Hf].
      * apply in_footprint in Hf as (i & j & Hi & Hj & ->); [|lia].
        assert (Hint : 1 <= i <= sx /\ 1 <= j <= sy).
        { destruct Hp2 as [Hp2|Hp2]; rewrite Hin in Hp2 by assumption;
            destruct (room_tile_cases sx sy eo i j)
              as [(-> & -> & _)|[(? & ? & _)|(_ & _ & [(_ & _ & E)|E])]];
            try (rewrite E in Hp2; discriminate); try lia;
            exfalso; apply Hpe; symmetry; exact He. }
        assert (Hfl3 : forall i' j', 1 <= i' <= sx -> 1 <= j' <= sy ->
                         open_cell g3 (room_at corner h i' j')).
        { intros i' j' Hi' Hj'. left. rewrite Hne3.
          - rewrite Hin by lia.
            destruct (room_tile_cases sx sy eo i' j')
              as [(_ & ? & _)|[(_ & _ & ->)|(? & _)]]; [lia | reflexivity | tauto].
          - rewrite He. intros E. apply room_at_inj in E; [lia | assumption]. }
        assert (Hcol : reach g3 a (room_at corner h eo j)).
        { replace (room_at corner h eo j) with (e +v h *v Z.of_nat (Z.to_nat j))
            by (rewrite Z2Nat.id by lia; unfold room_at, corner; vec).
          apply reach_line; [exact Hcard | exact Hre |].
          intros k Hk.
          replace (e +v h *v k) with (room_at corner h eo k)
            by (unfold room_at, corner; vec).
          apply Hfl3; lia. }
        destruct (Z_le_gt_dec eo i) as [Hge|Hlt].
        -- replace (room_at corner h i j)
             with (room_at corner h eo j
                   +v Vector.right h *v Z.of_nat (Z.to_nat (i - eo)))
             by (rewrite Z2Nat.id by lia; unfold room_at; vec).
           apply reach_line; [apply cardinal_right; exact Hcard | exact Hcol |].
           intros k Hk.
           replace (room_at corner h eo j +v Vector.right h *v k)
             with (room_at corner h (eo + k) j) by (unfold room_at; vec).
           apply Hfl3; lia.
        -- replace (room_at corner h i j)
             with (room_at corner h eo j
                   +v Vector.left h *v Z.of_nat (Z.to_nat (eo - i)))
             by (rewrite Z2Nat.id by lia; unfold room_at; vec).
           apply reach_line; [apply cardinal_left; exact Hcard | exact Hcol |].
           intros k Hk.
           replace (room_at corner h eo j +v Vector.left h *v k)
             with (room_at corner h (eo - k) j) by (unfold room_at; vec).
           apply Hfl3; lia.
      * apply Hold'. unfold open_cell in *. rewrite <- Hout by assumption.
        exact Hp2.
    + destruct Hcells as (_ & _ & Hfl & Hdoor' & Hflank & Hframe).
      destruct (Hframe p) as [Hq|(k & Hk & [-> | [-> | ->]])].
      * apply Hold'. unfold open_cell in *. rewrite <- Hq. exact Hp2.
      * assert (Hopen3 : forall k', 1 <= k' <= l -> open_cell g3 (e +v h *v k')).
        { intros k' Hk'. unfold open_cell. rewrite Hne3.
          - destruct (decide (k' = l)) as [-> | Hlt];
              [right; exact Hdoor' | left; apply Hfl; lia].
          - intros E. assert (0 = k'); [|lia].
            apply (centre_inj h e 0 k' Hcard).
            transitivity e; [vec | symmetry; exact E]. }
        replace (e +v h *v k) with (e +v h *v Z.of_nat (Z.to_nat k))
          by (rewrite Z2Nat.id by lia; reflexivity).
        apply reach_line; [exact Hcard | exact Hre |].
        intros k' Hk'. apply Hopen3. lia.
      * exfalso. destruct (Hflank k Hk) as [E _].
        destruct Hp2 as [Hp2|Hp2]; congruence.
      * exfalso. destruct (Hflank k Hk) as [_ E].
        destruct Hp2 as [Hp2|Hp2]; congruence.
Qed.

Lemma dig_seed_Inv4 sx sy src st0 :
  dig_seed (init_map sx sy src) = Ok st0 -> Inv4 st0.
Proof.
  intros Hseed. pose proof (dig_seed_shape _ _ Hseed) as (Hx & Hy & _).
  destruct (dig_seed_explicit sx sy src st0 Hseed) as (_ & _ & Hcell).
  assert (He : map_entrance st0 = map_entrance (init_map sx sy src))
    by (unfold map_entrance; rewrite Hx, Hy; reflexivity).
  intros p Hp.
  assert (Hpe : p = map_entrance st0).
  { rewrite He. unfold open_cell in Hp. rewrite Hcell in Hp.
    destruct (Vector.eqb (_ -v _) p); [destruct Hp; discriminate|].
    destruct (Vector.eqb (_ +v _) p); [destruct Hp; discriminate|].
    destruct (Vector.eqb _ p) eqn:E.
    - apply vec_eqb_spec in E. congruence.
    - destruct Hp as [Hp|Hp]; apply cell_init_map in Hp; discriminate. }
  subst p. apply reach_here. exact Hp.
Qed.

Lemma dig_drain_connected fuel : forall st,
  Inv st -> Inv2 st -> Inv3 st -> Inv4 st ->
  match dig_drain fuel st with
  | Done st' | Running st' => Inv4 st'
  | Crashed => False
  end.
Proof.
  induction fuel as [|fuel IH]; intros st HI HJ HK HL.
  - cbn. destruct (doorways st); exact HL.
  - cbn [dig_drain]. destruct (doorways st) as [|d ds] eqn:Hd; [exact HL|].
    destruct (dig_step_spec st HI) as (st' & Hs & HI' & _); [congruence|].
    destruct (dig_step_kept st HI HJ) as (s & Hs' & HJ' & _); [congruence|].
    rewrite Hs in Hs'. injection Hs' as <-.
    destruct (dig_step_sealed st HI HJ HK) as (s & Hs' & HK' & _); [congruence|].
    rewrite Hs in Hs'. injection Hs' as <-.
    destruct (dig_step_connected st HI HJ HK HL) as (s & Hs' & HL'); [congruence|].
    rewrite Hs in Hs'. injection Hs' as <-. rewrite Hs.
    apply IH; assumption.
Qed.

(** X25. The map is connected: in every state of the run, every floor
    cell and every door can be reached from the map entrance along a path
    of floor and door cells, each step going to one of the four
    orthogonal neighbours. *)
Theorem map_is_connected fuel sx sy src :
  match generate fuel sx sy src with
  | Done st | Running st =>
      forall p, open_cell (grid st) p -> reach (grid st) (map_entrance st) p
  | Crashed => sx < 3 \/ sy < 1
  end.
Proof.
  unfold generate, dig_loop.
  destruct (decide (3 <= sx /\ 1 <= sy)) as [[Hsx Hsy]|Hn].
  - destruct (dig_seed_spec sx sy src Hsx Hsy) as (st0 & Hseed & HI & _).
    rewrite Hseed.
    pose proof (dig_drain_connected fuel st0 HI (dig_seed_Inv2 _ _ _ _ Hseed)
                  (dig_seed_Inv3 _ _ _ _ Hseed) (dig_seed_Inv4 _ _ _ _ Hseed)) as H.
    destruct (dig_drain fuel st0); [exact H | destruct H | exact H].
  - rewrite dig_seed_crash by lia. lia.
Qed.

(** X26. Every permawall is the corner of a room: in every state of the
    run a permawall cell has floor at one of its four diagonal
    neighbours, while the two cells between it and that floor are not
    floor. *)
Theorem permawalls_are_corners fuel sx sy src :
  match generate fuel sx sy src with
  | Done st | Running st =>
      forall p, cell (grid st) p = Some TILE_PERMAWALL -> diag_floor (grid st) p
  | Crashed => sx < 3 \/ sy < 1
  end.
Proof.
  pose proof (generate_invariants fuel sx sy src) as H.
  destruct (generate fuel sx sy src); [| exact H |];
    destruct H as (_ & (_ & Hc) & _); exact Hc.
Qed.

(** ** Termination *)



